(** * The blog's static-page regeneration cascade, slug generator and
      comment gate, embedded from [src/src/index copy.ts] (the current
      handlers, lines 1211 onwards) and [src/migrations/init.sql]. *)

From Stdlib Require Import ZArith NArith List Lia Bool DecimalNat.
From Stdlib Require Import Sorted DecimalFacts.
From stdpp Require Import gmap list strings.
Import ListNotations.

Local Open Scope Z_scope.

(** ** JavaScript strings

    A JS string is a sequence of UTF-16 code units; the regular expressions
    of [generateUniqueSlug] carry no [u] flag and so match unit by unit. *)

Abbreviation jsstring := (list N).

Module JS.

(** An empty string is falsy, every other string is truthy. *)
Definition truthy (s : jsstring) : bool :=
  match s with [] => false | _ :: _ => true end.

(** [a || b] on optional strings: [undefined], [null] and [''] fall
    through to [b]. *)
Definition or_else (a : option jsstring) (b : jsstring) : jsstring :=
  match a with
  | Some s => if truthy s then s else b
  | None => b
  end.

Definition truthy_opt (a : option jsstring) : bool :=
  match a with Some s => truthy s | None => false end.

Definition hyphen : N := 45%N.
Definition underscore : N := 95%N.

(** The class [\s]: WhiteSpace and LineTerminator of ECMAScript. U+00A0,
    which the source lists a second time, is already a member. *)
Definition is_space (c : N) : bool :=
  ((9 <=? c) && (c <=? 13) || (c =? 32) || (c =? 160) || (c =? 5760)
   || (8192 <=? c) && (c <=? 8202) || (c =? 8232) || (c =? 8233)
   || (c =? 8239) || (c =? 8287) || (c =? 12288) || (c =? 65279))%N.

(** The class [a-z0-9一-龥-_] (the source strips its complement). *)
Definition is_slug_char (c : N) : bool :=
  ((97 <=? c) && (c <=? 122) || (48 <=? c) && (c <=? 57)
   || (19968 <=? c) && (c <=? 40869)
   || (c =? hyphen) || (c =? underscore))%N.

Definition is_hyphen (c : N) : bool := (c =? hyphen)%N.

(** [s.replace(/[p]+/g, r)]: every maximal run of units in [p] becomes
    the single unit [r]. [in_run] records that the previous unit already
    belonged to the run being replaced. *)
Fixpoint replace_runs (p : N -> bool) (r : N) (in_run : bool)
    (s : jsstring) : jsstring :=
  match s with
  | [] => []
  | c :: s' =>
      if p c
      then (if in_run then replace_runs p r true s'
            else r :: replace_runs p r true s')
      else c :: replace_runs p r false s'
  end.

(** [s.replace(/^-|-$/g, '')]: one hyphen is removed at the start and
    one at the end of what remains. *)
Definition strip_leading (s : jsstring) : jsstring :=
  match s with
  | c :: s' => if is_hyphen c then s' else s
  | [] => []
  end.

Definition strip_trailing (s : jsstring) : jsstring :=
  match rev s with
  | c :: r => if is_hyphen c then rev r else s
  | [] => []
  end.

Definition trim_hyphens (s : jsstring) : jsstring :=
  strip_trailing (strip_leading s).


(** Template-literal rendering of a non-negative integer. *)
Fixpoint uint_units (d : Decimal.uint) : jsstring :=
  match d with
  | Decimal.Nil => []
  | Decimal.D0 d => 48%N :: uint_units d
  | Decimal.D1 d => 49%N :: uint_units d
  | Decimal.D2 d => 50%N :: uint_units d
  | Decimal.D3 d => 51%N :: uint_units d
  | Decimal.D4 d => 52%N :: uint_units d
  | Decimal.D5 d => 53%N :: uint_units d
  | Decimal.D6 d => 54%N :: uint_units d
  | Decimal.D7 d => 55%N :: uint_units d
  | Decimal.D8 d => 56%N :: uint_units d
  | Decimal.D9 d => 57%N :: uint_units d
  end.

Definition of_nat (n : nat) : jsstring := uint_units (Nat.to_uint n).

(** ASCII literals of the source, written as Rocq strings. *)
Fixpoint lit (s : String.string) : jsstring :=
  match s with
  | String.EmptyString => []
  | String.String a s' => Ascii.N_of_ascii a :: lit s'
  end.
Arguments lit s%_string.


(** [s.trim()] removes the units of [\s] at both ends. *)
Fixpoint trim_start (s : jsstring) : jsstring :=
  match s with
  | c :: s' => if is_space c then trim_start s' else s
  | [] => []
  end.

Definition trim (s : jsstring) : jsstring :=
  rev (trim_start (rev (trim_start s))).

(** [s.split(',')[0]]: the units before the first comma. *)
Fixpoint before_comma (s : jsstring) : jsstring :=
  match s with
  | c :: s' => if (c =? 44)%N then [] else c :: before_comma s'
  | [] => []
  end.

(** [parts.join(sep)]. *)
Fixpoint join (sep : jsstring) (parts : list jsstring) : jsstring :=
  match parts with
  | [] => []
  | [x] => x
  | x :: rest => x ++ sep ++ join sep rest
  end.

End JS.

(** ** The relational store ([migrations/init.sql])

    Timestamps are written by [new Date().toISOString()]; such strings have
    one fixed width, so that the text order SQLite applies to them is the
    order of the instants. They are kept as milliseconds since the epoch
    ([Z]); [None] is SQL NULL, which every comparison rejects. *)

Module Post.
Record t := mk {
  id : jsstring;
  title : jsstring;
  slug : jsstring;
  content : jsstring;
  category : option jsstring;
  tags : jsstring;
  feature_image : option jsstring;
  published_at : option Z;
  is_published : bool;
  is_draft : Z;
  is_pinned : Z
}.
End Post.

Module Comment.
Record t := mk {
  id : jsstring;
  post_id : jsstring;
  author : jsstring;
  email : option jsstring;
  content : jsstring;
  ip_address : jsstring;
  created_at : Z;
  is_approved : Z;
  parent_id : option jsstring;
  reply_to : option jsstring
}.
End Comment.

Module Blacklist.
Record t := mk {
  id : jsstring;
  ip_address : jsstring;
  reason : option jsstring;
  created_at : Z;
  expires_at : option Z
}.
End Blacklist.

(** [posts], [comments] and [ip_blacklist] are kept as their rows in table
    order; [settings] and [post_views] are keyed by their primary key. *)
Record DB := mkDB {
  posts : list Post.t;
  comments : list Comment.t;
  settings : gmap jsstring jsstring;
  post_views : gmap jsstring N;
  ip_blacklist : list Blacklist.t
}.

(** The bucket [STATIC_PAGES]: one HTML body per key. *)
Abbreviation R2 := (gmap jsstring jsstring).

Definition with_posts (db : DB) (ps : list Post.t) : DB :=
  mkDB ps (comments db) (settings db) (post_views db) (ip_blacklist db).

Definition with_comments (db : DB) (cs : list Comment.t) : DB :=
  mkDB (posts db) cs (settings db) (post_views db) (ip_blacklist db).

(** *** Queries *)

(** [.first()] of a query without ORDER BY: the first matching row. *)
Definition first_where {A} (w : A -> bool) (rows : list A) : option A :=
  List.find w rows.

(** [SELECT * FROM posts WHERE id = ?]. *)
Definition post_by_id (db : DB) (i : jsstring) : option Post.t :=
  first_where (fun p => bool_decide (Post.id p = i)) (posts db).

(** [published_at < ?] and [published_at > ?]; NULL on either side makes
    the comparison fail. *)
Definition published_before (t : option Z) (p : Post.t) : bool :=
  match Post.published_at p, t with
  | Some a, Some b => a <? b
  | _, _ => false
  end.

Definition published_after (t : option Z) (p : Post.t) : bool :=
  match Post.published_at p, t with
  | Some a, Some b => b <? a
  | _, _ => false
  end.

(** SQLite's order on a nullable column: NULL sorts below every value. *)
Definition stamp_lt (a b : option Z) : bool :=
  match a, b with
  | None, Some _ => true
  | Some x, Some y => x <? y
  | _, None => false
  end.

(** [ORDER BY published_at DESC LIMIT 1] and [... ASC LIMIT 1]. SQLite
    leaves the choice among equal timestamps open, and two queries over
    one table need not choose alike (the query plan decides); the scan
    below keeps the earliest such row of the table. A property that
    equates the rows of two different queries therefore assumes distinct
    timestamps. *)
Definition order_desc_limit_1 (rows : list Post.t) : option Post.t :=
  fold_left (fun acc p =>
    match acc with
    | None => Some p
    | Some q =>
        if stamp_lt (Post.published_at q) (Post.published_at p)
        then Some p else Some q
    end) rows None.

Definition order_asc_limit_1 (rows : list Post.t) : option Post.t :=
  fold_left (fun acc p =>
    match acc with
    | None => Some p
    | Some q =>
        if stamp_lt (Post.published_at p) (Post.published_at q)
        then Some p else Some q
    end) rows None.

(** [WHERE is_published = true AND published_at < ? ORDER BY published_at
    DESC LIMIT 1] (lines 2112 and 2665) and its mirror (line 2666). *)
Definition prev_published (db : DB) (t : option Z) : option Post.t :=
  order_desc_limit_1
    (List.filter (fun p => Post.is_published p && published_before t p)
       (posts db)).

Definition next_published (db : DB) (t : option Z) : option Post.t :=
  order_asc_limit_1
    (List.filter (fun p => Post.is_published p && published_after t p)
       (posts db)).

(** [WHERE published_at < ? ORDER BY published_at DESC LIMIT 1] and its
    mirror, as the update and delete handlers ask them (lines 2136, 2137,
    2180, 2181, 2217, 2218): no condition on [is_published]. *)
Definition prev_any (db : DB) (t : option Z) : option Post.t :=
  order_desc_limit_1 (List.filter (published_before t) (posts db)).

Definition next_any (db : DB) (t : option Z) : option Post.t :=
  order_asc_limit_1 (List.filter (published_after t) (posts db)).

(** [SELECT ... FROM comments WHERE post_id = ? AND is_approved = 1 ORDER BY
    created_at ASC]: the matching rows, sorted by insertion so that equal
    timestamps keep their table order. *)
Fixpoint insert_by_created_at (c : Comment.t) (sorted : list Comment.t)
    : list Comment.t :=
  match sorted with
  | [] => [c]
  | d :: rest =>
      if Comment.created_at c <? Comment.created_at d
      then c :: sorted
      else d :: insert_by_created_at c rest
  end.

Definition order_by_created_at (rows : list Comment.t) : list Comment.t :=
  fold_right insert_by_created_at [] (rev rows).

Definition approved_comments (db : DB) (post : jsstring) : list Comment.t :=
  List.filter
    (fun c => bool_decide (Comment.post_id c = post)
              && (Comment.is_approved c =? 1))
    (comments db).

(** ** [generateUniqueSlug] (lines 2623-2651) *)

Section Slug.

(** [String.prototype.toLowerCase], the full Unicode mapping of the
    runtime. *)
Variable toLowerCase : jsstring -> jsstring.

(** Step 1: the chain of four [replace] calls. [/-{2,}/g] rewrites every
    run of two or more hyphens to one hyphen and leaves single hyphens, which
    is [replace_runs] on hyphens. *)
Definition base_slug (title : jsstring) : jsstring :=
  JS.trim_hyphens
    (JS.replace_runs JS.is_hyphen JS.hyphen false
       (List.filter JS.is_slug_char
          (JS.replace_runs JS.is_space JS.hyphen false (toLowerCase title)))).

(** The lookup of the loop body: [SELECT id FROM posts WHERE slug = ? AND
    id != ?] when [excludeId] is truthy, [SELECT id FROM posts WHERE slug = ?]
    otherwise; [true] when [.first()] finds a row. *)
Definition slug_taken (db : DB) (slug : jsstring)
    (excludeId : option jsstring) : bool :=
  existsb
    (fun p =>
       bool_decide (Post.slug p = slug)
       && (if JS.truthy_opt excludeId
           then negb (bool_decide (Some (Post.id p) = excludeId))
           else true))
    (posts db).

(** Step 3: [while (true)], one iteration per unit of [fuel]; [None] when
    the fuel runs out before the loop breaks. *)
Fixpoint slug_loop (fuel : nat) (db : DB) (excludeId : option jsstring)
    (baseSlug slug : jsstring) (suffix : nat) : option jsstring :=
  match fuel with
  | O => None
  | S fuel' =>
      if slug_taken db slug excludeId
      then slug_loop fuel' db excludeId baseSlug
             (baseSlug ++ JS.hyphen :: JS.of_nat suffix) (S suffix)
      else Some slug
  end.

Definition generateUniqueSlug (fuel : nat) (db : DB) (title : jsstring)
    (excludeId : option jsstring) : option jsstring :=
  let slug := base_slug title in
  let slug := if JS.truthy slug then slug else JS.lit "post" in
  slug_loop fuel db excludeId slug slug 1.

(** The candidate the loop examines in iteration [k], counted from 0: the
    base slug, then the base slug with suffix [-k]. *)
Definition candidate (baseSlug : jsstring) (k : nat) : jsstring :=
  match k with
  | O => baseSlug
  | S _ => baseSlug ++ JS.hyphen :: JS.of_nat k
  end.

(** One iteration more than there are posts always reaches the [break]
    (theorem [generateUniqueSlug_returns]); the handlers run the loop with
    this much fuel. *)
Definition slug_fuel (db : DB) : nat := S (length (posts db)).

End Slug.

(** ** The slug algorithm as its description words it

    A second account of [generateUniqueSlug], written from the description
    of the algorithm and not from the code, for [base_slug] and the
    suffix to be compared with: lower-case the title; replace whitespace
    runs with a single hyphen; strip characters outside the allow-list
    (letters, digits, CJK, hyphen, underscore); collapse repeated hyphens;
    trim leading and trailing hyphens; append a numeric suffix. Nothing
    below uses a definition of the code's side. *)
Module SlugSpec.

Definition hyphen : N := 45%N.

Definition is_hyphen (c : N) : Prop := c = hyphen.











End SlugSpec.

(** ** [generateAndStoreStaticPage] (lines 2659-2988) *)

(** The static text of the page template, cut at the interpolations. *)
Inductive Fragment :=
| html_open | title_sep | head_close | header_mid | header_close
| article_meta | meta_views | meta_views_unit | meta_comments_unit
| category_open | category_mid | category_close
| body_open | body_close
| tags_open | tag_open | tag_mid | tag_close | tags_close
| nav_open | prev_open | prev_mid | prev_close | prev_none
| nav_sep | next_open | next_mid | next_close | next_none | nav_close
| comments_heading_close | comments_none | comments_close
| comment_open | comment_date | comment_date_close
| reply_open | reply_close | comment_body | comment_button
| comment_button_author | comment_close
| footer_sep | footer_close | script_open | script_close | html_close.

Section Renderer.

(** External collaborators: the Markdown converter, the runtime's date
    formatting in its configured locale and time zone, [JSON.parse] on the
    tag column, the calendar year of an instant, and the template text. *)
Variable marked_parse : jsstring -> jsstring.
Variable toLocaleDateString : Z -> jsstring.
Variable toLocaleString : Z -> jsstring.
Variable JSON_parse : jsstring -> list jsstring.
Variable getFullYear : Z -> nat.
Variable tpl : Fragment -> jsstring.

Definition default_blog_title : jsstring :=
  [25105%N; 30340%N; 21338%N; 23458%N].

Definition default_subtitle : jsstring :=
  JS.lit "A modern blog built with Cloudflare.".

Definition setting (db : DB) (key : jsstring) : option jsstring :=
  settings db !! key.

Definition commentHtml (c : Comment.t) : jsstring :=
  tpl comment_open ++ Comment.author c
  ++ tpl comment_date ++ toLocaleString (Comment.created_at c)
  ++ tpl comment_date_close
  ++ (match Comment.reply_to c with
      | Some r => if JS.truthy r then tpl reply_open ++ r ++ tpl reply_close
                  else []
      | None => []
      end)
  ++ tpl comment_body ++ Comment.content c
  ++ tpl comment_button ++ Comment.id c
  ++ tpl comment_button_author ++ Comment.author c
  ++ tpl comment_close.

Definition neighborHtml (open mid close none : Fragment)
    (n : option Post.t) : jsstring :=
  match n with
  | Some p => tpl open ++ Post.slug p ++ tpl mid ++ Post.title p ++ tpl close
  | None => tpl none
  end.

(** The page text. [now] is the one reading of [new Date()] the function
    takes; it supplies the copyright year and stands in for a missing
    [post.published_at] (line 2662). *)
Definition htmlContent (now : Z) (db : DB) (post : Post.t) : jsstring :=
  let bodyHtml := marked_parse (Post.content post) in
  let publishedAt :=
    match Post.published_at post with Some t => t | None => now end in
  let prevPost := prev_published db (Some publishedAt) in
  let nextPost := next_published db (Some publishedAt) in
  let subtitle := JS.or_else (setting db (JS.lit "subtitle")) default_subtitle in
  let blogTitle :=
    JS.or_else (setting db (JS.lit "blog_title")) default_blog_title in
  let viewCount :=
    match post_views db !! Post.id post with Some v => v | None => 0%N end in
  let commentsResult :=
    order_by_created_at (approved_comments db (Post.id post)) in
  let commentsCount := length (approved_comments db (Post.id post)) in
  let commentsHtml :=
    let joined := JS.join [] (map commentHtml commentsResult) in
    if JS.truthy joined then joined else tpl comments_none in
  let clientScript := tpl script_open ++ Post.id post ++ tpl script_close in
  tpl html_open ++ Post.title post ++ tpl title_sep ++ blogTitle
  ++ tpl head_close ++ blogTitle
  ++ tpl header_mid ++ subtitle
  ++ tpl header_close ++ Post.title post
  ++ tpl article_meta ++ toLocaleDateString publishedAt
  ++ tpl meta_views ++ JS.of_nat (N.to_nat viewCount)
  ++ tpl meta_views_unit ++ JS.of_nat commentsCount
  ++ tpl meta_comments_unit
  ++ (match Post.category post with
      | Some c => if JS.truthy c
                  then tpl category_open ++ c ++ tpl category_mid ++ c
                       ++ tpl category_close
                  else []
      | None => []
      end)
  ++ tpl body_open ++ bodyHtml ++ tpl body_close
  ++ (if JS.truthy (Post.tags post)
      then tpl tags_open
           ++ JS.join (JS.lit ", ")
                (map (fun tag => tpl tag_open ++ tag ++ tpl tag_mid ++ tag
                                 ++ tpl tag_close)
                   (JSON_parse (Post.tags post)))
           ++ tpl tags_close
      else [])
  ++ tpl nav_open
  ++ neighborHtml prev_open prev_mid prev_close prev_none prevPost
  ++ tpl nav_sep
  ++ neighborHtml next_open next_mid next_close next_none nextPost
  ++ tpl nav_close ++ JS.of_nat commentsCount
  ++ tpl comments_heading_close ++ commentsHtml
  ++ tpl comments_close ++ JS.of_nat (getFullYear now)
  ++ tpl footer_sep ++ blogTitle
  ++ tpl footer_close ++ clientScript ++ tpl html_close.

(** [env.STATIC_PAGES.put(post.slug, htmlContent, ...)]: the blob under the
    post's slug is overwritten. The converter and the bucket are taken not
    to throw. *)
Definition generateAndStoreStaticPage (now : Z) (db : DB) (post : Post.t)
    (pages : R2) : R2 :=
  <[Post.slug post := htmlContent now db post]> pages.

(** A background task is the sequence of [generateAndStoreStaticPage] calls
    it makes; call number [k] reads the clock as [clock k]. The calls only
    read the relational store, so every query of the task sees the store
    the handler left. *)
Fixpoint regenerate_all (clock : nat -> Z) (db : DB) (calls : list Post.t)
    (pages : R2) : R2 :=
  match calls with
  | [] => pages
  | p :: rest =>
      regenerate_all (fun k => clock (S k)) db rest
        (generateAndStoreStaticPage (clock O) db p pages)
  end.

End Renderer.

(** ** The request handlers *)

(** The JSON body of [POST /api/posts] and [PUT /api/posts/:id]. A field is
    [None] when the key is absent. The update handler copies every key of
    the body into its [UPDATE] statement, so [published_at] reaches the
    store when the body carries it; the create handler never reads it.
    [feature_image = Some []] stands for both [''] and [null]. *)
Module Body.
Record t := mk {
  title : option jsstring;
  content : option jsstring;
  category : option jsstring;
  tags : option (list jsstring);
  feature_image : option jsstring;
  is_published : option bool;
  is_draft : option Z;
  is_pinned : option Z;
  published_at : option Z
}.
End Body.

(** What a handler leaves behind: the status of its response, the store
    and the bucket after its awaited writes, and the calls of
    [generateAndStoreStaticPage], in order, of the task it hands to
    [waitUntil]. *)
Record Outcome := mkOutcome {
  status : nat;
  db_after : DB;
  pages_after : R2;
  background : list Post.t
}.

Definition banner : jsstring := JS.lit "/assets/banner.jpg".

(** [INSERT INTO posts]: refused when [id] (PRIMARY KEY) or [slug] (UNIQUE)
    is already present. *)
Definition insert_post (db : DB) (row : Post.t) : option DB :=
  if existsb
       (fun p => bool_decide (Post.id p = Post.id row)
                 || bool_decide (Post.slug p = Post.slug row))
       (posts db)
  then None
  else Some (with_posts db (posts db ++ [row])).

(** [UPDATE posts SET ... WHERE id = ?]: every row with that id is replaced
    by [f row]; refused when a replaced row would take the slug of a row
    with another id. *)
Definition update_post (db : DB) (i : jsstring) (f : Post.t -> Post.t)
    : option DB :=
  if existsb
       (fun p => bool_decide (Post.id p = i)
                 && existsb
                      (fun q => negb (bool_decide (Post.id q = i))
                                && bool_decide (Post.slug q = Post.slug (f p)))
                      (posts db))
       (posts db)
  then None
  else Some (with_posts db
               (map (fun p => if bool_decide (Post.id p = i) then f p else p)
                  (posts db))).

(** [DELETE FROM posts WHERE id = ?], with the ON DELETE CASCADE of
    [comments] and [post_views]. *)
Definition delete_post (db : DB) (i : jsstring) : DB :=
  mkDB (List.filter (fun p => negb (bool_decide (Post.id p = i))) (posts db))
       (List.filter (fun c => negb (bool_decide (Comment.post_id c = i)))
          (comments db))
       (settings db)
       (delete i (post_views db))
       (ip_blacklist db).

(** [Set.prototype.add] on a set kept in insertion order. *)
Definition set_add (i : jsstring) (s : list jsstring) : list jsstring :=
  if bool_decide (i ∈ s) then s else s ++ [i].

Definition set_has (s : list jsstring) (i : jsstring) : bool :=
  bool_decide (i ∈ s).

Definition add_post (o : option Post.t) (s : list jsstring) : list jsstring :=
  match o with Some p => set_add (Post.id p) s | None => s end.

Section Handlers.

Variable toLowerCase : jsstring -> jsstring.
Variable JSON_stringify : list jsstring -> jsstring.

(** [api.post('/posts')] (lines 2072-2124). [id] is the value of
    [crypto.randomUUID()] and [now] the instant of [new Date()]. [None]
    means that the slug loop did not finish. *)
Definition post_posts (db : DB) (pages : R2) (body : Body.t)
    (id : jsstring) (now : Z) : option Outcome :=
  if negb (JS.truthy_opt (Body.title body))
  then Some (mkOutcome 400 db pages [])
  else
    let title := default [] (Body.title body) in
    match generateUniqueSlug toLowerCase (slug_fuel db) db title (Some id) with
    | None => None
    | Some slug =>
        let slug := if JS.truthy slug then slug else id in
        let featureImage := JS.or_else (Body.feature_image body) banner in
        let publishedAt := now in
        let content := JS.or_else (Body.content body) [] in
        let tags := JSON_stringify (default [] (Body.tags body)) in
        let is_published := default true (Body.is_published body) in
        let is_draft := default 0 (Body.is_draft body) in
        let is_pinned := default 0 (Body.is_pinned body) in
        let row :=
          Post.mk id title slug content
            (Some (JS.or_else (Body.category body) (JS.lit "Uncategorized")))
            tags (Some featureImage) (Some publishedAt)
            is_published is_draft is_pinned in
        match insert_post db row with
        | None => Some (mkOutcome 500 db pages [])
        | Some db' =>
            let newPost :=
              Post.mk id title slug content (Body.category body) tags
                (Some featureImage) (Some publishedAt)
                is_published is_draft is_pinned in
            let prevPost := prev_published db' (Some publishedAt) in
            Some (mkOutcome 201 db' pages
                    (newPost :: match prevPost with
                                | Some p => [p]
                                | None => []
                                end))
        end
    end.

(** The columns the [UPDATE] of the update handler writes to a row:
    the keys of [updates] that are not [undefined]. *)
Definition apply_updates (body : Body.t) (new_slug : option jsstring)
    (p : Post.t) : Post.t :=
  Post.mk (Post.id p)
    (default (Post.title p) (Body.title body))
    (default (Post.slug p) new_slug)
    (default (Post.content p) (Body.content body))
    (match Body.category body with
     | Some c => Some c
     | None => Post.category p
     end)
    (match Body.tags body with
     | Some l => JSON_stringify l
     | None => Post.tags p
     end)
    (match Body.feature_image body with
     | Some f => if JS.truthy f then Some f else Some banner
     | None => Post.feature_image p
     end)
    (match Body.published_at body with
     | Some t => Some t
     | None => Post.published_at p
     end)
    (default (Post.is_published p) (Body.is_published body))
    (default (Post.is_draft p) (Body.is_draft body))
    (default (Post.is_pinned p) (Body.is_pinned body)).

(** [{...originalPost, ...updates, tags: updates.tags || originalPost.tags,
    feature_image: updates.feature_image || originalPost.feature_image}]. *)
Definition merge_updates (body : Body.t) (new_slug : option jsstring)
    (p : Post.t) : Post.t :=
  let u := apply_updates body new_slug p in
  Post.mk (Post.id u) (Post.title u) (Post.slug u) (Post.content u)
    (Post.category u)
    (if JS.truthy (Post.tags u) then Post.tags u else Post.tags p)
    (if JS.truthy_opt (Post.feature_image u) then Post.feature_image u
     else Post.feature_image p)
    (Post.published_at u) (Post.is_published u) (Post.is_draft u)
    (Post.is_pinned u).

(** The background task of the update handler (lines 2174-2198), run
    against the store [db'] the [UPDATE] left. *)
Definition put_background (db' : DB) (updatedPost : Post.t)
    (neighborsToUpdate : list jsstring) : list Post.t :=
  let newPrev := prev_any db' (Post.published_at updatedPost) in
  let newNext := next_any db' (Post.published_at updatedPost) in
  let fresh (o : option Post.t) :=
    match o with
    | Some p => if set_has neighborsToUpdate (Post.id p) then [] else [p]
    | None => []
    end in
  [updatedPost] ++ fresh newPrev ++ fresh newNext
  ++ omap (post_by_id db') neighborsToUpdate.

(** [api.put('/posts/:id')] (lines 2127-2205). *)
Definition put_posts_id (db : DB) (pages : R2) (id : jsstring)
    (body : Body.t) : option Outcome :=
  match post_by_id db id with
  | None => Some (mkOutcome 404 db pages [])
  | Some originalPost =>
      let originalPrev := prev_any db (Post.published_at originalPost) in
      let originalNext := next_any db (Post.published_at originalPost) in
      let neighborsToUpdate := add_post originalNext (add_post originalPrev []) in
      let regenerate_slug :=
        match Body.title body with
        | Some t => JS.truthy t && negb (bool_decide (t = Post.title originalPost))
        | None => false
        end in
      let slug_result :=
        if regenerate_slug
        then option_map Some
               (generateUniqueSlug toLowerCase (slug_fuel db) db
                  (default [] (Body.title body)) (Some id))
        else Some None in
      match slug_result with
      | None => None
      | Some new_slug =>
          match update_post db id (apply_updates body new_slug) with
          | None => Some (mkOutcome 500 db pages [])
          | Some db' =>
              let updatedPost := merge_updates body new_slug originalPost in
              Some (mkOutcome 200 db' pages
                      (put_background db' updatedPost neighborsToUpdate))
          end
      end
  end.

(** [api.delete('/posts/:id')] (lines 2208-2249). *)
Definition delete_posts_id (db : DB) (pages : R2) (id : jsstring) : Outcome :=
  match post_by_id db id with
  | None => mkOutcome 404 db pages []
  | Some postToDelete =>
      let prevPost := prev_any db (Post.published_at postToDelete) in
      let nextPost := next_any db (Post.published_at postToDelete) in
      let db' := delete_post db id in
      let pages' := delete (Post.slug postToDelete) pages in
      mkOutcome 200 db' pages'
        (match prevPost with Some p => [p] | None => [] end
         ++ match nextPost with Some p => [p] | None => [] end)
  end.

(** [api.post('/rebuild-all')] (lines 1891-1908): [SELECT * FROM posts
    WHERE is_published = true], then one call per row with a truthy slug. *)
Definition post_rebuild_all (db : DB) (pages : R2) : Outcome :=
  mkOutcome 200 db pages
    (List.filter (fun p => JS.truthy (Post.slug p))
       (List.filter Post.is_published (posts db))).

End Handlers.

(** ** Comment submission (lines 2515-2600) *)

Module Submission.
Record t := mk {
  cf_connecting_ip : option jsstring;
  x_forwarded_for : option jsstring;
  author : option jsstring;
  content : option jsstring;
  email : option jsstring;
  parent_id : option jsstring;
  reply_to : option jsstring
}.
End Submission.

(** [c.req.header('CF-Connecting-IP') ||
    c.req.header('X-Forwarded-For')?.split(',')[0].trim() || 'unknown']. *)
Definition userIp (r : Submission.t) : jsstring :=
  JS.or_else (Submission.cf_connecting_ip r)
    (JS.or_else
       (option_map (fun h => JS.trim (JS.before_comma h))
          (Submission.x_forwarded_for r))
       (JS.lit "unknown")).

(** [isIpBlacklisted] (lines 3029-3032): [SELECT id FROM ip_blacklist WHERE
    ip_address = ?]. *)
Definition isIpBlacklisted (db : DB) (ip : jsstring) : bool :=
  match first_where (fun b => bool_decide (Blacklist.ip_address b = ip))
          (ip_blacklist db) with
  | Some _ => true
  | None => false
  end.

(** [!s || !s.trim()]. *)
Definition blank (s : option jsstring) : bool :=
  negb (JS.truthy_opt s) || negb (JS.truthy (JS.trim (default [] s))).

(** [SELECT COUNT( * ) FROM comments WHERE ip_address = ? AND created_at > ?]. *)
Definition recentComments (db : DB) (ip : jsstring) (since : Z) : nat :=
  length
    (List.filter
       (fun c => bool_decide (Comment.ip_address c = ip)
                 && (since <? Comment.created_at c))
       (comments db)).

Definition truthy_or_null (s : option jsstring) : option jsstring :=
  if JS.truthy_opt s then s else None.

(** [app.post('/api/posts/:postId/comments')]. [commentId] is the value of
    [crypto.randomUUID()]; [now] is the instant the handler reads, in
    milliseconds, for both [Date.now()] and [new Date()]. *)
Definition post_comments (db : DB) (pages : R2) (postId : jsstring)
    (r : Submission.t) (commentId : jsstring) (now : Z) : Outcome :=
  let ip := userIp r in
  if isIpBlacklisted db ip then mkOutcome 403 db pages []
  else
    match post_by_id db postId with
    | None => mkOutcome 404 db pages []
    | Some _ =>
        if blank (Submission.author r) || blank (Submission.content r)
        then mkOutcome 400 db pages []
        else
          let parent :=
            if JS.truthy_opt (Submission.parent_id r)
            then Some (first_where
                         (fun c => bool_decide
                                     (Some (Comment.id c) = Submission.parent_id r))
                         (comments db))
            else None in
          match parent with
          | Some None => mkOutcome 404 db pages []
          | _ =>
              let replyToName :=
                match parent with
                | Some (Some parentComment) => Some (Comment.author parentComment)
                | _ => Submission.reply_to r
                end in
              let oneMinuteAgo := now - 60 * 1000 in
              if (3 <=? recentComments db ip oneMinuteAgo)%nat
              then mkOutcome 429 db pages []
              else
                if existsb (fun c => bool_decide (Comment.id c = commentId))
                     (comments db)
                then mkOutcome 500 db pages []
                else
                  let row :=
                    Comment.mk commentId postId
                      (JS.trim (default [] (Submission.author r)))
                      (truthy_or_null (option_map JS.trim (Submission.email r)))
                      (JS.trim (default [] (Submission.content r)))
                      ip now 0
                      (truthy_or_null (Submission.parent_id r))
                      (truthy_or_null replyToName) in
                  let db' := with_comments db (comments db ++ [row]) in
                  mkOutcome 201 db' pages
                    (match post_by_id db' postId with
                     | Some updatedPost => [updatedPost]
                     | None => []
                     end)
          end
    end.

(** ** Running a background task *)

Section Runs.

Variable marked_parse : jsstring -> jsstring.
Variable toLocaleDateString : Z -> jsstring.
Variable toLocaleString : Z -> jsstring.
Variable JSON_parse : jsstring -> list jsstring.
Variable getFullYear : Z -> nat.
Variable tpl : Fragment -> jsstring.

(** The bucket once the task a handler scheduled has run to its end. *)
Definition run_background (clock : nat -> Z) (out : Outcome) : R2 :=
  regenerate_all marked_parse toLocaleDateString toLocaleString JSON_parse
    getFullYear tpl clock (db_after out) (background out) (pages_after out).

(** One full rebuild: the handler and its task. *)
Definition rebuild (clock : nat -> Z) (db : DB) (pages : R2) : R2 :=
  run_background clock (post_rebuild_all db pages).

End Runs.

(** ** Reachable stores

    The stores the post handlers can produce from the freshly migrated
    database (an empty [posts] table). [crypto.randomUUID()] yields a
    36-character string, so the identifier handed to the create handler is
    never empty. *)
Inductive reachable (toLowerCase : jsstring -> jsstring)
    (JSON_stringify : list jsstring -> jsstring) : DB -> Prop :=
| reach_init db :
    posts db = [] -> reachable toLowerCase JSON_stringify db
| reach_create db pages body id now out :
    reachable toLowerCase JSON_stringify db ->
    JS.truthy id = true ->
    post_posts toLowerCase JSON_stringify db pages body id now = Some out ->
    reachable toLowerCase JSON_stringify (db_after out)
| reach_update db pages id body out :
    reachable toLowerCase JSON_stringify db ->
    put_posts_id toLowerCase JSON_stringify db pages id body = Some out ->
    reachable toLowerCase JSON_stringify (db_after out)
| reach_delete db pages id :
    reachable toLowerCase JSON_stringify db ->
    reachable toLowerCase JSON_stringify
      (db_after (delete_posts_id db pages id)).

(** The constraints of the [posts] table: [id] PRIMARY KEY, [slug] UNIQUE;
    and identifiers are non-empty. *)
Definition posts_wf (db : DB) : Prop :=
  NoDup (map Post.id (posts db))
  /\ NoDup (map Post.slug (posts db))
  /\ Forall (fun p => JS.truthy (Post.id p) = true) (posts db).

(** The slug step 2 of [generateUniqueSlug] starts the loop with. *)
Definition start_slug (toLowerCase : jsstring -> jsstring)
    (title : jsstring) : jsstring :=
  if JS.truthy (base_slug toLowerCase title)
  then base_slug toLowerCase title else JS.lit "post".

(** No two posts share a slug, and a re-titling whose start slug no other
    post carries is accepted and gives the post exactly that slug. *)
Definition slugs_unique_and_reusable (toLowerCase : jsstring -> jsstring)
    (JSON_stringify : list jsstring -> jsstring) (db : DB) : Prop :=
  NoDup (map Post.slug (posts db))
  /\ forall pages id body title p,
       post_by_id db id = Some p ->
       Body.title body = Some title ->
       JS.truthy title = true ->
       title <> Post.title p ->
       (forall q, q ∈ posts db -> Post.id q <> id ->
          Post.slug q <> start_slug toLowerCase title) ->
       exists out p',
         put_posts_id toLowerCase JSON_stringify db pages id body = Some out
         /\ status out = 200%nat
         /\ post_by_id (db_after out) id = Some p'
         /\ Post.slug p' = start_slug toLowerCase title
         /\ NoDup (map Post.slug (posts (db_after out))).

(** ** What the cascade claims say of an outcome *)

(** Creation: the store gained the row of the new post, the bucket was not
    touched by the handler itself, and the background generates the new
    post's page and then, when a published post with an earlier publish
    timestamp exists, the page of one with the latest such timestamp. *)
Definition creation_cascade (db : DB) (pages : R2) (id : jsstring) (now : Z)
    (out : Outcome) : Prop :=
  exists newPost row,
    Post.id newPost = id /\ Post.published_at newPost = Some now
    /\ posts (db_after out) = posts db ++ [row]
    /\ Post.id row = id /\ Post.slug row = Post.slug newPost
    /\ Post.published_at row = Some now
    /\ pages_after out = pages
    /\ (background out = [newPost]
        /\ (forall q t, q ∈ posts db -> Post.is_published q = true ->
              Post.published_at q = Some t -> now <= t)
        \/ exists prevPost t,
             background out = [newPost; prevPost]
             /\ prevPost ∈ posts db /\ Post.id prevPost <> id
             /\ Post.is_published prevPost = true
             /\ Post.published_at prevPost = Some t /\ t < now
             /\ forall q t', q ∈ posts db -> Post.is_published q = true ->
                  Post.published_at q = Some t' -> t' < now -> t' <= t).

(** ** What the comment claims say *)

(** The checks the comment handler makes before it counts recent comments:
    the IP is not blacklisted, the post exists, author and content are not
    blank, and a parent comment that is named exists. *)
Definition passes_earlier_checks (db : DB) (postId : jsstring)
    (r : Submission.t) : Prop :=
  isIpBlacklisted db (userIp r) = false
  /\ post_by_id db postId <> None
  /\ blank (Submission.author r) = false
  /\ blank (Submission.content r) = false
  /\ (JS.truthy_opt (Submission.parent_id r) = true ->
      first_where
        (fun c => bool_decide (Some (Comment.id c) = Submission.parent_id r))
        (comments db) <> None).

(** The rate limit on a submission that reaches it: with three or more
    comments of the IP in the last 60 seconds the answer is 429 and nothing
    is written; with fewer, and a fresh comment id, the answer is 201 and
    one unapproved comment stamped [now] is appended, which counts towards
    every window that reaches back before [now]; and an IP whose comments
    are all at least 60 seconds old has none in the window. *)
Definition rate_limit_rule (db : DB) (pages : R2) (postId : jsstring)
    (r : Submission.t) (commentId : jsstring) (now : Z) : Prop :=
  let out := post_comments db pages postId r commentId now in
  let recent := recentComments db (userIp r) (now - 60 * 1000) in
  ((3 <= recent)%nat -> out = mkOutcome 429 db pages [])
  /\ ((recent < 3)%nat ->
      (forall c, c ∈ comments db -> Comment.id c <> commentId) ->
      exists row,
        status out = 201%nat
        /\ db_after out = with_comments db (comments db ++ [row])
        /\ Comment.id row = commentId
        /\ Comment.post_id row = postId
        /\ Comment.ip_address row = userIp r
        /\ Comment.created_at row = now
        /\ Comment.is_approved row = 0
        /\ forall since,
             recentComments (db_after out) (userIp r) since
             = (recentComments db (userIp r) since
                + if (since <? now)%Z then 1 else 0)%nat)
  /\ ((forall c, c ∈ comments db -> Comment.ip_address c = userIp r ->
         Comment.created_at c <= now - 60 * 1000) ->
      recent = O).


(** ** Further handlers of [index copy.ts] *)

Definition with_settings (db : DB) (st : gmap jsstring jsstring) : DB :=
  mkDB (posts db) (comments db) st (post_views db) (ip_blacklist db).

Definition with_post_views (db : DB) (pv : gmap jsstring N) : DB :=
  mkDB (posts db) (comments db) (settings db) pv (ip_blacklist db).

(** [app.get('/blog/:slug')] (lines 1575-1587): the stored page, or 404
    when the bucket holds nothing under the slug. *)
Definition get_blog_slug (pages : R2) (slug : jsstring)
    : nat * option jsstring :=
  match pages !! slug with
  | Some body => (200%nat, Some body)
  | None => (404%nat, None)
  end.

(** *** Comment moderation (lines 2279-2316) *)

(** [SELECT post_id FROM comments WHERE id = ?]. *)
Definition comment_by_id (db : DB) (i : jsstring) : option Comment.t :=
  first_where (fun c => bool_decide (Comment.id c = i)) (comments db).

Definition set_is_approved (v : Z) (c : Comment.t) : Comment.t :=
  Comment.mk (Comment.id c) (Comment.post_id c) (Comment.author c)
    (Comment.email c) (Comment.content c) (Comment.ip_address c)
    (Comment.created_at c) v (Comment.parent_id c) (Comment.reply_to c).

(** The task both moderation handlers schedule: the owning post is read
    back and, when it is there, its page generated. *)
Definition owner_page (db : DB) (post : jsstring) : list Post.t :=
  match post_by_id db post with
  | Some p => [p]
  | None => []
  end.

(** [api.put('/comments/:id')]: [UPDATE comments SET is_approved = ? WHERE
    id = ?]. *)
Definition put_comments_id (db : DB) (pages : R2) (id : jsstring)
    (is_approved : Z) : Outcome :=
  match comment_by_id db id with
  | None => mkOutcome 404 db pages []
  | Some comment =>
      let db' :=
        with_comments db
          (map (fun c => if bool_decide (Comment.id c = id)
                         then set_is_approved is_approved c else c)
             (comments db)) in
      mkOutcome 200 db' pages (owner_page db' (Comment.post_id comment))
  end.

(** [api.delete('/comments/:id')]: [DELETE FROM comments WHERE id = ?]. *)
Definition delete_comments_id (db : DB) (pages : R2) (id : jsstring)
    : Outcome :=
  match comment_by_id db id with
  | None => mkOutcome 404 db pages []
  | Some comment =>
      let db' :=
        with_comments db
          (List.filter (fun c => negb (bool_decide (Comment.id c = id)))
             (comments db)) in
      mkOutcome 200 db' pages (owner_page db' (Comment.post_id comment))
  end.

(** *** View counter (lines 2492-2512)

    [INSERT INTO post_views ... VALUES (?, 1, ?) ON CONFLICT(post_id) DO
    UPDATE SET view_count = view_count + 1]. The column [last_viewed_at] is
    not part of [DB]; no handler reads it. *)
Definition get_posts_views (db : DB) (pages : R2) (postId : jsstring)
    : Outcome :=
  match post_by_id db postId with
  | None => mkOutcome 404 db pages []
  | Some _ =>
      let count :=
        match post_views db !! postId with
        | Some v => (v + 1)%N
        | None => 1%N
        end in
      mkOutcome 200 (with_post_views db (<[postId := count]> (post_views db)))
        pages []
  end.

(** *** Settings (lines 1928-1946)

    [api.put('/settings')] runs one [UPDATE settings SET value = ? WHERE
    key = ?] per entry of the body, in the order of [Object.entries]; a
    key without a row matches nothing. The batch is taken not to throw. *)
Definition update_setting (st : gmap jsstring jsstring)
    (entry : jsstring * jsstring) : gmap jsstring jsstring :=
  match st !! entry.1 with
  | Some _ => <[entry.1 := entry.2]> st
  | None => st
  end.

Definition put_settings (db : DB) (pages : R2)
    (body : list (jsstring * jsstring)) : Outcome :=
  mkOutcome 200 (with_settings db (fold_left update_setting body (settings db)))
    pages [].

(** [api.get('/settings')]: the rows folded into one object. *)
Definition get_settings (db : DB) : gmap jsstring jsstring := settings db.

(** *** Categories (lines 1848-1858) *)

Definition set_category (c : option jsstring) (p : Post.t) : Post.t :=
  Post.mk (Post.id p) (Post.title p) (Post.slug p) (Post.content p) c
    (Post.tags p) (Post.feature_image p) (Post.published_at p)
    (Post.is_published p) (Post.is_draft p) (Post.is_pinned p).

(** [UPDATE posts SET category = ? WHERE category = ?]. *)
Definition recategorise (db : DB) (from to : jsstring) : DB :=
  with_posts db
    (map (fun p => if bool_decide (Post.category p = Some from)
                   then set_category (Some to) p else p)
       (posts db)).

(** [api.put('/categories/rename')]. *)
Definition put_categories_rename (db : DB) (pages : R2)
    (oldName newName : option jsstring) : Outcome :=
  if negb (JS.truthy_opt oldName) || negb (JS.truthy_opt newName)
  then mkOutcome 400 db pages []
  else mkOutcome 200
         (recategorise db (default [] oldName) (default [] newName)) pages [].

(** [api.delete('/categories/:name')]: the category is blanked. *)
Definition delete_categories_name (db : DB) (pages : R2) (name : jsstring)
    : Outcome :=
  mkOutcome 200 (recategorise db name []) pages [].

(** *** [escapeXml] (lines 1288-1294 and 1399-1405) *)

(** [s.replace(/c/g, by)] for a one-unit pattern. *)
Definition replace_unit (c : N) (by_ : jsstring) (s : jsstring) : jsstring :=
  flat_map (fun x => if (x =? c)%N then by_ else [x]) s.

Definition escapeXml (str : jsstring) : jsstring :=
  replace_unit 39 (JS.lit "&apos;")
    (replace_unit 34 (JS.lit "&quot;")
       (replace_unit 62 (JS.lit "&gt;")
          (replace_unit 60 (JS.lit "&lt;")
             (replace_unit 38 (JS.lit "&amp;") str)))).

(** The five replacements of [escapeXml] made in one pass over the units. *)
Definition escape_unit (c : N) : jsstring :=
  if (c =? 38)%N then JS.lit "&amp;"
  else if (c =? 60)%N then JS.lit "&lt;"
  else if (c =? 62)%N then JS.lit "&gt;"
  else if (c =? 34)%N then JS.lit "&quot;"
  else if (c =? 39)%N then JS.lit "&apos;"
  else [c].

(** *** [BasicAuth] (lines 1227-1258) *)

(** [s.split(sep)] for a one-unit separator: the pieces between the
    separators, the empty ones included. *)
Fixpoint split_on (sep : N) (s : jsstring) : list jsstring :=
  match s with
  | [] => [[]]
  | c :: s' =>
      if (c =? sep)%N then [] :: split_on sep s'
      else match split_on sep s' with
           | x :: xs => (c :: x) :: xs
           | [] => [[c]]
           end
  end.

(** The middleware either hands the request on ([next()]) or answers it. *)
Inductive AuthResult :=
| Next
| Refused (status : nat).

Section Auth.

(** [atob]; [None] when it throws on input that is not base64. *)
Variable atob : jsstring -> option jsstring.

(** [authorization] is the header, [ADMIN_USERNAME] and [ADMIN_PASSWORD]
    the two secrets, [None] where unset. The destructurings
    [[scheme, encoded]] and [[username, password]] take the first two
    pieces; a missing piece is [undefined]. *)
Definition BasicAuth (method : jsstring) (authorization : option jsstring)
    (ADMIN_USERNAME ADMIN_PASSWORD : option jsstring) : AuthResult :=
  if bool_decide (method = JS.lit "OPTIONS") then Next
  else if negb (JS.truthy_opt authorization) then Refused 401
  else
    let parts := split_on 32 (default [] authorization) in
    let scheme := parts !! O in
    let encoded := parts !! 1%nat in
    if negb (bool_decide (scheme = Some (JS.lit "Basic")))
       || negb (JS.truthy_opt encoded)
    then Refused 400
    else
      match atob (default [] encoded) with
      | None => Refused 400
      | Some decoded =>
          let fields := split_on 58 decoded in
          let username := fields !! O in
          let password := fields !! 1%nat in
          if bool_decide (username = ADMIN_USERNAME)
             && bool_decide (password = ADMIN_PASSWORD)
          then Next
          else Refused 401
      end.

End Auth.

(** *** Post listing of the admin API (lines 1985-2027) *)

(** Does [p] come before [q] under [ORDER BY is_pinned DESC, published_at
    DESC]? *)
Definition listed_before (p q : Post.t) : bool :=
  (Post.is_pinned q <? Post.is_pinned p)
  || (Post.is_pinned p =? Post.is_pinned q)
     && stamp_lt (Post.published_at q) (Post.published_at p).

Fixpoint insert_listed (p : Post.t) (sorted : list Post.t) : list Post.t :=
  match sorted with
  | [] => [p]
  | q :: rest =>
      if listed_before p q then p :: sorted else q :: insert_listed p rest
  end.

(** Rows that compare equal keep their table order. *)
Definition order_listed (rows : list Post.t) : list Post.t :=
  fold_right insert_listed [] (rev rows).

(** [LIMIT ? OFFSET ?] of SQLite: a negative offset counts as zero, a
    negative limit as no limit. *)
Definition limit_offset {A} (limit offset : Z) (rows : list A) : list A :=
  let skipped := drop (Z.to_nat offset) rows in
  if limit <? 0 then skipped else take (Z.to_nat limit) skipped.

(** [Math.ceil(total / pageSize)]; [None] when the quotient is not a finite
    number ([pageSize] is 0). *)
Definition ceil_div (total pageSize : Z) : option Z :=
  if 0 <? pageSize then Some ((total + pageSize - 1) / pageSize)
  else if pageSize =? 0 then None
  else Some (- (total / (- pageSize))).

Inductive Listing :=
| Plain (rows : list Post.t)
| Paged (data : list Post.t) (page pageSize total : Z) (totalPages : option Z).

(** [api.get('/posts')]. A parameter is [None] when it is absent and
    [Some n] when it is present and [parseInt] reads the integer [n] from
    it; only such requests are covered. A row of the result stands for the
    post it is read from: the query selects every column of it but
    [content] and [feature_image]. *)
Definition get_posts (db : DB) (pageParam pageSizeParam : option Z)
    : Listing :=
  match pageParam, pageSizeParam with
  | None, None => Plain (order_listed (posts db))
  | _, _ =>
      let page := default 1 pageParam in
      let pageSize := default 20 pageSizeParam in
      let offset := (page - 1) * pageSize in
      let total := Z.of_nat (length (posts db)) in
      Paged (limit_offset pageSize offset (order_listed (posts db)))
        page pageSize total (ceil_div total pageSize)
  end.

Definition listing_rows (l : Listing) : list Post.t :=
  match l with
  | Plain rows => rows
  | Paged data _ _ _ _ => data
  end.

Definition listing_totalPages (l : Listing) : option Z :=
  match l with
  | Plain _ => None
  | Paged _ _ _ _ totalPages => totalPages
  end.

(** *** Public listings

    The rows of [WHERE is_published = 1 AND is_draft = 0], the condition of
    the sitemap (line 1280), the feed (line 1393), the archive (line 1452)
    and the home page (lines 1548-1550). *)
Definition public_posts (db : DB) : list Post.t :=
  List.filter (fun p => Post.is_published p && (Post.is_draft p =? 0))
    (posts db).

Definition default_site_url : jsstring := JS.lit "https://blog.otwx.top".

(** The [loc] values of the array [urls] of the sitemap (lines 1278-1312),
    the site root first. *)
Definition sitemap_locs (db : DB) : list jsstring :=
  let baseUrl := JS.or_else (settings db !! JS.lit "site_url") default_site_url in
  escapeXml (baseUrl ++ JS.lit "/")
  :: map (fun post => escapeXml (baseUrl ++ JS.lit "/blog/" ++ Post.slug post))
       (public_posts db).

(** The queries of the home page (lines 1542-1563) for a [page] parameter
    that is absent ([None]) or read by [parseInt] as an integer: the rows
    handed to [renderHomePage] and [totalPages]. A row stands for the post
    it is read from: the query selects its columns [slug], [title],
    [content], [category], [tags] and [published_at]. *)
Definition get_home (db : DB) (pageParam : option Z) : list Post.t * Z :=
  let page := default 1 pageParam in
  let pageSize := 5 in
  let offset := (page - 1) * pageSize in
  let total := Z.of_nat (length (public_posts db)) in
  (limit_offset pageSize offset (order_listed (public_posts db)),
   (total + pageSize - 1) / pageSize).

(** ** The write requests of the API

    One constructor per handler that changes the store or schedules a
    task; [serve] dispatches as the router does. *)
Inductive Request :=
| CreatePost (body : Body.t) (id : jsstring) (now : Z)
| UpdatePost (id : jsstring) (body : Body.t)
| DeletePost (id : jsstring)
| RebuildAll
| SubmitComment (postId : jsstring) (r : Submission.t) (commentId : jsstring)
    (now : Z)
| ModerateComment (id : jsstring) (is_approved : Z)
| DeleteComment (id : jsstring)
| RenameCategory (oldName newName : option jsstring)
| DeleteCategory (name : jsstring)
| PutSettings (body : list (jsstring * jsstring))
| CountView (postId : jsstring).

Definition serve (toLowerCase : jsstring -> jsstring)
    (JSON_stringify : list jsstring -> jsstring) (db : DB) (pages : R2)
    (req : Request) : option Outcome :=
  match req with
  | CreatePost body id now =>
      post_posts toLowerCase JSON_stringify db pages body id now
  | UpdatePost id body => put_posts_id toLowerCase JSON_stringify db pages id body
  | DeletePost id => Some (delete_posts_id db pages id)
  | RebuildAll => Some (post_rebuild_all db pages)
  | SubmitComment postId r commentId now =>
      Some (post_comments db pages postId r commentId now)
  | ModerateComment id is_approved =>
      Some (put_comments_id db pages id is_approved)
  | DeleteComment id => Some (delete_comments_id db pages id)
  | RenameCategory oldName newName =>
      Some (put_categories_rename db pages oldName newName)
  | DeleteCategory name => Some (delete_categories_name db pages name)
  | PutSettings body => Some (put_settings db pages body)
  | CountView postId => Some (get_posts_views db pages postId)
  end.

(** [crypto.randomUUID()] never yields the empty string. *)
Definition fresh_ids (req : Request) : Prop :=
  match req with
  | CreatePost _ id _ => JS.truthy id = true
  | _ => True
  end.

(** The constraints of [init.sql] on the tables of [DB]: those of [posts];
    [comments.id] PRIMARY KEY; the foreign keys of [comments.post_id] and
    [post_views.post_id]. *)
Definition store_wf (db : DB) : Prop :=
  posts_wf db
  /\ NoDup (map Comment.id (comments db))
  /\ (forall c, c ∈ comments db -> Comment.post_id c ∈ map Post.id (posts db))
  /\ (forall k, is_Some (post_views db !! k) -> k ∈ map Post.id (posts db)).

(** ** Sample data for the examples

    Stand-ins for the externals: ASCII lower-casing (with which
    [toLowerCase] agrees on ASCII text) and [JSON.stringify] on tag lists
    free of characters that need escaping. *)

Definition ascii_lower (s : jsstring) : jsstring :=
  map (fun c => if ((65 <=? c) && (c <=? 90))%N then (c + 32)%N else c) s.

Definition stringify_tags (l : list jsstring) : jsstring :=
  [91%N] ++ JS.join [44%N] (map (fun t => 34%N :: t ++ [34%N]) l) ++ [93%N].

Definition sample_post (i : String.string) (t : Z) (published : bool)
    (draft : Z) : Post.t :=
  Post.mk (JS.lit i) (JS.lit i) (JS.lit i) [] None (JS.lit "[]") (Some banner)
    (Some t) published draft 0.

Definition sample_db (ps : list Post.t) : DB := mkDB ps [] ∅ ∅ [].

Definition sample_body (title : String.string) : Body.t :=
  Body.mk (Some (JS.lit title)) None None None None None None None None.

Definition sample_comment (i : String.string) (ip : String.string) (t : Z)
    : Comment.t :=
  Comment.mk (JS.lit i) (JS.lit "p1") (JS.lit "ann") None (JS.lit "hi")
    (JS.lit ip) t 0 None None.

Definition sample_submission (ip author : String.string) : Submission.t :=
  Submission.mk (Some (JS.lit ip)) None (Some (JS.lit author))
    (Some (JS.lit "hello")) None None None.

(** A store with one post [p1], the comments [cs] and the blacklist [bl]. *)
Definition comment_db (cs : list Comment.t) (bl : list Blacklist.t) : DB :=
  mkDB [sample_post "p1" 1000 true 0] cs ∅ ∅ bl.

(** Stand-ins for the renderer's externals: a converter that returns its
    input, dates shown as the number of their day since the epoch, 365-day
    years, no tags, and a template whose every static piece is a bar. *)
Definition plain_text (s : jsstring) : jsstring := s.

Definition day_number (t : Z) : jsstring :=
  JS.of_nat (Z.to_nat (t / 86400000)).

Definition year_number (t : Z) : nat := Z.to_nat (1970 + t / 31536000000).

Definition no_tags (_ : jsstring) : list jsstring := [].

Definition bars (_ : Fragment) : jsstring := JS.lit "|".

(** A published post whose [published_at] column is NULL. *)
Definition undated_post : Post.t :=
  Post.mk (JS.lit "p") (JS.lit "p") (JS.lit "p") [] None [] (Some banner)
    None true 0 0.

(** Three posts in time order: [a] published, [hidden] not published and
    flagged as a draft, [p] published. *)
Definition three_posts : DB :=
  sample_db [sample_post "a" 1000 true 0; sample_post "hidden" 2000 false 1;
             sample_post "p" 3000 true 0].

(** The bucket a full rebuild of [db] leaves, with the stand-in externals
    and every clock reading at instant 5000. *)
Definition rebuilt (db : DB) : R2 :=
  rebuild plain_text day_number day_number no_tags year_number bars
    (fun _ => 5000) db ∅.

(** The bucket once the task of [out] has run, same externals and clock. *)
Definition settled (out : Outcome) : R2 :=
  run_background plain_text day_number day_number no_tags year_number bars
    (fun _ => 5000) out.

(** The page of [post] as a regeneration on [db] would write it. *)
Definition fresh_page (db : DB) (post : Post.t) : jsstring :=
  htmlContent plain_text day_number day_number no_tags year_number bars
    5000 db post.

(** Further sample data: an approved comment on [p1]; a store with two
    comments awaiting moderation; posts with a category; a settings table
    with the one row for [site_url]; a decoder that answers every input
    with one string. *)
Definition approved_comment : Comment.t :=
  Comment.mk (JS.lit "c1") (JS.lit "p1") (JS.lit "ann") None (JS.lit "hi")
    (JS.lit "1.2.3.4") 500 1 None None.

Definition moderated_db : DB :=
  comment_db [sample_comment "c1" "1.2.3.4" 500;
              sample_comment "c2" "1.2.3.4" 600] [].

Definition categorised (c i : String.string) : Post.t :=
  Post.mk (JS.lit i) (JS.lit i) (JS.lit i) [] (Some (JS.lit c))
    (JS.lit "[]") (Some banner) (Some 1000) true 0 0.

Definition two_categories : DB :=
  sample_db [categorised "tech" "a"; categorised "news" "b"].

Definition settings_db : DB :=
  mkDB [] [] {[ JS.lit "site_url" := default_site_url ]} ∅ [].

Definition settings_body : list (jsstring * jsstring) :=
  [(JS.lit "site_url", JS.lit "https://example.org");
   (JS.lit "blog_title", JS.lit "My blog")].

(** A reply to comment [c1] whose body names zed as the one replied to. *)
Definition sample_reply : Submission.t :=
  Submission.mk (Some (JS.lit "5.6.7.8")) None (Some (JS.lit " bob "))
    (Some (JS.lit "hello")) (Some (JS.lit " ")) (Some (JS.lit "c1"))
    (Some (JS.lit "zed")).

Definition decodes_to (s : String.string) (_ : jsstring) : option jsstring :=
  Some (JS.lit s).

(** * Properties *)

(** ** Decimal rendering *)

Lemma uint_units_inj (d e : Decimal.uint) :
  JS.uint_units d = JS.uint_units e -> d = e.
Proof.
  revert e; induction d; destruct e; simpl; intros H;
    try discriminate; try reflexivity;
    injection H as H; f_equal; auto.
Qed.

Lemma of_nat_inj (m n : nat) : JS.of_nat m = JS.of_nat n -> m = n.
Proof.
  intros H. apply Unsigned.to_uint_inj. now apply uint_units_inj.
Qed.

(** ** The slug loop *)

Section SlugLoop.

Variable db : DB.
Variable excludeId : option jsstring.
Variable baseSlug : jsstring.

Local Abbreviation candidate := (candidate baseSlug).

Lemma candidate_inj (j k : nat) : candidate j = candidate k -> j = k.
Proof.
  destruct j as [|j], k as [|k]; simpl; intros H; try reflexivity.
  - apply (f_equal length) in H. rewrite length_app in H. simpl in H. lia.
  - apply (f_equal length) in H. rewrite length_app in H. simpl in H. lia.
  - apply app_inv_head in H. injection H as H. now apply of_nat_inj.
Qed.

Lemma slug_loop_break (fuel k : nat) (r : jsstring) :
  slug_loop fuel db excludeId baseSlug (candidate k) (S k) = Some r ->
  exists j, (k <= j < k + fuel)%nat /\ r = candidate j
            /\ slug_taken db r excludeId = false
            /\ forall i, (k <= i < j)%nat ->
                 slug_taken db (candidate i) excludeId = true.
Proof.
  revert k. induction fuel as [|fuel IH]; intros k; simpl; [discriminate|].
  destruct (slug_taken db (candidate k) excludeId) eqn:Hk.
  - intros H. apply (IH (S k)) in H as (j & Hj & -> & Hfree & Hbusy).
    exists j. split; [lia|]. repeat split; try assumption.
    intros i Hi. destruct (decide (i = k)) as [->|]; [assumption|].
    apply Hbusy. lia.
  - intros [= <-]. exists k. repeat split; try assumption; intros; lia.
Qed.

Lemma slug_loop_exhausted (fuel k : nat) :
  slug_loop fuel db excludeId baseSlug (candidate k) (S k) = None ->
  forall i, (k <= i < k + fuel)%nat ->
    slug_taken db (candidate i) excludeId = true.
Proof.
  revert k. induction fuel as [|fuel IH]; intros k; simpl.
  - intros _ i Hi. lia.
  - destruct (slug_taken db (candidate k) excludeId) eqn:Hk; [|discriminate].
    intros H i Hi. destruct (decide (i = k)) as [->|]; [assumption|].
    apply (IH (S k) H). lia.
Qed.

Lemma slug_taken_elem (s : jsstring) :
  slug_taken db s excludeId = true -> s ∈ map Post.slug (posts db).
Proof.
  unfold slug_taken. rewrite existsb_exists.
  intros (p & Hp & Hs). apply andb_prop in Hs as [Hs _].
  apply bool_decide_eq_true in Hs. subst s.
  apply list_elem_of_In, in_map, Hp.
Qed.

(** Pigeonhole: [S (length posts)] distinct candidates cannot all be slugs
    of stored posts. *)
Lemma slug_loop_returns (fuel : nat) :
  (slug_fuel db <= fuel)%nat ->
  exists r, slug_loop fuel db excludeId baseSlug (candidate 0) 1 = Some r.
Proof.
  intros Hfuel.
  destruct (slug_loop fuel db excludeId baseSlug (candidate 0) 1) as [r|] eqn:H;
    [now exists r|exfalso].
  pose proof (slug_loop_exhausted _ _ H) as Hall.
  set (cs := map candidate (seq 0 fuel)).
  assert (Hnd : List.NoDup cs).
  { apply Finite.Injective_map_NoDup; [|apply seq_NoDup].
    intros i j. apply candidate_inj. }
  assert (Hincl : incl cs (map Post.slug (posts db))).
  { intros s Hs. apply in_map_iff in Hs as (i & <- & Hi).
    apply in_seq in Hi. apply list_elem_of_In, slug_taken_elem, Hall. lia. }
  pose proof (NoDup_incl_length Hnd Hincl) as Hlen.
  unfold cs in Hlen. rewrite !length_map, length_seq in Hlen.
  unfold slug_fuel in Hfuel. lia.
Qed.


Lemma slug_free_other (s : jsstring) (p : Post.t) :
  slug_taken db s excludeId = false ->
  p ∈ posts db -> Some (Post.id p) <> excludeId -> Post.slug p <> s.
Proof.
  intros Hfree Hp Hid Hs.
  assert (slug_taken db s excludeId = true) as Hc; [|congruence].
  unfold slug_taken. apply existsb_exists. exists p.
  split; [now apply list_elem_of_In|].
  rewrite (bool_decide_eq_true_2 _ Hs). simpl.
  destruct (JS.truthy_opt excludeId); [|reflexivity].
  now rewrite (bool_decide_eq_false_2 _ Hid).
Qed.

End SlugLoop.

(** ** The base slug *)









Section BaseSlug.

Variable toLowerCase : jsstring -> jsstring.



End BaseSlug.

(** ** The code's string steps against their description *)




Section RunsDescribed.

Variable p : N -> bool.
Variable P : N -> Prop.
Hypothesis p_spec : forall c, p c = true <-> P c.






End RunsDescribed.







Section BaseSlugDescribed.

Variable toLowerCase : jsstring -> jsstring.



End BaseSlugDescribed.

(** ** The suffix against its description *)





(** ** C6: [generateUniqueSlug] *)


(** ** The neighbour queries *)

Lemma stamp_lt_chain (a b c : option Z) :
  stamp_lt a b = true -> stamp_lt c b = false -> stamp_lt c a = false.
Proof.
  destruct a, b, c; simpl; intros; try discriminate; try reflexivity; lia.
Qed.

Lemma stamp_lt_irrefl (a : option Z) : stamp_lt a a = false.
Proof. destruct a; simpl; [lia|reflexivity]. Qed.

Lemma stamp_le_trans (a b c : option Z) :
  stamp_lt b a = false -> stamp_lt c b = false -> stamp_lt c a = false.
Proof.
  destruct a, b, c; simpl; intros; try discriminate; try reflexivity; lia.
Qed.

(** The row [ORDER BY published_at DESC LIMIT 1] yields is a row of its
    input and no row of the input has a later timestamp; no row is yielded
    only when there is none. *)
Lemma order_desc_limit_1_spec (rows : list Post.t) :
  match order_desc_limit_1 rows with
  | Some m =>
      m ∈ rows
      /\ forall x, x ∈ rows ->
           stamp_lt (Post.published_at m) (Post.published_at x) = false
  | None => rows = []
  end.
Proof.
  unfold order_desc_limit_1.
  set (step := fun (acc : option Post.t) (p : Post.t) => _).
  assert (G : forall acc,
    match fold_left step rows acc with
    | Some m =>
        (acc = Some m \/ m ∈ rows)
        /\ (forall q, acc = Some q ->
              stamp_lt (Post.published_at m) (Post.published_at q) = false)
        /\ forall x, x ∈ rows ->
             stamp_lt (Post.published_at m) (Post.published_at x) = false
    | None => acc = None /\ rows = []
    end).
  { induction rows as [|p rows IH]; intros acc; simpl.
    - destruct acc as [q|]; [|auto].
      split; [auto|]. split; [|intros x Hx; inversion Hx].
      intros ? [= <-]. apply stamp_lt_irrefl.
    - specialize (IH (step acc p)).
      destruct (fold_left step rows (step acc p)) as [m|];
        [|destruct IH as [IH _]; destruct acc; simpl in IH;
          [destruct (stamp_lt _ _)|]; discriminate].
      destruct IH as (Hin & Hacc & Hrows).
      destruct acc as [q|]; simpl in Hin, Hacc.
      + destruct (stamp_lt (Post.published_at q) (Post.published_at p)) eqn:Hqp.
        * split; [right; destruct Hin as [[= <-]|Hin];
                  [left|right; assumption]|].
          split.
          { intros ? [= <-]. eapply stamp_lt_chain; [exact Hqp|].
            now apply Hacc. }
          intros x Hx. apply elem_of_cons in Hx as [->|Hx]; auto.
        * split; [destruct Hin as [Hin|Hin]; [left; assumption|
                  right; right; assumption]|].
          split; [assumption|].
          intros x Hx. apply elem_of_cons in Hx as [->|Hx]; auto.
          eapply stamp_le_trans; [exact Hqp|]. now apply Hacc.
      + split; [right; destruct Hin as [[= <-]|Hin];
                [left|right; assumption]|].
        split; [discriminate|].
        intros x Hx. apply elem_of_cons in Hx as [->|Hx]; auto. }
  specialize (G None). destruct (fold_left step rows None) as [m|].
  - destruct G as ([Hin|Hin] & _ & Hrows); [discriminate|]. auto.
  - apply G.
Qed.

Lemma order_asc_limit_1_spec (rows : list Post.t) :
  match order_asc_limit_1 rows with
  | Some m =>
      m ∈ rows
      /\ forall x, x ∈ rows ->
           stamp_lt (Post.published_at x) (Post.published_at m) = false
  | None => rows = []
  end.
Proof.
  unfold order_asc_limit_1.
  set (step := fun (acc : option Post.t) (p : Post.t) => _).
  assert (G : forall acc,
    match fold_left step rows acc with
    | Some m =>
        (acc = Some m \/ m ∈ rows)
        /\ (forall q, acc = Some q ->
              stamp_lt (Post.published_at q) (Post.published_at m) = false)
        /\ forall x, x ∈ rows ->
             stamp_lt (Post.published_at x) (Post.published_at m) = false
    | None => acc = None /\ rows = []
    end).
  { induction rows as [|p rows IH]; intros acc; simpl.
    - destruct acc as [q|]; [|auto].
      split; [auto|]. split; [|intros x Hx; inversion Hx].
      intros ? [= <-]. apply stamp_lt_irrefl.
    - specialize (IH (step acc p)).
      destruct (fold_left step rows (step acc p)) as [m|];
        [|destruct IH as [IH _]; destruct acc; simpl in IH;
          [destruct (stamp_lt _ _)|]; discriminate].
      destruct IH as (Hin & Hacc & Hrows).
      destruct acc as [q|]; simpl in Hin, Hacc.
      + destruct (stamp_lt (Post.published_at p) (Post.published_at q)) eqn:Hpq.
        * split; [right; destruct Hin as [[= <-]|Hin];
                  [left|right; assumption]|].
          split.
          { intros ? [= <-]. specialize (Hacc p eq_refl).
            revert Hpq Hacc. clear.
            destruct (Post.published_at p), (Post.published_at q),
              (Post.published_at m); simpl; intros;
              try discriminate; try reflexivity; lia. }
          intros x Hx. apply elem_of_cons in Hx as [->|Hx]; auto.
        * split; [destruct Hin as [Hin|Hin]; [left; assumption|
                  right; right; assumption]|].
          split; [assumption|].
          intros x Hx. apply elem_of_cons in Hx as [->|Hx]; auto.
          specialize (Hacc q eq_refl). revert Hpq Hacc. clear.
          destruct (Post.published_at p), (Post.published_at q),
            (Post.published_at m); simpl; intros;
            try discriminate; try reflexivity; lia.
      + split; [right; destruct Hin as [[= <-]|Hin];
                [left|right; assumption]|].
        split; [discriminate|].
        intros x Hx. apply elem_of_cons in Hx as [->|Hx]; auto. }
  specialize (G None). destruct (fold_left step rows None) as [m|].
  - destruct G as ([Hin|Hin] & _ & Hrows); [discriminate|]. auto.
  - apply G.
Qed.

Lemma desc_filter_spec (f : Post.t -> bool) (rows : list Post.t) :
  match order_desc_limit_1 (List.filter f rows) with
  | Some m =>
      m ∈ rows /\ f m = true
      /\ forall x, x ∈ rows -> f x = true ->
           stamp_lt (Post.published_at m) (Post.published_at x) = false
  | None => forall x, x ∈ rows -> f x = false
  end.
Proof.
  pose proof (order_desc_limit_1_spec (List.filter f rows)) as H.
  destruct (order_desc_limit_1 (List.filter f rows)) as [m|].
  - destruct H as [Hm Hmax]. apply list_elem_of_In, filter_In in Hm as [Hm Hf].
    split; [now apply list_elem_of_In|]. split; [assumption|].
    intros x Hx Hfx. apply Hmax, list_elem_of_In, filter_In.
    split; [now apply list_elem_of_In|assumption].
  - intros x Hx. destruct (f x) eqn:Hfx; [|reflexivity].
    assert (In x (List.filter f rows)) as Hin
      by (apply filter_In; split; [now apply list_elem_of_In|assumption]).
    rewrite H in Hin. destruct Hin.
Qed.

Lemma asc_filter_spec (f : Post.t -> bool) (rows : list Post.t) :
  match order_asc_limit_1 (List.filter f rows) with
  | Some m =>
      m ∈ rows /\ f m = true
      /\ forall x, x ∈ rows -> f x = true ->
           stamp_lt (Post.published_at x) (Post.published_at m) = false
  | None => forall x, x ∈ rows -> f x = false
  end.
Proof.
  pose proof (order_asc_limit_1_spec (List.filter f rows)) as H.
  destruct (order_asc_limit_1 (List.filter f rows)) as [m|].
  - destruct H as [Hm Hmax]. apply list_elem_of_In, filter_In in Hm as [Hm Hf].
    split; [now apply list_elem_of_In|]. split; [assumption|].
    intros x Hx Hfx. apply Hmax, list_elem_of_In, filter_In.
    split; [now apply list_elem_of_In|assumption].
  - intros x Hx. destruct (f x) eqn:Hfx; [|reflexivity].
    assert (In x (List.filter f rows)) as Hin
      by (apply filter_In; split; [now apply list_elem_of_In|assumption]).
    rewrite H in Hin. destruct Hin.
Qed.

Lemma published_before_Some (t : option Z) (p : Post.t) :
  published_before t p = true <->
  exists a b, Post.published_at p = Some a /\ t = Some b /\ a < b.
Proof.
  unfold published_before. destruct (Post.published_at p) as [a|], t as [b|];
    split; try discriminate.
  - intros H. exists a, b. repeat split. lia.
  - intros (a' & b' & [= <-] & [= <-] & H). lia.
  - intros (a' & b' & _ & [=] & _).
  - intros (a' & b' & [=] & _).
  - intros (a' & b' & [=] & _).
Qed.

Lemma published_after_Some (t : option Z) (p : Post.t) :
  published_after t p = true <->
  exists a b, Post.published_at p = Some a /\ t = Some b /\ b < a.
Proof.
  unfold published_after. destruct (Post.published_at p) as [a|], t as [b|];
    split; try discriminate.
  - intros H. exists a, b. repeat split. lia.
  - intros (a' & b' & [= <-] & [= <-] & H). lia.
  - intros (a' & b' & _ & [=] & _).
  - intros (a' & b' & [=] & _).
  - intros (a' & b' & [=] & _).
Qed.

(** ** C4: the cascade of post creation *)

(** C4. A [POST /api/posts] answered with 201 appends the new post [P] to
    the store and hands to the background exactly these page generations:
    [P]'s own page and, when a published post with a publish timestamp
    before [P]'s exists, the page of one with the latest such timestamp;
    no other page is generated. *)
Theorem post_posts_cascade (toLowerCase : jsstring -> jsstring)
    (JSON_stringify : list jsstring -> jsstring) (db : DB) (pages : R2)
    (body : Body.t) (id : jsstring) (now : Z) (out : Outcome) :
  post_posts toLowerCase JSON_stringify db pages body id now = Some out ->
  status out = 201%nat ->
  creation_cascade db pages id now out.
Proof.
  intros H Hst. unfold creation_cascade, post_posts in H |- *.
  destruct (negb (JS.truthy_opt (Body.title body)));
    [injection H as <-; discriminate|].
  destruct (generateUniqueSlug _ _ _ _ _) as [slug0|]; [|discriminate].
  cbv zeta in H.
  set (slug := if JS.truthy slug0 then slug0 else id) in *.
  match type of H with
  | match insert_post db ?r with _ => _ end = _ => set (row := r) in *
  end.
  unfold insert_post in H.
  destruct (existsb _ (posts db)) eqn:Hfresh; injection H as <-;
    [discriminate|]. clear Hst.
  assert (Hids : forall p, p ∈ posts db -> Post.id p <> id).
  { intros p Hp Hid.
    assert (existsb
      (fun p => bool_decide (Post.id p = Post.id row)
                || bool_decide (Post.slug p = Post.slug row)) (posts db) = true)
      as Hc; [|congruence].
    apply existsb_exists. exists p. split; [now apply list_elem_of_In|].
    apply orb_true_iff. left. now apply bool_decide_eq_true. }
  simpl.
  match goal with
  | |- context [?np :: match prev_published ?d ?t with _ => _ end] =>
      exists np, row; set (db' := d)
  end.
  repeat (split; [reflexivity|]).
  unfold prev_published.
  pose proof (desc_filter_spec
    (fun p => Post.is_published p && published_before (Some now) p)
    (posts db')) as Hq.
  destruct (order_desc_limit_1 _) as [m|].
  - right. destruct Hq as (Hm & Hf & Hmax).
    apply andb_prop in Hf as [Hpub Hbefore].
    apply published_before_Some in Hbefore as (a & b & Ha & [= <-] & Hab).
    assert (Hm' : m ∈ posts db).
    { simpl in Hm. apply elem_of_app in Hm as [Hm|Hm]; [assumption|].
      apply list_elem_of_singleton in Hm. subst m. simpl in Ha.
      injection Ha as <-. lia. }
    exists m, a. repeat split; auto.
    intros q t' Hqin Hqpub Hqt Hlt.
    assert (stamp_lt (Post.published_at m) (Post.published_at q) = false) as Hle.
    { apply Hmax; [simpl; apply elem_of_app; now left|].
      rewrite Hqpub. simpl. apply published_before_Some.
      exists t', now. auto. }
    rewrite Ha, Hqt in Hle. simpl in Hle. lia.
  - left. split; [reflexivity|].
    intros q t Hqin Hqpub Hqt.
    assert (Post.is_published q && published_before (Some now) q = false) as Hf
      by (apply Hq; simpl; apply elem_of_app; now left).
    rewrite Hqpub in Hf. simpl in Hf. unfold published_before in Hf.
    rewrite Hqt in Hf. lia.
Qed.

Lemma post_posts_cascade_witness :
  exists out,
    post_posts ascii_lower stringify_tags
      (sample_db [sample_post "hello" 1000 true 0]) ∅
      (sample_body "World") (JS.lit "id-2") 2000 = Some out
    /\ status out = 201%nat
    /\ creation_cascade (sample_db [sample_post "hello" 1000 true 0]) ∅
         (JS.lit "id-2") 2000 out.
Proof.
  eexists. split; [reflexivity|]. split; [reflexivity|].
  apply (post_posts_cascade ascii_lower stringify_tags
           (sample_db [sample_post "hello" 1000 true 0]) ∅
           (sample_body "World") (JS.lit "id-2") 2000);
    reflexivity.
Defined.

(** ** C5: slugs stay unique *)

Lemma NoDup_map_inj {A B} (h : A -> B) (l : list A) (x y : A) :
  NoDup (map h l) -> x ∈ l -> y ∈ l -> h x = h y -> x = y.
Proof.
  induction l as [|a l IH]; simpl; intros Hnd Hx Hy Hxy.
  - inversion Hx.
  - apply NoDup_cons in Hnd as [Ha Hnd].
    apply elem_of_cons in Hx as [->|Hx], Hy as [->|Hy]; auto.
    + destruct Ha. rewrite Hxy. apply list_elem_of_In, in_map.
      now apply list_elem_of_In.
    + destruct Ha. rewrite <- Hxy. apply list_elem_of_In, in_map.
      now apply list_elem_of_In.
Qed.

Lemma NoDup_map_filter {A B} (h : A -> B) (g : A -> bool) (l : list A) :
  NoDup (map h l) -> NoDup (map h (List.filter g l)).
Proof.
  induction l as [|a l IH]; simpl; intros Hnd; [constructor|].
  apply NoDup_cons in Hnd as [Ha Hnd]. destruct (g a); simpl; [|auto].
  apply NoDup_cons. split; [|auto].
  intros Hin. apply Ha. apply list_elem_of_In in Hin.
  apply in_map_iff in Hin as (x & Hx & Hin). apply filter_In in Hin as [Hin _].
  apply list_elem_of_In. rewrite <- Hx. now apply in_map.
Qed.

Lemma NoDup_map_of_inj {A B} (h : A -> B) (l : list A) :
  NoDup l -> (forall x y, x ∈ l -> y ∈ l -> h x = h y -> x = y) ->
  NoDup (map h l).
Proof.
  induction l as [|a l IH]; simpl; intros Hnd Hinj; [constructor|].
  apply NoDup_cons in Hnd as [Ha Hnd]. apply NoDup_cons. split.
  - intros Hin. apply list_elem_of_In, in_map_iff in Hin as (x & Hx & Hin).
    apply list_elem_of_In in Hin.
    assert (x = a) as -> by (apply Hinj; [now right|now left|assumption]).
    contradiction.
  - apply IH; [assumption|]. intros x y Hx Hy. apply Hinj; now right.
Qed.

Lemma NoDup_of_map {A B} (h : A -> B) (l : list A) :
  NoDup (map h l) -> NoDup l.
Proof.
  induction l as [|a l IH]; simpl; intros Hnd; [constructor|].
  apply NoDup_cons in Hnd as [Ha Hnd]. apply NoDup_cons. split; [|auto].
  intros Hin. apply Ha, list_elem_of_In, in_map. now apply list_elem_of_In.
Qed.

Lemma insert_post_wf (db db' : DB) (row : Post.t) :
  posts_wf db -> JS.truthy (Post.id row) = true ->
  insert_post db row = Some db' -> posts_wf db'.
Proof.
  intros (Hid & Hslug & Hne) Hrow. unfold insert_post.
  destruct (existsb _ _) eqn:Hex; [discriminate|]. intros [= <-].
  assert (Hfresh : forall p, p ∈ posts db ->
            Post.id p <> Post.id row /\ Post.slug p <> Post.slug row).
  { intros p Hp. apply not_true_iff_false in Hex.
    split; intros Heq; apply Hex, existsb_exists; exists p;
      (split; [now apply list_elem_of_In|]); apply orb_true_iff;
      [left|right]; now apply bool_decide_eq_true. }
  unfold posts_wf. simpl. rewrite !map_app. simpl. repeat split.
  - apply NoDup_app. repeat split; [assumption| |apply NoDup_singleton].
    intros x Hx Hx'. apply list_elem_of_singleton in Hx'. subst x.
    apply list_elem_of_In, in_map_iff in Hx as (p & Hp & Hin).
    apply list_elem_of_In in Hin. now destruct (Hfresh p Hin).
  - apply NoDup_app. repeat split; [assumption| |apply NoDup_singleton].
    intros x Hx Hx'. apply list_elem_of_singleton in Hx'. subst x.
    apply list_elem_of_In, in_map_iff in Hx as (p & Hp & Hin).
    apply list_elem_of_In in Hin. now destruct (Hfresh p Hin).
  - apply Forall_app. split; [assumption|]. now constructor.
Qed.

Lemma update_post_wf (db db' : DB) (i : jsstring) (f : Post.t -> Post.t) :
  posts_wf db -> (forall p, Post.id (f p) = Post.id p) ->
  update_post db i f = Some db' -> posts_wf db'.
Proof.
  intros (Hid & Hslug & Hne) Hf. unfold update_post.
  destruct (existsb _ _) eqn:Hex; [discriminate|]. intros [= <-].
  set (g := fun p => if bool_decide (Post.id p = i) then f p else p).
  assert (Hg : forall p, Post.id (g p) = Post.id p).
  { intros p. unfold g. destruct (bool_decide _); auto. }
  assert (Hcheck : forall p q, p ∈ posts db -> q ∈ posts db ->
            Post.id p = i -> Post.id q <> i -> Post.slug q <> Post.slug (f p)).
  { intros p q Hp Hq Hpi Hqi Heq. apply not_true_iff_false in Hex.
    apply Hex, existsb_exists. exists p. split; [now apply list_elem_of_In|].
    rewrite (bool_decide_eq_true_2 _ Hpi). simpl.
    apply existsb_exists. exists q. split; [now apply list_elem_of_In|].
    rewrite (bool_decide_eq_false_2 _ Hqi), (bool_decide_eq_true_2 _ Heq).
    reflexivity. }
  unfold posts_wf. simpl. fold g. rewrite !map_map. repeat split.
  - erewrite map_ext; [exact Hid|]. intros p. apply Hg.
  - apply NoDup_map_of_inj; [now apply NoDup_of_map in Hid|].
    intros x y Hx Hy. unfold g.
    destruct (bool_decide_reflect (Post.id x = i)) as [Hxi|Hxi],
             (bool_decide_reflect (Post.id y = i)) as [Hyi|Hyi]; intros Heq.
    + apply (NoDup_map_inj Post.id (posts db)); congruence.
    + now destruct (Hcheck x y Hx Hy Hxi Hyi).
    + now destruct (Hcheck y x Hy Hx Hyi Hxi).
    + now apply (NoDup_map_inj Post.slug (posts db)).
  - apply List.Forall_forall. intros p Hp. apply in_map_iff in Hp as (q & <- & Hq).
    rewrite Hg. rewrite List.Forall_forall in Hne. now apply Hne.
Qed.

Lemma delete_post_wf (db : DB) (i : jsstring) :
  posts_wf db -> posts_wf (delete_post db i).
Proof.
  intros (Hid & Hslug & Hne). unfold posts_wf, delete_post. simpl.
  repeat split; try now apply NoDup_map_filter.
  apply List.Forall_forall. intros p Hp. apply filter_In in Hp as [Hp _].
  rewrite List.Forall_forall in Hne. now apply Hne.
Qed.

Lemma post_by_id_elem (db : DB) (i : jsstring) (p : Post.t) :
  post_by_id db i = Some p -> p ∈ posts db /\ Post.id p = i.
Proof.
  unfold post_by_id, first_where. intros H. apply find_some in H as [Hin Hid].
  split; [now apply list_elem_of_In|now apply bool_decide_eq_true in Hid].
Qed.

Lemma find_id_map (g : Post.t -> Post.t) (i : jsstring) (l : list Post.t) :
  (forall p, Post.id (g p) = Post.id p) ->
  List.find (fun p => bool_decide (Post.id p = i)) (map g l)
  = option_map g (List.find (fun p => bool_decide (Post.id p = i)) l).
Proof.
  intros Hg. induction l as [|a l IH]; simpl; [reflexivity|].
  rewrite Hg. destruct (bool_decide (Post.id a = i)); [reflexivity|exact IH].
Qed.

Section SlugInvariant.

Variable toLowerCase : jsstring -> jsstring.
Variable JSON_stringify : list jsstring -> jsstring.

Lemma post_posts_wf (db : DB) (pages : R2) (body : Body.t) (id : jsstring)
    (now : Z) (out : Outcome) :
  posts_wf db -> JS.truthy id = true ->
  post_posts toLowerCase JSON_stringify db pages body id now = Some out ->
  posts_wf (db_after out).
Proof.
  intros Hwf Hid. unfold post_posts.
  destruct (negb _); [now intros [= <-]|].
  destruct (generateUniqueSlug _ _ _ _ _) as [slug|]; [|discriminate].
  cbv zeta. destruct (insert_post db _) as [db'|] eqn:Hins;
    intros [= <-]; simpl; [|assumption].
  eapply insert_post_wf; [exact Hwf| |exact Hins]. exact Hid.
Qed.

Lemma put_posts_id_wf (db : DB) (pages : R2) (id : jsstring) (body : Body.t)
    (out : Outcome) :
  posts_wf db ->
  put_posts_id toLowerCase JSON_stringify db pages id body = Some out ->
  posts_wf (db_after out).
Proof.
  intros Hwf. unfold put_posts_id.
  destruct (post_by_id db id) as [originalPost|]; [|now intros [= <-]].
  cbv zeta.
  match goal with
  | |- match ?s with _ => _ end = _ -> _ => destruct s as [new_slug|]
  end; [|discriminate].
  destruct (update_post db id _) as [db'|] eqn:Hupd;
    intros [= <-]; simpl; [|assumption].
  eapply update_post_wf; [exact Hwf| |exact Hupd]. reflexivity.
Qed.

Lemma delete_posts_id_wf (db : DB) (pages : R2) (id : jsstring) :
  posts_wf db -> posts_wf (db_after (delete_posts_id db pages id)).
Proof.
  intros Hwf. unfold delete_posts_id.
  destruct (post_by_id db id); simpl; [|assumption].
  now apply delete_post_wf.
Qed.

Lemma reachable_wf (db : DB) :
  reachable toLowerCase JSON_stringify db -> posts_wf db.
Proof.
  induction 1 as [db Hdb| | |].
  - unfold posts_wf. rewrite Hdb. simpl. repeat split; constructor.
  - eapply post_posts_wf; eassumption.
  - eapply put_posts_id_wf; eassumption.
  - now apply delete_posts_id_wf.
Qed.

Lemma generateUniqueSlug_free (db : DB) (title id : jsstring) :
  JS.truthy id = true ->
  (forall q, q ∈ posts db -> Post.id q <> id ->
     Post.slug q <> start_slug toLowerCase title) ->
  generateUniqueSlug toLowerCase (slug_fuel db) db title (Some id)
  = Some (start_slug toLowerCase title).
Proof.
  intros Hid Hfree. unfold generateUniqueSlug, slug_fuel. fold (start_slug toLowerCase title).
  simpl.
  destruct (slug_taken db (start_slug toLowerCase title) (Some id)) eqn:Ht;
    [exfalso|reflexivity].
  unfold slug_taken in Ht. apply existsb_exists in Ht as (q & Hq & Hc).
  apply andb_prop in Hc as [Hs Hc]. apply bool_decide_eq_true in Hs.
  simpl in Hc. rewrite Hid in Hc. apply negb_true_iff in Hc.
  apply bool_decide_eq_false in Hc.
  apply (Hfree q); [now apply list_elem_of_In| |assumption]. congruence.
Qed.

Lemma retitle_to_free_slug (db : DB) (pages : R2) (id : jsstring)
    (body : Body.t) (title : jsstring) (p : Post.t) :
  posts_wf db ->
  post_by_id db id = Some p ->
  Body.title body = Some title ->
  JS.truthy title = true ->
  title <> Post.title p ->
  (forall q, q ∈ posts db -> Post.id q <> id ->
     Post.slug q <> start_slug toLowerCase title) ->
  exists out p',
    put_posts_id toLowerCase JSON_stringify db pages id body = Some out
    /\ status out = 200%nat
    /\ post_by_id (db_after out) id = Some p'
    /\ Post.slug p' = start_slug toLowerCase title
    /\ NoDup (map Post.slug (posts (db_after out))).
Proof.
  intros Hwf Hp Htitle Htruthy Hnew Hfree.
  destruct (post_by_id_elem _ _ _ Hp) as [Hin Hpid].
  assert (Hid : JS.truthy id = true).
  { destruct Hwf as (_ & _ & Hne). rewrite List.Forall_forall in Hne.
    rewrite <- Hpid. now apply Hne, list_elem_of_In. }
  unfold put_posts_id. rewrite Hp. cbv zeta. rewrite Htitle, Htruthy.
  rewrite (bool_decide_eq_false_2 _ Hnew). simpl.
  rewrite (generateUniqueSlug_free db title id Hid Hfree). simpl.
  set (f := apply_updates JSON_stringify body (Some (start_slug toLowerCase title))).
  destruct (update_post db id f) as [db'|] eqn:Hupd.
  - exists (mkOutcome 200 db' pages
              (put_background db'
                 (merge_updates JSON_stringify body
                    (Some (start_slug toLowerCase title)) p)
                 (add_post (next_any db (Post.published_at p))
                    (add_post (prev_any db (Post.published_at p)) [])))),
           (f p).
    split; [reflexivity|]. split; [reflexivity|]. simpl.
    assert (Hwf' : posts_wf db')
      by (eapply update_post_wf; [exact Hwf| |exact Hupd]; reflexivity).
    split; [|split; [reflexivity|apply Hwf']].
    unfold update_post in Hupd. destruct (existsb _ _); [discriminate|].
    injection Hupd as <-. unfold post_by_id, first_where. simpl.
    rewrite find_id_map.
    + unfold post_by_id, first_where in Hp. rewrite Hp. simpl.
      now rewrite (bool_decide_eq_true_2 _ Hpid).
    + intros q. destruct (bool_decide _); reflexivity.
  - exfalso. unfold update_post in Hupd.
    destruct (existsb _ _) eqn:Hex; [|discriminate].
    apply existsb_exists in Hex as (x & Hx & Hc).
    apply andb_prop in Hc as [_ Hc].
    apply existsb_exists in Hc as (q & Hq & Hc).
    apply andb_prop in Hc as [Hqi Hqs].
    apply negb_true_iff, bool_decide_eq_false in Hqi.
    apply bool_decide_eq_true in Hqs.
    apply (Hfree q); [now apply list_elem_of_In|assumption|exact Hqs].
Qed.

(** C5. In every store the create, update and delete handlers can reach
    from the empty [posts] table, no two posts share a slug; and re-titling
    a post to a title whose slug no other stored post carries (one that was
    never used, or was used and has been freed) is answered with 200 and
    gives the post exactly that slug. *)
Theorem slug_uniqueness (db : DB) :
  reachable toLowerCase JSON_stringify db ->
  slugs_unique_and_reusable toLowerCase JSON_stringify db.
Proof.
  intros Hreach. pose proof (reachable_wf db Hreach) as Hwf. split.
  - apply Hwf.
  - intros pages id body title p. now apply retitle_to_free_slug.
Qed.

End SlugInvariant.

(** Two posts are created, "Hello" and "World"; "Hello" is re-titled
    "Other", which frees the slug [hello]. *)
Lemma slug_uniqueness_witness :
  exists db,
    reachable ascii_lower stringify_tags db
    /\ map Post.slug (posts db) = [JS.lit "other"; JS.lit "world"]
    /\ slugs_unique_and_reusable ascii_lower stringify_tags db.
Proof.
  eexists. split; [|split].
  - eapply (reach_update _ _ _ ∅ (JS.lit "id-1") (sample_body "Other"));
      [eapply (reach_create _ _ _ ∅ (sample_body "World") (JS.lit "id-2") 2000);
       [eapply (reach_create _ _ (sample_db []) ∅ (sample_body "Hello")
                  (JS.lit "id-1") 1000);
        [apply reach_init; reflexivity|reflexivity|reflexivity]
       |reflexivity|reflexivity]
      |reflexivity].
  - reflexivity.
  - apply slug_uniqueness.
    eapply (reach_update _ _ _ ∅ (JS.lit "id-1") (sample_body "Other"));
      [eapply (reach_create _ _ _ ∅ (sample_body "World") (JS.lit "id-2") 2000);
       [eapply (reach_create _ _ (sample_db []) ∅ (sample_body "Hello")
                  (JS.lit "id-1") 1000);
        [apply reach_init; reflexivity|reflexivity|reflexivity]
       |reflexivity|reflexivity]
      |reflexivity].
Defined.

(** ** C10: the blacklist gate ignores the expiry column *)

(** C10. A comment submission from an IP that has a row in [ip_blacklist] is
    answered with 403 and writes nothing, whatever the row's [expires_at]
    holds: [isIpBlacklisted] matches on [ip_address] alone, so an entry
    whose expiry lies in the past still blocks. *)
Theorem blacklist_ignores_expiry (db : DB) (pages : R2) (postId : jsstring)
    (r : Submission.t) (commentId : jsstring) (now : Z) (b : Blacklist.t) :
  b ∈ ip_blacklist db ->
  Blacklist.ip_address b = userIp r ->
  isIpBlacklisted db (userIp r) = true
  /\ post_comments db pages postId r commentId now = mkOutcome 403 db pages [].
Proof.
  intros Hb Hip.
  assert (H : isIpBlacklisted db (userIp r) = true).
  { unfold isIpBlacklisted, first_where.
    destruct (List.find _ (ip_blacklist db)) eqn:Hfind; [reflexivity|].
    apply list_elem_of_In in Hb.
    pose proof (find_none _ _ Hfind b Hb) as Hc. simpl in Hc.
    now rewrite (bool_decide_eq_true_2 _ Hip) in Hc. }
  split; [exact H|]. unfold post_comments. cbv zeta. now rewrite H.
Qed.

(** An entry that expired at instant 5 blocks a submission made at
    instant 100000. *)
Lemma blacklist_ignores_expiry_witness :
  post_comments
    (comment_db [] [Blacklist.mk (JS.lit "b1") (JS.lit "10.0.0.1") None 1 (Some 5)])
    ∅ (JS.lit "p1") (sample_submission "10.0.0.1" "ann") (JS.lit "c1") 100000
  = mkOutcome 403
      (comment_db [] [Blacklist.mk (JS.lit "b1") (JS.lit "10.0.0.1") None 1 (Some 5)])
      ∅ [].
Proof.
  apply (blacklist_ignores_expiry _ _ _ _ _ _
           (Blacklist.mk (JS.lit "b1") (JS.lit "10.0.0.1") None 1 (Some 5))).
  - apply list_elem_of_singleton. reflexivity.
  - reflexivity.
Defined.

(** ** C8: the comment rate limit *)

Lemma filter_none_length {A} (f : A -> bool) (l : list A) :
  (forall x, x ∈ l -> f x = false) -> length (List.filter f l) = O.
Proof.
  induction l as [|a l IH]; simpl; intros H; [reflexivity|].
  rewrite (H a) by now left. apply IH. intros x Hx. apply H. now right.
Qed.

Lemma recentComments_snoc (db : DB) (row : Comment.t) (since : Z) :
  recentComments (with_comments db (comments db ++ [row]))
    (Comment.ip_address row) since
  = (recentComments db (Comment.ip_address row) since
     + if (since <? Comment.created_at row)%Z then 1 else 0)%nat.
Proof.
  unfold recentComments. simpl. rewrite List.filter_app, length_app. f_equal.
  simpl. rewrite (bool_decide_eq_true_2 _ eq_refl). simpl.
  now destruct (since <? Comment.created_at row).
Qed.

(** C8 (amended). For a submission that passes the blacklist, post, field
    and parent checks: when three or more comments of its IP were created
    in the preceding 60 seconds it is answered with 429 and no comment is
    inserted; with fewer it is answered with 201 and stored, so that three
    comments within a window succeed and the fourth is rejected; and once
    the IP's comments are all 60 seconds old or older the window is empty
    and a new comment succeeds. *)
Theorem rate_limit (db : DB) (pages : R2) (postId : jsstring)
    (r : Submission.t) (commentId : jsstring) (now : Z) :
  passes_earlier_checks db postId r ->
  rate_limit_rule db pages postId r commentId now.
Proof.
  intros (Hbl & Hpost & Hauthor & Hcontent & Hparent).
  unfold rate_limit_rule. cbv zeta.
  assert (Hrun : post_comments db pages postId r commentId now
    = if (3 <=? recentComments db (userIp r) (now - 60 * 1000))%nat
      then mkOutcome 429 db pages []
      else if existsb (fun c => bool_decide (Comment.id c = commentId))
                (comments db)
      then mkOutcome 500 db pages []
      else
        let row :=
          Comment.mk commentId postId
            (JS.trim (default [] (Submission.author r)))
            (truthy_or_null (option_map JS.trim (Submission.email r)))
            (JS.trim (default [] (Submission.content r)))
            (userIp r) now 0
            (truthy_or_null (Submission.parent_id r))
            (truthy_or_null
               (match (if JS.truthy_opt (Submission.parent_id r)
                       then Some (first_where
                              (fun c => bool_decide
                                 (Some (Comment.id c) = Submission.parent_id r))
                              (comments db))
                       else None) with
                | Some (Some parentComment) => Some (Comment.author parentComment)
                | _ => Submission.reply_to r
                end)) in
        let db' := with_comments db (comments db ++ [row]) in
        mkOutcome 201 db' pages
          (match post_by_id db' postId with
           | Some updatedPost => [updatedPost]
           | None => []
           end)).
  { unfold post_comments. cbv zeta. rewrite Hbl.
    destruct (post_by_id db postId); [|contradiction].
    rewrite Hauthor, Hcontent. simpl.
    destruct (JS.truthy_opt (Submission.parent_id r)); [|reflexivity].
    destruct (first_where _ (comments db)); [reflexivity|].
    now destruct Hparent. }
  rewrite Hrun. clear Hrun. split; [|split].
  - intros Hn. apply Nat.leb_le in Hn. now rewrite Hn.
  - intros Hn Hfresh.
    assert ((3 <=? recentComments db (userIp r) (now - 60 * 1000))%nat = false)
      as -> by (apply Nat.leb_gt; exact Hn).
    assert (existsb (fun c => bool_decide (Comment.id c = commentId))
              (comments db) = false) as ->.
    { apply not_true_iff_false. intros Hex.
      apply existsb_exists in Hex as (c & Hc & Hid).
      apply bool_decide_eq_true in Hid.
      now apply (Hfresh c); [apply list_elem_of_In|]. }
    cbv zeta. eexists.
    repeat (split; [reflexivity|]).
    intros since.
    match goal with
    | |- context [comments db ++ [?row]] =>
        exact (recentComments_snoc db row since)
    end.
  - intros Hold. unfold recentComments. apply filter_none_length.
    intros c Hc. destruct (bool_decide_reflect (Comment.ip_address c = userIp r))
      as [Hip|]; [|reflexivity].
    simpl. specialize (Hold c Hc Hip). lia.
Qed.

(** Three comments of 10.0.0.9 at instants 1000, 2000 and 3000; a fourth
    submission at 4000 is refused, one at 63000 is accepted. *)
Lemma rate_limit_witness :
  rate_limit_rule
    (comment_db [sample_comment "c1" "10.0.0.9" 1000;
                 sample_comment "c2" "10.0.0.9" 2000;
                 sample_comment "c3" "10.0.0.9" 3000] [])
    ∅ (JS.lit "p1") (sample_submission "10.0.0.9" "ann") (JS.lit "c4") 4000
  /\ rate_limit_rule
    (comment_db [sample_comment "c1" "10.0.0.9" 1000;
                 sample_comment "c2" "10.0.0.9" 2000;
                 sample_comment "c3" "10.0.0.9" 3000] [])
    ∅ (JS.lit "p1") (sample_submission "10.0.0.9" "ann") (JS.lit "c4") 63000.
Proof.
  split; apply rate_limit; repeat split; try reflexivity; discriminate.
Defined.

(** C8 as first stated fails: with three comments of the IP in the window,
    a submission with a blank author is answered with 400, not with 429. *)
Lemma rate_limit_counterexample :
  ~ (forall db pages postId r commentId now,
       (3 <= recentComments db (userIp r) (now - 60 * 1000))%nat ->
       status (post_comments db pages postId r commentId now) = 429%nat).
Proof.
  intros H.
  specialize (H (comment_db [sample_comment "c1" "10.0.0.9" 1000;
                             sample_comment "c2" "10.0.0.9" 2000;
                             sample_comment "c3" "10.0.0.9" 3000] [])
                ∅ (JS.lit "p1") (sample_submission "10.0.0.9" " ")
                (JS.lit "c4") 4000).
  vm_compute in H. specialize (H (le_n 3)). discriminate.
Qed.

(** ** C2: which posts the neighbour queries select *)

(** What the page queries do guarantee: the previous neighbour shown on a
    page is a published post with the greatest publish timestamp before the
    page's, the next one a published post with the smallest after it. *)
Lemma prev_published_spec (db : DB) (t : Z) :
  match prev_published db (Some t) with
  | Some m =>
      m ∈ posts db /\ Post.is_published m = true
      /\ exists a, Post.published_at m = Some a /\ a < t
         /\ forall q b, q ∈ posts db -> Post.is_published q = true ->
              Post.published_at q = Some b -> b < t -> b <= a
  | None =>
      forall q b, q ∈ posts db -> Post.is_published q = true ->
        Post.published_at q = Some b -> t <= b
  end.
Proof.
  unfold prev_published.
  pose proof (desc_filter_spec
    (fun p => Post.is_published p && published_before (Some t) p) (posts db))
    as H.
  destruct (order_desc_limit_1 _) as [m|].
  - destruct H as (Hm & Hf & Hmax). apply andb_prop in Hf as [Hpub Hbefore].
    apply published_before_Some in Hbefore as (a & b & Ha & [= <-] & Hab).
    repeat split; try assumption. exists a. repeat split; try assumption.
    intros q b Hq Hqpub Hqb Hbt.
    assert (stamp_lt (Post.published_at m) (Post.published_at q) = false) as Hle.
    { apply Hmax; [assumption|]. rewrite Hqpub. simpl.
      apply published_before_Some. exists b, t. auto. }
    rewrite Ha, Hqb in Hle. simpl in Hle. lia.
  - intros q b Hq Hqpub Hqb. specialize (H q Hq). rewrite Hqpub in H.
    simpl in H. unfold published_before in H. rewrite Hqb in H. lia.
Qed.

Lemma next_published_spec (db : DB) (t : Z) :
  match next_published db (Some t) with
  | Some m =>
      m ∈ posts db /\ Post.is_published m = true
      /\ exists a, Post.published_at m = Some a /\ t < a
         /\ forall q b, q ∈ posts db -> Post.is_published q = true ->
              Post.published_at q = Some b -> t < b -> a <= b
  | None =>
      forall q b, q ∈ posts db -> Post.is_published q = true ->
        Post.published_at q = Some b -> b <= t
  end.
Proof.
  unfold next_published.
  pose proof (asc_filter_spec
    (fun p => Post.is_published p && published_after (Some t) p) (posts db))
    as H.
  destruct (order_asc_limit_1 _) as [m|].
  - destruct H as (Hm & Hf & Hmin). apply andb_prop in Hf as [Hpub Hafter].
    apply published_after_Some in Hafter as (a & b & Ha & [= <-] & Hab).
    repeat split; try assumption. exists a. repeat split; try assumption.
    intros q b Hq Hqpub Hqb Hbt.
    assert (stamp_lt (Post.published_at q) (Post.published_at m) = false) as Hle.
    { apply Hmin; [assumption|]. rewrite Hqpub. simpl.
      apply published_after_Some. exists b, t. auto. }
    rewrite Ha, Hqb in Hle. simpl in Hle. lia.
  - intros q b Hq Hqpub Hqb. specialize (H q Hq). rewrite Hqpub in H.
    simpl in H. unfold published_after in H. rewrite Hqb in H. lia.
Qed.

(** C2 (the code departs from it). The page of a post published at instant
    2000 takes as previous neighbour a post that is flagged as a draft: the
    queries of lines 2665 and 2666 test [is_published] and never [is_draft].
    The neighbour queries of the update and delete handlers (lines 2136,
    2137, 2217, 2218) test neither, and select a post that is not
    published. *)
Theorem neighbours_select_drafts :
  prev_published
    (sample_db [sample_post "draft" 1000 true 1; sample_post "p" 2000 true 0])
    (Some 2000)
  = Some (sample_post "draft" 1000 true 1)
  /\ next_published
    (sample_db [sample_post "p" 2000 true 0; sample_post "draft" 3000 true 1])
    (Some 2000)
  = Some (sample_post "draft" 3000 true 1)
  /\ prev_any
    (sample_db [sample_post "hidden" 1000 false 1; sample_post "p" 2000 true 0])
    (Some 2000)
  = Some (sample_post "hidden" 1000 false 1)
  /\ next_any
    (sample_db [sample_post "p" 2000 true 0; sample_post "hidden" 3000 false 1])
    (Some 2000)
  = Some (sample_post "hidden" 3000 false 1).
Proof. repeat split. Qed.

(** ** C7: the full rebuild *)

(** The rebuild generates a page for exactly the stored posts that are
    flagged published and have a non-empty slug, each once per row and in
    table order. *)
Lemma rebuild_all_targets (db : DB) (pages : R2) (p : Post.t) :
  p ∈ background (post_rebuild_all db pages)
  <-> p ∈ posts db /\ Post.is_published p = true
      /\ JS.truthy (Post.slug p) = true.
Proof.
  unfold post_rebuild_all. simpl. rewrite !list_elem_of_In, !filter_In.
  tauto.
Qed.

Lemma rebuild_all_skips_unpublished (db : DB) (pages : R2) (p : Post.t) :
  Post.is_published p = false -> p ∉ background (post_rebuild_all db pages).
Proof.
  intros Hp Hin. apply rebuild_all_targets in Hin as (_ & Hpub & _).
  congruence.
Qed.

(** C7 (the code departs from it). The rebuild selects [WHERE is_published =
    true] and never tests [is_draft]: of a published post and a post
    flagged both published and draft, both pages are generated. *)
Theorem rebuild_all_generates_drafts :
  background
    (post_rebuild_all
       (sample_db [sample_post "p" 1000 true 0; sample_post "draft" 2000 true 1])
       ∅)
  = [sample_post "p" 1000 true 0; sample_post "draft" 2000 true 1]
  /\ Post.is_draft (sample_post "draft" 2000 true 1) = 1.
Proof. split; reflexivity. Qed.

(** ** C1: the cascade of an update *)

(** C1 (the code departs from it). Posts [a] (published, instant 1000),
    [hidden] (not published, instant 2000) and [p] (published, instant
    3000), their pages freshly rebuilt. Re-titling [p] changes its slug. The
    pages show [a] as the previous neighbour of [p], before and after the
    update, and [p] as the next neighbour of [a]. The handler takes its
    neighbours without a test of [is_published]: its task generates the
    pages of [p] and of the unpublished [hidden], which had no page, and
    leaves the page of [a] as it was, which is not the page a regeneration
    of [a] would now write. *)
Theorem put_cascade_takes_unpublished_neighbour :
  exists out,
    put_posts_id ascii_lower stringify_tags three_posts (rebuilt three_posts)
      (JS.lit "p") (sample_body "Renamed") = Some out
    /\ status out = 200%nat
    /\ map Post.id (background out) = [JS.lit "p"; JS.lit "hidden"]
    /\ map Post.slug (background out) = [JS.lit "renamed"; JS.lit "hidden"]
    /\ option_map Post.id (prev_published three_posts (Some 3000))
       = Some (JS.lit "a")
    /\ option_map Post.id (prev_published (db_after out) (Some 3000))
       = Some (JS.lit "a")
    /\ option_map Post.slug (next_published (db_after out) (Some 1000))
       = Some (JS.lit "renamed")
    /\ rebuilt three_posts !! JS.lit "hidden" = None
    /\ settled out !! JS.lit "hidden"
       = Some (fresh_page (db_after out) (sample_post "hidden" 2000 false 1))
    /\ settled out !! JS.lit "a" = rebuilt three_posts !! JS.lit "a"
    /\ settled out !! JS.lit "a"
       <> Some (fresh_page (db_after out) (sample_post "a" 1000 true 0)).
Proof.
  eexists. split; [reflexivity|].
  repeat split; try (vm_compute; reflexivity).
  vm_compute. intros H. discriminate H.
Qed.

(** ** C3: the cascade of a deletion *)

(** C3 (the code departs from it). Deleting [p] removes its row and its
    blob. With only the unpublished [hidden] before it, [p] has no
    neighbour on any page, yet the page of [hidden] is generated. With the
    published [a] before [hidden], the page of [a], whose next link led to
    [p], is left as it was, which is not the page a regeneration of [a]
    would now write, and the page of [hidden] is generated. *)
Theorem delete_cascade_takes_unpublished_neighbour :
  (prev_published
     (sample_db [sample_post "hidden" 1000 false 1; sample_post "p" 2000 true 0])
     (Some 2000) = None
   /\ next_published
     (sample_db [sample_post "hidden" 1000 false 1; sample_post "p" 2000 true 0])
     (Some 2000) = None
   /\ delete_posts_id
     (sample_db [sample_post "hidden" 1000 false 1; sample_post "p" 2000 true 0])
     {[JS.lit "p" := JS.lit "page of p"]} (JS.lit "p")
   = mkOutcome 200 (sample_db [sample_post "hidden" 1000 false 1]) ∅
       [sample_post "hidden" 1000 false 1])
  /\ (option_map Post.id (next_published three_posts (Some 1000))
      = Some (JS.lit "p")
      /\ status (delete_posts_id three_posts (rebuilt three_posts) (JS.lit "p"))
         = 200%nat
      /\ map Post.id
           (posts (db_after (delete_posts_id three_posts (rebuilt three_posts)
                               (JS.lit "p"))))
         = [JS.lit "a"; JS.lit "hidden"]
      /\ background
           (delete_posts_id three_posts (rebuilt three_posts) (JS.lit "p"))
         = [sample_post "hidden" 2000 false 1]
      /\ rebuilt three_posts !! JS.lit "hidden" = None
      /\ settled (delete_posts_id three_posts (rebuilt three_posts) (JS.lit "p"))
           !! JS.lit "hidden"
         = Some (fresh_page
                   (db_after (delete_posts_id three_posts (rebuilt three_posts)
                                (JS.lit "p")))
                   (sample_post "hidden" 2000 false 1))
      /\ settled (delete_posts_id three_posts (rebuilt three_posts) (JS.lit "p"))
           !! JS.lit "p" = None
      /\ settled (delete_posts_id three_posts (rebuilt three_posts) (JS.lit "p"))
           !! JS.lit "a"
         = rebuilt three_posts !! JS.lit "a"
      /\ settled (delete_posts_id three_posts (rebuilt three_posts) (JS.lit "p"))
           !! JS.lit "a"
         <> Some (fresh_page
                    (db_after (delete_posts_id three_posts (rebuilt three_posts)
                                 (JS.lit "p")))
                    (sample_post "a" 1000 true 0))).
Proof.
  repeat split; try (vm_compute; reflexivity).
  vm_compute. intros H. discriminate H.
Qed.

(** ** C9: rebuilding twice *)

Section Determinism.

Variable marked_parse : jsstring -> jsstring.
Variable toLocaleDateString : Z -> jsstring.
Variable toLocaleString : Z -> jsstring.
Variable JSON_parse : jsstring -> list jsstring.
Variable getFullYear : Z -> nat.
Variable tpl : Fragment -> jsstring.

Local Abbreviation html :=
  (htmlContent marked_parse toLocaleDateString toLocaleString JSON_parse
     getFullYear tpl).
Local Abbreviation regenerate :=
  (regenerate_all marked_parse toLocaleDateString toLocaleString JSON_parse
     getFullYear tpl).

(** With a publish timestamp on the post, the page text depends on the
    clock through the calendar year only. *)
Lemma htmlContent_same_year (now1 now2 : Z) (db : DB) (post : Post.t) :
  getFullYear now1 = getFullYear now2 ->
  Post.published_at post <> None ->
  html now1 db post = html now2 db post.
Proof.
  intros Hyear Hstamp. unfold htmlContent.
  destruct (Post.published_at post) as [t|]; [|contradiction].
  cbv zeta. now rewrite Hyear.
Qed.

Lemma regenerate_all_ext (clock1 clock2 : nat -> Z) (db : DB)
    (calls : list Post.t) (pages : R2) :
  (forall k p, p ∈ calls -> html (clock1 k) db p = html (clock2 k) db p) ->
  regenerate clock1 db calls pages = regenerate clock2 db calls pages.
Proof.
  revert clock1 clock2 pages.
  induction calls as [|p calls IH]; intros clock1 clock2 pages H; simpl;
    [reflexivity|].
  unfold generateAndStoreStaticPage. rewrite (H O p) by now left.
  apply IH. intros k q Hq. apply H. now right.
Qed.

(** A task either leaves a key alone or sets it to a value that does not
    depend on the bucket it started from. *)
Lemma regenerate_all_lookup (clock : nat -> Z) (db : DB)
    (calls : list Post.t) (key : jsstring) :
  (forall pages : R2, regenerate clock db calls pages !! key = pages !! key)
  \/ exists v, forall pages : R2,
       regenerate clock db calls pages !! key = Some v.
Proof.
  revert clock. induction calls as [|p calls IH]; intros clock; simpl.
  - now left.
  - destruct (IH (fun k => clock (S k))) as [Hsame|[v Hv]].
    + destruct (decide (Post.slug p = key)) as [<-|Hne].
      * right. eexists. intros pages. rewrite Hsame.
        unfold generateAndStoreStaticPage. apply lookup_insert_eq.
      * left. intros pages. rewrite Hsame.
        unfold generateAndStoreStaticPage. now apply lookup_insert_ne.
    + right. exists v. intros pages. apply Hv.
Qed.

Lemma regenerate_all_idempotent (clock : nat -> Z) (db : DB)
    (calls : list Post.t) (pages : R2) :
  regenerate clock db calls (regenerate clock db calls pages)
  = regenerate clock db calls pages.
Proof.
  apply map_eq. intros key.
  destruct (regenerate_all_lookup clock db calls key) as [Hsame|[v Hv]].
  - apply Hsame.
  - now rewrite !Hv.
Qed.

(** C9 (amended). When every published post carries a publish timestamp,
    two full rebuilds of the same store whose clock readings fall in the
    same calendar year write the same blobs: started from the same bucket
    they end in the same bucket, and the second, run on what the first left,
    changes nothing. *)
Theorem rebuild_twice_same_blobs (clock1 clock2 : nat -> Z) (db : DB)
    (pages : R2) :
  (forall k, getFullYear (clock1 k) = getFullYear (clock2 k)) ->
  (forall p, p ∈ posts db -> Post.is_published p = true ->
     Post.published_at p <> None) ->
  rebuild marked_parse toLocaleDateString toLocaleString JSON_parse
    getFullYear tpl clock1 db pages
  = rebuild marked_parse toLocaleDateString toLocaleString JSON_parse
      getFullYear tpl clock2 db pages
  /\ rebuild marked_parse toLocaleDateString toLocaleString JSON_parse
       getFullYear tpl clock2 db
       (rebuild marked_parse toLocaleDateString toLocaleString JSON_parse
          getFullYear tpl clock1 db pages)
     = rebuild marked_parse toLocaleDateString toLocaleString JSON_parse
         getFullYear tpl clock1 db pages.
Proof.
  intros Hyear Hstamp. unfold rebuild, run_background. simpl.
  assert (Hext : forall pages',
    regenerate clock2 db (background (post_rebuild_all db pages)) pages'
    = regenerate clock1 db (background (post_rebuild_all db pages)) pages').
  { intros pages'. apply regenerate_all_ext. intros k p Hp.
    apply rebuild_all_targets in Hp as (Hin & Hpub & _).
    apply htmlContent_same_year; [now rewrite Hyear|now apply Hstamp]. }
  simpl in Hext. split.
  - now rewrite Hext.
  - rewrite Hext. apply regenerate_all_idempotent.
Qed.

End Determinism.

(** Two rebuilds of a one-post store, 1000 ms apart. *)
Lemma rebuild_twice_same_blobs_witness :
  rebuild plain_text day_number day_number no_tags year_number bars
    (fun _ => 5000) (sample_db [sample_post "p" 1000 true 0]) ∅
  = rebuild plain_text day_number day_number no_tags year_number bars
      (fun _ => 6000) (sample_db [sample_post "p" 1000 true 0]) ∅
  /\ rebuild plain_text day_number day_number no_tags year_number bars
       (fun _ => 6000) (sample_db [sample_post "p" 1000 true 0])
       (rebuild plain_text day_number day_number no_tags year_number bars
          (fun _ => 5000) (sample_db [sample_post "p" 1000 true 0]) ∅)
     = rebuild plain_text day_number day_number no_tags year_number bars
         (fun _ => 5000) (sample_db [sample_post "p" 1000 true 0]) ∅.
Proof.
  apply (rebuild_twice_same_blobs plain_text day_number day_number no_tags
           year_number bars (fun _ => 5000) (fun _ => 6000)
           (sample_db [sample_post "p" 1000 true 0]) ∅).
  - intros k. reflexivity.
  - intros p Hp _. apply list_elem_of_singleton in Hp. subst p. discriminate.
Defined.

(** C9 as first stated fails: a published post without a publish timestamp
    is rendered with the instant of the rebuild in its place (line 2662),
    so that two rebuilds of an unchanged store, one day apart within one
    year, store different blobs under its slug. *)
Lemma rebuild_twice_counterexample :
  ~ (forall (marked_parse : jsstring -> jsstring)
       (toLocaleDateString toLocaleString : Z -> jsstring)
       (JSON_parse : jsstring -> list jsstring) (getFullYear : Z -> nat)
       (tpl : Fragment -> jsstring) (clock1 clock2 : nat -> Z) (db : DB)
       (pages : R2),
       (forall k, getFullYear (clock1 k) = getFullYear (clock2 k)) ->
       rebuild marked_parse toLocaleDateString toLocaleString JSON_parse
         getFullYear tpl clock1 db pages
       = rebuild marked_parse toLocaleDateString toLocaleString JSON_parse
           getFullYear tpl clock2 db pages).
Proof.
  intros H.
  specialize (H plain_text day_number day_number no_tags year_number bars
                (fun _ => 0) (fun _ => 86400000) (sample_db [undated_post]) ∅
                (fun _ => eq_refl)).
  apply (f_equal (fun m : R2 => m !! JS.lit "p")) in H.
  vm_compute in H. discriminate.
Qed.

(** ** The update and delete cascades, relative to the handlers' own
       neighbour queries *)

Lemma prev_any_spec (db : DB) (t : option Z) (m : Post.t) :
  prev_any db t = Some m -> m ∈ posts db /\ published_before t m = true.
Proof.
  unfold prev_any. intros H.
  pose proof (desc_filter_spec (published_before t) (posts db)) as Hs.
  rewrite H in Hs. tauto.
Qed.

Lemma next_any_spec (db : DB) (t : option Z) (m : Post.t) :
  next_any db t = Some m -> m ∈ posts db /\ published_after t m = true.
Proof.
  unfold next_any. intros H.
  pose proof (asc_filter_spec (published_after t) (posts db)) as Hs.
  rewrite H in Hs. tauto.
Qed.

(** Where every post with an earlier (later) timestamp is published, the
    handlers' query and the page's query scan the same rows. *)
Lemma prev_any_published (db : DB) (t : option Z) :
  (forall q, q ∈ posts db -> published_before t q = true ->
     Post.is_published q = true) ->
  prev_any db t = prev_published db t.
Proof.
  intros H. unfold prev_any, prev_published. f_equal.
  apply filter_ext_in. intros q Hq. apply list_elem_of_In in Hq.
  destruct (published_before t q) eqn:Hb; [|now rewrite andb_false_r].
  now rewrite (H q Hq Hb).
Qed.

Lemma next_any_published (db : DB) (t : option Z) :
  (forall q, q ∈ posts db -> published_after t q = true ->
     Post.is_published q = true) ->
  next_any db t = next_published db t.
Proof.
  intros H. unfold next_any, next_published. f_equal.
  apply filter_ext_in. intros q Hq. apply list_elem_of_In in Hq.
  destruct (published_after t q) eqn:Hb; [|now rewrite andb_false_r].
  now rewrite (H q Hq Hb).
Qed.

(** The delete handler: the row and its blob go, and the task generates
    the pages of the rows its two queries captured, previous first. *)
Lemma delete_posts_id_spec (db : DB) (pages : R2) (id : jsstring)
    (p : Post.t) :
  post_by_id db id = Some p ->
  status (delete_posts_id db pages id) = 200%nat
  /\ (forall q, q ∈ posts (db_after (delete_posts_id db pages id))
                <-> q ∈ posts db /\ Post.id q <> id)
  /\ pages_after (delete_posts_id db pages id) = delete (Post.slug p) pages
  /\ background (delete_posts_id db pages id)
     = option_list (prev_any db (Post.published_at p))
       ++ option_list (next_any db (Post.published_at p)).
Proof.
  intros Hp. unfold delete_posts_id. rewrite Hp. simpl.
  split; [reflexivity|]. split; [|split; [reflexivity|]].
  - intros q. rewrite !list_elem_of_In, filter_In, negb_true_iff.
    now rewrite bool_decide_eq_false.
  - now destruct (prev_any db _), (next_any db _).
Qed.

(** X3. With every stored post published and no two posts sharing a publish
    timestamp, the delete cascade is the one C3 describes: the task
    generates the post nearest in time before the deleted one and the post
    nearest after it, where there are such, and no other; these are the
    previous and next neighbours the pages themselves show for the deleted
    post. (With tied timestamps the handler's queries and the page's
    queries may each pick another of the tied rows.) *)
Lemma delete_cascade_all_published (db : DB) (pages : R2) (id : jsstring)
    (p : Post.t) :
  (forall q, q ∈ posts db -> Post.is_published q = true) ->
  (forall q r, q ∈ posts db -> r ∈ posts db ->
     Post.published_at q = Post.published_at r -> q = r) ->
  post_by_id db id = Some p ->
  background (delete_posts_id db pages id)
  = option_list (prev_published db (Post.published_at p))
    ++ option_list (next_published db (Post.published_at p))
  /\ forall m,
       m ∈ background (delete_posts_id db pages id) <->
       m ∈ posts db
       /\ exists t a,
            Post.published_at p = Some t /\ Post.published_at m = Some a
            /\ (a < t
                /\ (forall q b, q ∈ posts db -> Post.published_at q = Some b ->
                      b < t -> b <= a)
                \/ t < a
                   /\ (forall q b, q ∈ posts db ->
                         Post.published_at q = Some b -> t < b -> a <= b)).
Proof.
  intros Hall Hdistinct Hp.
  destruct (delete_posts_id_spec db pages id p Hp) as (_ & _ & _ & ->).
  rewrite prev_any_published, next_any_published by auto.
  split; [reflexivity|]. intros m.
  destruct (Post.published_at p) as [t|] eqn:Ht.
  - pose proof (prev_published_spec db t) as Hprev.
    pose proof (next_published_spec db t) as Hnext.
    rewrite elem_of_app. split.
    + intros [Hm|Hm].
      * destruct (prev_published db (Some t)) as [m'|]; [|inversion Hm].
        apply list_elem_of_singleton in Hm. subst m'.
        destruct Hprev as (Hin & _ & a & Ha & Hlt & Hmax).
        split; [exact Hin|]. exists t, a. repeat split; try assumption.
        left. split; [exact Hlt|]. intros q b Hq. now apply Hmax; auto.
      * destruct (next_published db (Some t)) as [m'|]; [|inversion Hm].
        apply list_elem_of_singleton in Hm. subst m'.
        destruct Hnext as (Hin & _ & a & Ha & Hlt & Hmin).
        split; [exact Hin|]. exists t, a. repeat split; try assumption.
        right. split; [exact Hlt|]. intros q b Hq. now apply Hmin; auto.
    + intros (Hin & t' & a & [= <-] & Ha & [[Hlt Hmax]|[Hlt Hmin]]).
      * left. destruct (prev_published db (Some t)) as [m'|].
        -- destruct Hprev as (Hin' & _ & a' & Ha' & Hlt' & Hmax').
           assert (a <= a') by (apply (Hmax' m a); auto).
           assert (a' <= a) by (apply (Hmax m' a'); auto).
           assert (m = m') as <-
             by (apply Hdistinct; auto; rewrite Ha, Ha'; f_equal; lia).
           now apply list_elem_of_singleton.
        -- specialize (Hprev m a Hin (Hall m Hin) Ha). lia.
      * right. destruct (next_published db (Some t)) as [m'|].
        -- destruct Hnext as (Hin' & _ & a' & Ha' & Hlt' & Hmin').
           assert (a' <= a) by (apply (Hmin' m a); auto).
           assert (a <= a') by (apply (Hmin m' a'); auto).
           assert (m = m') as <-
             by (apply Hdistinct; auto; rewrite Ha, Ha'; f_equal; lia).
           now apply list_elem_of_singleton.
        -- specialize (Hnext m a Hin (Hall m Hin) Ha). lia.
  - assert (Hnone : forall f, (forall q, f q = false) ->
              List.filter f (posts db) = []).
    { intros f Hf. generalize (posts db). intros l.
      induction l as [|q l IH]; [reflexivity|]. simpl. now rewrite Hf. }
    unfold prev_published, next_published.
    rewrite !Hnone.
    + split; [intros H; inversion H|].
      intros (_ & t & a & Hdisc & _). discriminate Hdisc.
    + intros q. unfold published_after.
      destruct (Post.published_at q); now rewrite andb_false_r.
    + intros q. unfold published_before.
      destruct (Post.published_at q); now rewrite andb_false_r.
Qed.

Lemma post_by_id_wf (db : DB) (q : Post.t) :
  NoDup (map Post.id (posts db)) -> q ∈ posts db ->
  post_by_id db (Post.id q) = Some q.
Proof.
  intros Hnd Hq. unfold post_by_id, first_where.
  destruct (List.find _ (posts db)) as [q'|] eqn:Hfind.
  - apply find_some in Hfind as [Hin Hid].
    apply bool_decide_eq_true in Hid. f_equal.
    apply (NoDup_map_inj Post.id (posts db)); auto.
    now apply list_elem_of_In.
  - apply list_elem_of_In in Hq. pose proof (find_none _ _ Hfind q Hq) as Hc.
    simpl in Hc. now rewrite (bool_decide_eq_true_2 _ eq_refl) in Hc.
Qed.

Lemma set_add_elem (i j : jsstring) (s : list jsstring) :
  j ∈ set_add i s <-> j = i \/ j ∈ s.
Proof.
  unfold set_add. destruct (bool_decide_reflect (i ∈ s)) as [Hi|Hi].
  - split; [now right|]. intros [->|]; assumption.
  - rewrite elem_of_app, list_elem_of_singleton. tauto.
Qed.

Lemma set_add_NoDup (i : jsstring) (s : list jsstring) :
  NoDup s -> NoDup (set_add i s).
Proof.
  intros Hs. unfold set_add. destruct (bool_decide_reflect (i ∈ s)) as [Hi|Hi];
    [assumption|].
  apply NoDup_app. repeat split; [assumption| |apply NoDup_singleton].
  intros x Hx Hx'. apply list_elem_of_singleton in Hx'. now subst.
Qed.

Lemma add_post_elem (o : option Post.t) (j : jsstring) (s : list jsstring) :
  j ∈ add_post o s <-> (exists p, o = Some p /\ j = Post.id p) \/ j ∈ s.
Proof.
  destruct o as [p|]; simpl.
  - rewrite set_add_elem. split.
    + intros [->|H]; [left; eauto|now right].
    + intros [(q & [= <-] & ->)|H]; [now left|now right].
  - split; [now right|]. now intros [(q & [=] & _)|H].
Qed.

Lemma add_post_NoDup (o : option Post.t) (s : list jsstring) :
  NoDup s -> NoDup (add_post o s).
Proof. destruct o; simpl; [apply set_add_NoDup|trivial]. Qed.

Lemma omap_post_by_id_ids (db : DB) (l : list jsstring) :
  NoDup (map Post.id (posts db)) ->
  (forall i, i ∈ l -> exists q, q ∈ posts db /\ Post.id q = i) ->
  map Post.id (omap (post_by_id db) l) = l.
Proof.
  intros Hnd. induction l as [|i l IH]; intros H; simpl; [reflexivity|].
  destruct (H i) as (q & Hq & <-); [now left|].
  rewrite (post_by_id_wf db q Hnd Hq). simpl. f_equal.
  apply IH. intros j Hj. apply H. now right.
Qed.

(** The task of the update handler generates the updated post's page first
    and then, each once, the pages of the posts whose id is in
    [neighborsToUpdate] or which its queries find next to the updated
    post's timestamp; the updated post is not among them. *)
Lemma put_background_structure (db' : DB) (row updatedPost : Post.t)
    (old : list jsstring) :
  posts_wf db' -> row ∈ posts db' ->
  Post.id updatedPost = Post.id row ->
  Post.published_at updatedPost = Post.published_at row ->
  NoDup old ->
  (forall i, i ∈ old ->
     i <> Post.id row /\ exists q, q ∈ posts db' /\ Post.id q = i) ->
  NoDup (map Post.id (put_background db' updatedPost old))
  /\ exists rest,
       put_background db' updatedPost old = updatedPost :: rest
       /\ forall q, q ∈ rest <->
            q ∈ posts db'
            /\ (Post.id q ∈ old
                \/ prev_any db' (Post.published_at row) = Some q
                \/ next_any db' (Post.published_at row) = Some q).
Proof.
  intros (Hids & _ & _) Hrow Hid Hstamp Hold Hexist.
  unfold put_background. rewrite Hstamp.
  set (t := Post.published_at row).
  assert (Hprev : forall m, prev_any db' t = Some m ->
            m ∈ posts db' /\ Post.id m <> Post.id row
            /\ published_before t m = true).
  { intros m Hm. apply prev_any_spec in Hm as [Hin Hb].
    repeat split; try assumption. intros Heq.
    assert (m = row) as -> by (apply (NoDup_map_inj Post.id (posts db')); auto).
    unfold published_before, t in Hb. destruct (Post.published_at row);
      [lia|discriminate]. }
  assert (Hnext : forall m, next_any db' t = Some m ->
            m ∈ posts db' /\ Post.id m <> Post.id row
            /\ published_after t m = true).
  { intros m Hm. apply next_any_spec in Hm as [Hin Hb].
    repeat split; try assumption. intros Heq.
    assert (m = row) as -> by (apply (NoDup_map_inj Post.id (posts db')); auto).
    unfold published_after, t in Hb. destruct (Post.published_at row);
      [lia|discriminate]. }
  assert (Hapart : forall m n, prev_any db' t = Some m ->
            next_any db' t = Some n -> Post.id m <> Post.id n).
  { intros m n Hm Hn Heq.
    destruct (Hprev m Hm) as (Hmin & _ & Hb), (Hnext n Hn) as (Hnin & _ & Ha).
    assert (m = n) as -> by (apply (NoDup_map_inj Post.id (posts db')); auto).
    unfold published_before, published_after in Hb, Ha.
    destruct (Post.published_at n), t; try discriminate. lia. }
  assert (Hmap : map Post.id (omap (post_by_id db') old) = old).
  { apply omap_post_by_id_ids; [assumption|]. intros i Hi.
    now destruct (Hexist i Hi). }
  split.
  - assert (Hrow_old : Post.id row ∉ old)
      by (intros Hc; now destruct (Hexist _ Hc)).
    simpl. rewrite !map_app, Hmap, Hid. unfold set_has.
    destruct (prev_any db' t) as [m|] eqn:Hm;
      [destruct (Hprev m eq_refl) as (_ & Hmrow & _);
       destruct (bool_decide_reflect (Post.id m ∈ old)) as [Hmo|Hmo]|];
      (destruct (next_any db' t) as [nx|] eqn:Hn;
       [destruct (Hnext nx eq_refl) as (_ & Hnrow & _);
        try pose proof (Hapart _ _ eq_refl eq_refl);
        destruct (bool_decide_reflect (Post.id nx ∈ old)) as [Hno|Hno]|]);
      simpl; rewrite ?NoDup_cons, ?not_elem_of_cons; repeat split; auto;
      congruence.
  - eexists. split; [reflexivity|]. intros q.
    rewrite !elem_of_app, list_elem_of_omap. unfold set_has. split.
    + intros [Hq|[Hq|(i & Hi & Hq)]].
      * destruct (prev_any db' t) as [m|] eqn:Hm; [|inversion Hq].
        destruct (bool_decide (Post.id m ∈ old)); [inversion Hq|].
        apply list_elem_of_singleton in Hq. subst q.
        split; [apply (Hprev m eq_refl)|auto].
      * destruct (next_any db' t) as [n|] eqn:Hn; [|inversion Hq].
        destruct (bool_decide (Post.id n ∈ old)); [inversion Hq|].
        apply list_elem_of_singleton in Hq. subst q.
        split; [apply (Hnext n eq_refl)|auto].
      * apply post_by_id_elem in Hq as [Hq <-]. auto.
    + intros [Hq Hcase].
      assert (Hback : Post.id q ∈ old ->
                exists i, i ∈ old /\ post_by_id db' i = Some q).
      { intros Hi. exists (Post.id q). split; [assumption|].
        now apply post_by_id_wf. }
      destruct Hcase as [Hi|[Hm|Hn]].
      * right. right. auto.
      * rewrite Hm. destruct (bool_decide_reflect (Post.id q ∈ old)) as [Hi|Hi].
        -- right. right. auto.
        -- left. now apply list_elem_of_singleton.
      * rewrite Hn. destruct (bool_decide_reflect (Post.id q ∈ old)) as [Hi|Hi].
        -- right. right. auto.
        -- right. left. now apply list_elem_of_singleton.
Qed.

(** X2. The update handler as a whole. On a store that satisfies its
    constraints, a 200 answer comes with a task that generates the updated
    post's page and, each exactly once, the pages of the posts its four
    neighbour queries return: two on the store and timestamp before the
    [UPDATE], two after. The updated post is not generated a second time. *)
Lemma put_posts_id_cascade (toLowerCase : jsstring -> jsstring)
    (JSON_stringify : list jsstring -> jsstring) (db : DB) (pages : R2)
    (id : jsstring) (body : Body.t) (out : Outcome) :
  posts_wf db ->
  put_posts_id toLowerCase JSON_stringify db pages id body = Some out ->
  status out = 200%nat ->
  exists p row updatedPost rest,
    post_by_id db id = Some p
    /\ post_by_id (db_after out) id = Some row
    /\ pages_after out = pages
    /\ background out = updatedPost :: rest
    /\ Post.id updatedPost = id
    /\ NoDup (map Post.id (background out))
    /\ forall q, q ∈ rest <->
         q ∈ posts (db_after out)
         /\ ((exists m, prev_any db (Post.published_at p) = Some m
                        /\ Post.id q = Post.id m)
             \/ (exists m, next_any db (Post.published_at p) = Some m
                           /\ Post.id q = Post.id m)
             \/ prev_any (db_after out) (Post.published_at row) = Some q
             \/ next_any (db_after out) (Post.published_at row) = Some q).
Proof.
  intros Hwf Hput Hst. unfold put_posts_id in Hput.
  destruct (post_by_id db id) as [p|] eqn:Hp;
    [|injection Hput as <-; discriminate].
  cbv zeta in Hput.
  match type of Hput with
  | match ?s with _ => _ end = _ => destruct s as [new_slug|]
  end; [|discriminate].
  destruct (update_post db id _) as [db'|] eqn:Hupd; injection Hput as <-;
    [|discriminate].
  clear Hst. simpl.
  set (f := apply_updates JSON_stringify body new_slug) in *.
  destruct (post_by_id_elem _ _ _ Hp) as [Hin Hpid].
  assert (Hwf' : posts_wf db')
    by (eapply update_post_wf; [exact Hwf| |exact Hupd]; reflexivity).
  unfold update_post in Hupd. destruct (existsb _ _); [discriminate|].
  injection Hupd as Hdb'.
  set (g := fun q => if bool_decide (Post.id q = id) then f q else q) in Hdb'.
  assert (Hg : forall q, Post.id (g q) = Post.id q)
    by (intros q; unfold g; destruct (bool_decide _); reflexivity).
  assert (Hmapped : forall q, q ∈ posts db -> g q ∈ posts db').
  { intros q Hq. subst db'. simpl. apply list_elem_of_In, in_map.
    now apply list_elem_of_In. }
  assert (Hrow : f p ∈ posts db').
  { specialize (Hmapped p Hin). unfold g in Hmapped.
    now rewrite (bool_decide_eq_true_2 _ Hpid) in Hmapped. }
  set (old := add_post (next_any db (Post.published_at p))
                (add_post (prev_any db (Post.published_at p)) [])).
  assert (Hold : forall i, i ∈ old <->
            (exists m, prev_any db (Post.published_at p) = Some m
                       /\ i = Post.id m)
            \/ (exists m, next_any db (Post.published_at p) = Some m
                          /\ i = Post.id m)).
  { intros i. unfold old. rewrite !add_post_elem, elem_of_nil. tauto. }
  destruct Hwf as (Hids & _ & _).
  assert (Hapart : forall i, i ∈ old ->
            i <> Post.id (f p) /\ exists q, q ∈ posts db' /\ Post.id q = i).
  { intros i Hi. apply Hold in Hi.
    assert (exists m, m ∈ posts db /\ i = Post.id m /\ m <> p)
      as (m & Hm & -> & Hne).
    { destruct Hi as [(m & Hm & ->)|(m & Hm & ->)].
      - apply prev_any_spec in Hm as [Hm Hb]. exists m.
        repeat split; try assumption. intros ->.
        unfold published_before in Hb. destruct (Post.published_at p);
          [lia|discriminate].
      - apply next_any_spec in Hm as [Hm Hb]. exists m.
        repeat split; try assumption. intros ->.
        unfold published_after in Hb. destruct (Post.published_at p);
          [lia|discriminate]. }
    split.
    - intros Heq. apply Hne.
      apply (NoDup_map_inj Post.id (posts db)); auto.
    - exists (g m). split; [now apply Hmapped|apply Hg]. }
  destruct (put_background_structure db' (f p)
              (merge_updates JSON_stringify body new_slug p) old
              Hwf' Hrow eq_refl eq_refl)
    as (Hnd & rest & Hbg & Hrest).
  { unfold old. now apply add_post_NoDup, add_post_NoDup, NoDup_nil. }
  { exact Hapart. }
  exists p, (f p), (merge_updates JSON_stringify body new_slug p), rest.
  split; [reflexivity|]. split.
  { destruct Hwf' as (Hids' & _ & _).
    rewrite <- Hpid. change (Post.id p) with (Post.id (f p)).
    now apply post_by_id_wf. }
  split; [reflexivity|]. split; [exact Hbg|]. split; [exact Hpid|].
  split; [exact Hnd|].
  intros q. rewrite Hrest, Hold. tauto.
Qed.

(** ** Worked examples *)

Example base_slug_hello_world :
  base_slug ascii_lower (JS.lit "  Hello,   World!  ") = JS.lit "hello-world".
Proof. reflexivity. Qed.

Example base_slug_hyphen_runs :
  base_slug ascii_lower (JS.lit "--a - b__c--") = JS.lit "a-b__c".
Proof. reflexivity. Qed.

Example base_slug_cjk :
  base_slug ascii_lower [20013%N; 25991%N; 32%N; 84%N; 233%N]
  = [20013%N; 25991%N; 45%N; 116%N].
Proof. reflexivity. Qed.

Example slug_falls_back_to_post :
  generateUniqueSlug ascii_lower 1 (sample_db []) (JS.lit "?!") None
  = Some (JS.lit "post").
Proof. reflexivity. Qed.

Example slug_suffix_counts_up :
  generateUniqueSlug ascii_lower 3
    (sample_db [sample_post "hello" 1000 true 0;
                sample_post "hello-1" 2000 true 0])
    (JS.lit "Hello") (Some (JS.lit "id-3"))
  = Some (JS.lit "hello-2").
Proof. reflexivity. Qed.

Example slug_keeps_own :
  generateUniqueSlug ascii_lower 2
    (sample_db [sample_post "hello" 1000 true 0])
    (JS.lit "Hello!") (Some (JS.lit "hello"))
  = Some (JS.lit "hello").
Proof. reflexivity. Qed.

(** The scenario of the specification: "Hello" is created in an empty
    store, then "World"; the second creation generates the page of "World"
    and regenerates that of "Hello", whose next link now leads to it. *)
Example hello_world_scenario :
  exists out1 out2,
    post_posts ascii_lower stringify_tags (sample_db []) ∅
      (sample_body "Hello") (JS.lit "id-1") 1000 = Some out1
    /\ map Post.slug (background out1) = [JS.lit "hello"]
    /\ post_posts ascii_lower stringify_tags (db_after out1) (settled out1)
         (sample_body "World") (JS.lit "id-2") 1001 = Some out2
    /\ map Post.slug (background out2) = [JS.lit "world"; JS.lit "hello"]
    /\ prev_published (db_after out1) (Some 1000) = None
    /\ next_published (db_after out1) (Some 1000) = None
    /\ option_map Post.slug (prev_published (db_after out2) (Some 1001))
       = Some (JS.lit "hello")
    /\ next_published (db_after out2) (Some 1001) = None
    /\ option_map Post.slug (next_published (db_after out2) (Some 1000))
       = Some (JS.lit "world")
    /\ settled out2 !! JS.lit "hello"
       <> settled out1 !! JS.lit "hello".
Proof.
  eexists. eexists. split; [reflexivity|]. split; [reflexivity|].
  split; [reflexivity|].
  repeat split; try (vm_compute; reflexivity).
  vm_compute. intros H. discriminate H.
Qed.

(** The slug [hello] is taken by the first post, freed when that post is
    re-titled, and then given to the second post on its re-titling. *)
Example freed_slug_scenario :
  exists out1 out2 out3 out4,
    post_posts ascii_lower stringify_tags (sample_db []) ∅
      (sample_body "Hello") (JS.lit "id-1") 1000 = Some out1
    /\ post_posts ascii_lower stringify_tags (db_after out1) ∅
         (sample_body "Hello") (JS.lit "id-2") 2000 = Some out2
    /\ map Post.slug (posts (db_after out2))
       = [JS.lit "hello"; JS.lit "hello-1"]
    /\ put_posts_id ascii_lower stringify_tags (db_after out2) ∅
         (JS.lit "id-1") (sample_body "Other") = Some out3
    /\ map Post.slug (posts (db_after out3))
       = [JS.lit "other"; JS.lit "hello-1"]
    /\ put_posts_id ascii_lower stringify_tags (db_after out3) ∅
         (JS.lit "id-2") (sample_body "hello") = Some out4
    /\ status out4 = 200%nat
    /\ map Post.slug (posts (db_after out4)) = [JS.lit "other"; JS.lit "hello"].
Proof. do 4 eexists. repeat split. Qed.

(** Three comments of one IP within a minute are stored, the fourth is
    refused, and one sent after the minute has passed is stored again. *)
Example rate_limit_scenario :
  let r := sample_submission "10.0.0.9" "ann" in
  let out1 := post_comments (comment_db [] []) ∅ (JS.lit "p1") r (JS.lit "c1") 1000 in
  let out2 := post_comments (db_after out1) ∅ (JS.lit "p1") r (JS.lit "c2") 2000 in
  let out3 := post_comments (db_after out2) ∅ (JS.lit "p1") r (JS.lit "c3") 3000 in
  let out4 := post_comments (db_after out3) ∅ (JS.lit "p1") r (JS.lit "c4") 4000 in
  let out5 := post_comments (db_after out4) ∅ (JS.lit "p1") r (JS.lit "c5") 61001 in
  map status [out1; out2; out3; out4; out5] = [201; 201; 201; 429; 201]%nat
  /\ map Comment.id (comments (db_after out4))
     = [JS.lit "c1"; JS.lit "c2"; JS.lit "c3"]
  /\ map Comment.id (comments (db_after out5))
     = [JS.lit "c1"; JS.lit "c2"; JS.lit "c3"; JS.lit "c5"].
Proof. repeat split. Qed.

(** ** The post handlers always answer *)

Section Totality.

Variable toLowerCase : jsstring -> jsstring.
Variable JSON_stringify : list jsstring -> jsstring.

Lemma generateUniqueSlug_returns (db : DB) (title : jsstring)
    (excludeId : option jsstring) :
  exists slug,
    generateUniqueSlug toLowerCase (slug_fuel db) db title excludeId = Some slug
    /\ JS.truthy slug = true
    /\ slug_taken db slug excludeId = false.
Proof.
  unfold generateUniqueSlug. fold (start_slug toLowerCase title).
  destruct (slug_loop_returns db excludeId (start_slug toLowerCase title)
              (slug_fuel db) (le_n _)) as [slug Hslug].
  exists slug. split; [exact Hslug|].
  destruct (slug_loop_break _ _ _ _ _ _ Hslug) as (k & _ & -> & Hfree & _).
  split; [|exact Hfree].
  assert (JS.truthy (start_slug toLowerCase title) = true) as Hstart.
  { unfold start_slug.
    destruct (JS.truthy (base_slug toLowerCase title)) eqn:E;
      [exact E|reflexivity]. }
  destruct k; simpl; [exact Hstart|].
  destruct (start_slug toLowerCase title); [discriminate|reflexivity].
Qed.

Lemma post_posts_returns (db : DB) (pages : R2) (body : Body.t)
    (id : jsstring) (now : Z) :
  exists out,
    post_posts toLowerCase JSON_stringify db pages body id now = Some out.
Proof.
  unfold post_posts. destruct (negb _); [eauto|].
  destruct (generateUniqueSlug_returns db (default [] (Body.title body))
              (Some id)) as (slug & -> & _).
  cbv zeta. destruct (insert_post db _); eauto.
Qed.

(** X1. A creation with a title and an unused, non-empty id is answered
    with 201: the slug the loop returns never trips the UNIQUE constraint. *)
Lemma post_posts_succeeds (db : DB) (pages : R2) (body : Body.t)
    (id : jsstring) (now : Z) :
  JS.truthy_opt (Body.title body) = true ->
  JS.truthy id = true ->
  (forall p, p ∈ posts db -> Post.id p <> id) ->
  exists out,
    post_posts toLowerCase JSON_stringify db pages body id now = Some out
    /\ status out = 201%nat.
Proof.
  intros Htitle Hid Hfresh. unfold post_posts. rewrite Htitle. simpl.
  destruct (generateUniqueSlug_returns db (default [] (Body.title body))
              (Some id)) as (slug & -> & Hslug & Hfree).
  rewrite Hslug. unfold insert_post. simpl.
  destruct (existsb _ (posts db)) eqn:Hex; [exfalso|eauto].
  apply existsb_exists in Hex as (p & Hp & Hc).
  apply list_elem_of_In in Hp. apply orb_true_iff in Hc as [Hc|Hc];
    apply bool_decide_eq_true in Hc.
  - now apply (Hfresh p).
  - apply (slug_free_other db (Some id) slug p Hfree Hp); [|exact Hc].
    intros [= Heq]. now apply (Hfresh p).
Qed.

Lemma put_posts_id_returns (db : DB) (pages : R2) (id : jsstring)
    (body : Body.t) :
  exists out,
    put_posts_id toLowerCase JSON_stringify db pages id body = Some out.
Proof.
  unfold put_posts_id. destruct (post_by_id db id) as [p|]; [|eauto].
  cbv zeta.
  destruct (generateUniqueSlug_returns db (default [] (Body.title body))
              (Some id)) as (slug & -> & _).
  simpl. destruct (match Body.title body with Some _ => _ | None => _ end);
    simpl; destruct (update_post db id _); eauto.
Qed.

End Totality.

(** * Further properties *)

(** ** What a background task does to the bucket *)

Section Bucket.

Variable marked_parse : jsstring -> jsstring.
Variable toLocaleDateString : Z -> jsstring.
Variable toLocaleString : Z -> jsstring.
Variable JSON_parse : jsstring -> list jsstring.
Variable getFullYear : Z -> nat.
Variable tpl : Fragment -> jsstring.

Local Abbreviation html :=
  (htmlContent marked_parse toLocaleDateString toLocaleString JSON_parse
     getFullYear tpl).
Local Abbreviation regenerate :=
  (regenerate_all marked_parse toLocaleDateString toLocaleString JSON_parse
     getFullYear tpl).
Local Abbreviation run :=
  (run_background marked_parse toLocaleDateString toLocaleString JSON_parse
     getFullYear tpl).

Lemma regenerate_all_untouched (clock : nat -> Z) (db : DB)
    (calls : list Post.t) (pages : R2) (key : jsstring) :
  key ∉ map Post.slug calls ->
  regenerate clock db calls pages !! key = pages !! key.
Proof.
  revert clock pages. induction calls as [|p calls IH]; intros clock pages Hk;
    simpl; [reflexivity|].
  simpl in Hk. apply not_elem_of_cons in Hk as [Hp Hk].
  rewrite IH by exact Hk. unfold generateAndStoreStaticPage.
  apply lookup_insert_ne. congruence.
Qed.

Lemma regenerate_all_written (clock : nat -> Z) (db : DB)
    (calls : list Post.t) (pages : R2) (key : jsstring) :
  key ∈ map Post.slug calls ->
  exists k p, p ∈ calls /\ Post.slug p = key
    /\ regenerate clock db calls pages !! key = Some (html (clock k) db p).
Proof.
  revert clock pages. induction calls as [|p calls IH]; intros clock pages Hk;
    simpl in *; [inversion Hk|].
  destruct (decide (key ∈ map Post.slug calls)) as [Hin|Hout].
  - destruct (IH (fun k => clock (S k))
                (generateAndStoreStaticPage marked_parse toLocaleDateString
                   toLocaleString JSON_parse getFullYear tpl (clock O) db p
                   pages) Hin) as (k & q & Hq & Hslug & Hlook).
    exists (S k), q. split; [now right|]. split; [exact Hslug|exact Hlook].
  - apply elem_of_cons in Hk as [Hk|Hk]; [|contradiction].
    exists O, p. split; [now left|]. split; [now symmetry|].
    rewrite regenerate_all_untouched by exact Hout.
    unfold generateAndStoreStaticPage. subst key. apply lookup_insert_eq.
Qed.

(** X5. A background task rewrites the blobs under the slugs of the posts it
    generates and no other: a key that is no such slug keeps what the bucket
    held, and a key that is one holds a page generated for a post of the
    task with that slug. *)
Theorem regenerate_all_frame (clock : nat -> Z) (db : DB)
    (calls : list Post.t) (pages : R2) (key : jsstring) :
  (key ∉ map Post.slug calls ->
   regenerate clock db calls pages !! key = pages !! key)
  /\ (key ∈ map Post.slug calls ->
      exists k p, p ∈ calls /\ Post.slug p = key
        /\ regenerate clock db calls pages !! key
           = Some (html (clock k) db p)).
Proof.
  split; [apply regenerate_all_untouched|apply regenerate_all_written].
Qed.

(** The first call of a task decides the blob under its slug when no later
    call has that slug. *)
Lemma regenerate_all_first (clock : nat -> Z) (db : DB) (p : Post.t)
    (rest : list Post.t) (pages : R2) :
  Post.slug p ∉ map Post.slug rest ->
  regenerate clock db (p :: rest) pages !! Post.slug p
  = Some (html (clock O) db p).
Proof.
  intros Hout. simpl. rewrite regenerate_all_untouched by exact Hout.
  unfold generateAndStoreStaticPage. apply lookup_insert_eq.
Qed.

(** *** Deleting a post takes its page offline *)

Lemma slug_differs (db : DB) (p q : Post.t) :
  posts_wf db -> p ∈ posts db -> q ∈ posts db -> p <> q ->
  Post.slug q <> Post.slug p.
Proof.
  intros (_ & Hslug & _) Hp Hq Hne Heq. apply Hne.
  now apply (NoDup_map_inj Post.slug (posts db)).
Qed.

(** X6. On a store that satisfies its constraints, once a successful
    deletion and its task are through, the blog route answers 404 for the
    slug of the deleted post: the regenerated neighbours carry other
    slugs. *)
Theorem deleted_page_not_served (clock : nat -> Z) (db : DB) (pages : R2)
    (id : jsstring) (p : Post.t) :
  posts_wf db ->
  post_by_id db id = Some p ->
  get_blog_slug (run clock (delete_posts_id db pages id)) (Post.slug p)
  = (404%nat, None).
Proof.
  intros Hwf Hp. destruct (post_by_id_elem _ _ _ Hp) as [Hin Hid].
  unfold get_blog_slug, run_background, delete_posts_id. rewrite Hp. simpl.
  rewrite regenerate_all_untouched; [now rewrite lookup_delete_eq|].
  intros Hmem. apply list_elem_of_In, in_map_iff in Hmem as (q & Hslug & Hq).
  apply in_app_or in Hq.
  assert (q ∈ posts db /\ q <> p) as [Hqin Hne].
  { destruct Hq as [Hq|Hq].
    - destruct (prev_any db (Post.published_at p)) as [m|] eqn:Hm;
        [|destruct Hq]. destruct Hq as [<-|[]].
      apply prev_any_spec in Hm as [Hm Hb]. split; [exact Hm|]. intros ->.
      unfold published_before in Hb. destruct (Post.published_at p);
        [lia|discriminate].
    - destruct (next_any db (Post.published_at p)) as [m|] eqn:Hm;
        [|destruct Hq]. destruct Hq as [<-|[]].
      apply next_any_spec in Hm as [Hm Hb]. split; [exact Hm|]. intros ->.
      unfold published_after in Hb. destruct (Post.published_at p);
        [lia|discriminate]. }
  now apply (slug_differs db p q Hwf Hin Hqin).
Qed.

End Bucket.

(** ** Pages after a creation or an update *)

Section Served.

Variable toLowerCase : jsstring -> jsstring.
Variable JSON_stringify : list jsstring -> jsstring.
Variable marked_parse : jsstring -> jsstring.
Variable toLocaleDateString : Z -> jsstring.
Variable toLocaleString : Z -> jsstring.
Variable JSON_parse : jsstring -> list jsstring.
Variable getFullYear : Z -> nat.
Variable tpl : Fragment -> jsstring.

Local Abbreviation html :=
  (htmlContent marked_parse toLocaleDateString toLocaleString JSON_parse
     getFullYear tpl).
Local Abbreviation run :=
  (run_background marked_parse toLocaleDateString toLocaleString JSON_parse
     getFullYear tpl).

(** The parts of a successful creation. *)
Lemma post_posts_shape (db : DB) (pages : R2) (body : Body.t) (id : jsstring)
    (now : Z) (out : Outcome) :
  post_posts toLowerCase JSON_stringify db pages body id now = Some out ->
  status out = 201%nat ->
  exists row newPost,
    posts (db_after out) = posts db ++ [row]
    /\ pages_after out = pages
    /\ Post.id row = id /\ Post.slug newPost = Post.slug row
    /\ (forall q, q ∈ posts db -> Post.slug q <> Post.slug row)
    /\ background out
       = newPost :: option_list (prev_published (db_after out) (Some now))
    /\ Post.published_at row = Some now.
Proof.
  intros H Hst. unfold post_posts in H.
  destruct (negb (JS.truthy_opt (Body.title body)));
    [injection H as <-; discriminate|].
  destruct (generateUniqueSlug _ _ _ _ _) as [slug0|]; [|discriminate].
  cbv zeta in H. unfold insert_post in H.
  destruct (existsb _ (posts db)) eqn:Hfresh; injection H as <-;
    [discriminate|].
  match goal with
  | |- context [with_posts db (posts db ++ [?r])] =>
      match goal with
      | |- context [?np :: match prev_published _ _ with _ => _ end] =>
          exists r, np
      end
  end.
  simpl. split; [reflexivity|]. split; [reflexivity|].
  split; [reflexivity|]. split; [reflexivity|]. split.
  - intros q Hq Heq. apply not_true_iff_false in Hfresh. apply Hfresh.
    apply existsb_exists. exists q. split; [now apply list_elem_of_In|].
    apply orb_true_iff. right. now apply bool_decide_eq_true.
  - split; [|reflexivity].
    now destruct (prev_published _ _).
Qed.

(** X7. Once a successful creation and its task are through, the blog
    route serves, under the slug the response names, the page generated for
    the new post; the regeneration of the earlier neighbour does not write
    over it. *)
Theorem created_page_served (clock : nat -> Z) (db : DB) (pages : R2)
    (body : Body.t) (id : jsstring) (now : Z) (out : Outcome) :
  post_posts toLowerCase JSON_stringify db pages body id now = Some out ->
  status out = 201%nat ->
  exists newPost,
    head (background out) = Some newPost
    /\ Post.id newPost = id
    /\ post_by_id (db_after out) id <> None
    /\ get_blog_slug (run clock out) (Post.slug newPost)
       = (200%nat, Some (html (clock O) (db_after out) newPost)).
Proof.
  intros H Hst.
  assert (Hid : exists np, head (background out) = Some np /\ Post.id np = id).
  { unfold post_posts in H.
    destruct (negb (JS.truthy_opt (Body.title body)));
      [injection H as <-; discriminate|].
    destruct (generateUniqueSlug _ _ _ _ _) as [slug0|]; [|discriminate].
    cbv zeta in H. destruct (insert_post db _); injection H as <-;
      [|discriminate]. simpl. eauto. }
  destruct (post_posts_shape db pages body id now out H Hst)
    as (row & newPost & Hposts & Hpages & Hrow & Hslug & Hfresh & Hbg & Hat).
  destruct Hid as (np & Hhd & Hnp). rewrite Hbg in Hhd. injection Hhd as <-.
  exists newPost. rewrite Hbg. split; [reflexivity|]. split; [exact Hnp|].
  split.
  { unfold post_by_id, first_where. rewrite Hposts.
    intros Hnone.
    assert (In row (posts db ++ [row])) as Hr
      by (apply in_or_app; right; now left).
    pose proof (find_none _ _ Hnone row Hr) as Hc. simpl in Hc.
    now rewrite (bool_decide_eq_true_2 _ Hrow) in Hc. }
  unfold get_blog_slug, run_background. rewrite Hbg, Hpages.
  rewrite regenerate_all_first; [reflexivity|].
  intros Hmem. rewrite Hslug in Hmem.
  destruct (prev_published (db_after out) (Some now)) as [m|] eqn:Hm;
    simpl in Hmem; [|inversion Hmem].
  apply list_elem_of_singleton in Hmem.
  pose proof (prev_published_spec (db_after out) now) as Hspec.
  rewrite Hm in Hspec. destruct Hspec as (Hin & _ & a & Ha & Hlt & _).
  rewrite Hposts in Hin. apply elem_of_app in Hin as [Hin|Hin].
  - now apply (Hfresh m Hin).
  - apply list_elem_of_singleton in Hin. subst m. rewrite Hat in Ha.
    injection Ha as <-. lia.
Qed.

(** The parts of a successful update. *)
Lemma put_posts_id_shape (db : DB) (pages : R2) (id : jsstring)
    (body : Body.t) (out : Outcome) :
  put_posts_id toLowerCase JSON_stringify db pages id body = Some out ->
  status out = 200%nat ->
  exists p new_slug,
    post_by_id db id = Some p
    /\ pages_after out = pages
    /\ posts (db_after out)
       = map (fun q => if bool_decide (Post.id q = id)
                       then apply_updates JSON_stringify body new_slug q
                       else q) (posts db)
    /\ background out
       = put_background (db_after out)
           (merge_updates JSON_stringify body new_slug p)
           (add_post (next_any db (Post.published_at p))
              (add_post (prev_any db (Post.published_at p)) [])).
Proof.
  intros Hput Hst. unfold put_posts_id in Hput.
  destruct (post_by_id db id) as [p|] eqn:Hp;
    [|injection Hput as <-; discriminate].
  cbv zeta in Hput.
  match type of Hput with
  | match ?s with _ => _ end = _ => destruct s as [new_slug|]
  end; [|discriminate].
  unfold update_post in Hput.
  destruct (existsb _ _); injection Hput as <-; [discriminate|].
  exists p, new_slug. simpl. repeat split.
Qed.

(** X8. On a store that satisfies its constraints, once a successful update
    and its task are through, the blog route serves under the post's
    current slug the page generated for the updated post, whatever the
    update did to [is_published] or [is_draft]; and when the update changed
    the slug, the blob under the former slug is what it was before: the
    handler never deletes it. *)
Theorem updated_page_served (clock : nat -> Z) (db : DB) (pages : R2)
    (id : jsstring) (body : Body.t) (out : Outcome) :
  posts_wf db ->
  put_posts_id toLowerCase JSON_stringify db pages id body = Some out ->
  status out = 200%nat ->
  exists p row updatedPost,
    post_by_id db id = Some p
    /\ post_by_id (db_after out) id = Some row
    /\ head (background out) = Some updatedPost
    /\ Post.slug updatedPost = Post.slug row
    /\ Post.is_published updatedPost = Post.is_published row
    /\ get_blog_slug (run clock out) (Post.slug row)
       = (200%nat, Some (html (clock O) (db_after out) updatedPost))
    /\ (Post.slug row <> Post.slug p ->
        run clock out !! Post.slug p = pages !! Post.slug p).
Proof.
  intros Hwf Hput Hst.
  destruct (put_posts_id_shape db pages id body out Hput Hst)
    as (p & new_slug & Hp & Hpages & Hposts & Hbg).
  destruct (post_by_id_elem _ _ _ Hp) as [Hin Hpid].
  pose proof (put_posts_id_wf toLowerCase JSON_stringify db pages id body out
                Hwf Hput) as Hwf'.
  set (f := apply_updates JSON_stringify body new_slug) in *.
  set (g := fun q => if bool_decide (Post.id q = id) then f q else q) in *.
  assert (Hg : forall q, Post.id (g q) = Post.id q)
    by (intros q; unfold g; destruct (bool_decide _); reflexivity).
  assert (Hrow : f p ∈ posts (db_after out)).
  { rewrite Hposts. apply list_elem_of_In, in_map_iff. exists p.
    split; [|now apply list_elem_of_In].
    unfold g. now rewrite (bool_decide_eq_true_2 _ Hpid). }
  assert (Hlook : post_by_id (db_after out) id = Some (f p)).
  { rewrite <- Hpid. change (Post.id p) with (Post.id (f p)).
    apply post_by_id_wf; [apply Hwf'|exact Hrow]. }
  (* every other call of the task is an unchanged row of the old store *)
  assert (Hrest : forall q, q ∈ tail (background out) ->
            q ∈ posts db /\ q ∈ posts (db_after out) /\ Post.id q <> id).
  { intros q Hq.
    assert (Hq' : q ∈ posts (db_after out) /\ Post.id q <> id).
    { set (old := add_post (next_any db (Post.published_at p))
                    (add_post (prev_any db (Post.published_at p)) [])) in *.
      rewrite Hbg in Hq. unfold put_background in Hq.
      cbn [tail app] in Hq. cbv beta zeta in Hq.
      rewrite !elem_of_app in Hq. rewrite list_elem_of_omap in Hq.
      change (Post.published_at (merge_updates JSON_stringify body new_slug p))
        with (Post.published_at (f p)) in Hq.
      assert (Hnb : forall m, m ∈ posts (db_after out) ->
                (published_before (Post.published_at (f p)) m = true
                 \/ published_after (Post.published_at (f p)) m = true) ->
                Post.id m <> id).
      { intros m Hm Hside Heq.
        assert (m = f p) as ->.
        { apply (NoDup_map_inj Post.id (posts (db_after out)));
            [apply Hwf'|exact Hm|exact Hrow|]. now rewrite Heq. }
        unfold published_before, published_after in Hside.
        destruct (Post.published_at (f p)); destruct Hside; try discriminate;
          lia. }
      destruct Hq as [Hq|[Hq|(i & Hi & Hq)]].
      - destruct (prev_any (db_after out) (Post.published_at (f p)))
          as [m|] eqn:Hm; [|inversion Hq].
        destruct (set_has old (Post.id m)); [inversion Hq|].
        apply list_elem_of_singleton in Hq. subst q.
        apply prev_any_spec in Hm as [Hm Hb]. split; [exact Hm|].
        apply Hnb; auto.
      - destruct (next_any (db_after out) (Post.published_at (f p)))
          as [m|] eqn:Hm; [|inversion Hq].
        destruct (set_has old (Post.id m)); [inversion Hq|].
        apply list_elem_of_singleton in Hq. subst q.
        apply next_any_spec in Hm as [Hm Hb]. split; [exact Hm|].
        apply Hnb; auto.
      - apply post_by_id_elem in Hq as [Hq <-]. split; [exact Hq|].
        unfold old in Hi. rewrite !add_post_elem, elem_of_nil in Hi.
        destruct Hi as [(m & Hm & ->)|[(m & Hm & ->)|[]]].
        + apply next_any_spec in Hm as [Hm Hb]. intros Heq.
          assert (m = p) as -> by
            (apply (NoDup_map_inj Post.id (posts db));
             [apply Hwf|exact Hm|exact Hin|congruence]).
          unfold published_after in Hb. destruct (Post.published_at p);
            [lia|discriminate].
        + apply prev_any_spec in Hm as [Hm Hb]. intros Heq.
          assert (m = p) as -> by
            (apply (NoDup_map_inj Post.id (posts db));
             [apply Hwf|exact Hm|exact Hin|congruence]).
          unfold published_before in Hb. destruct (Post.published_at p);
            [lia|discriminate]. }
    destruct Hq' as [Hq' Hne]. split; [|split; assumption].
    rewrite Hposts in Hq'. apply list_elem_of_In, in_map_iff in Hq'
      as (q0 & Hq0 & Hin0).
    unfold g in Hq0. destruct (bool_decide_reflect (Post.id q0 = id)) as [He|He].
    - subst q. now destruct Hne.
    - subst q. now apply list_elem_of_In. }
  exists p, (f p), (merge_updates JSON_stringify body new_slug p).
  split; [exact Hp|]. split; [exact Hlook|].
  split; [now rewrite Hbg|]. split; [reflexivity|]. split; [reflexivity|].
  assert (Hbg' : background out
            = merge_updates JSON_stringify body new_slug p
              :: tail (background out)) by (now rewrite Hbg).
  split.
  - unfold get_blog_slug, run_background. rewrite Hbg'.
    change (Post.slug (f p))
      with (Post.slug (merge_updates JSON_stringify body new_slug p)).
    rewrite regenerate_all_first; [reflexivity|].
    intros Hmem. apply list_elem_of_In, in_map_iff in Hmem as (q & Hslug & Hq).
    apply list_elem_of_In in Hq. destruct (Hrest q Hq) as (_ & Hq' & Hne).
    apply (slug_differs (db_after out) (f p) q Hwf' Hrow Hq');
      [|exact Hslug].
    intros <-. now apply Hne.
  - intros Hchanged. unfold run_background. rewrite Hpages.
    apply regenerate_all_untouched. rewrite Hbg'. simpl.
    apply not_elem_of_cons. split; [intros Heq; now apply Hchanged|].
    intros Hmem. apply list_elem_of_In, in_map_iff in Hmem as (q & Hslug & Hq).
    apply list_elem_of_In in Hq. destruct (Hrest q Hq) as (Hq0 & _ & Hne).
    apply (slug_differs db p q Hwf Hin Hq0); [|exact Hslug].
    intros <-. now apply Hne.
Qed.

End Served.

(** ** Comments and the pages *)

Section CommentPages.

Variable marked_parse : jsstring -> jsstring.
Variable toLocaleDateString : Z -> jsstring.
Variable toLocaleString : Z -> jsstring.
Variable JSON_parse : jsstring -> list jsstring.
Variable getFullYear : Z -> nat.
Variable tpl : Fragment -> jsstring.

Local Abbreviation html :=
  (htmlContent marked_parse toLocaleDateString toLocaleString JSON_parse
     getFullYear tpl).

(** The page of a post reads the store through the posts, the settings,
    the view counters and the post's approved comments. *)
Lemma htmlContent_ext (now : Z) (db1 db2 : DB) (post : Post.t) :
  posts db1 = posts db2 ->
  settings db1 = settings db2 ->
  post_views db1 = post_views db2 ->
  approved_comments db1 (Post.id post) = approved_comments db2 (Post.id post) ->
  html now db1 post = html now db2 post.
Proof.
  intros Hposts Hsettings Hviews Hcomments.
  unfold htmlContent, prev_published, next_published, setting.
  now rewrite Hposts, Hsettings, Hviews, Hcomments.
Qed.

Lemma post_comments_posts (db : DB) (pages : R2) (postId : jsstring)
    (r : Submission.t) (commentId : jsstring) (t : Z) :
  let db' := db_after (post_comments db pages postId r commentId t) in
  posts db' = posts db /\ settings db' = settings db
  /\ post_views db' = post_views db /\ ip_blacklist db' = ip_blacklist db
  /\ forall post, approved_comments db' post = approved_comments db post.
Proof.
  unfold post_comments. cbv zeta.
  destruct (isIpBlacklisted db (userIp r)); [now repeat split|].
  destruct (post_by_id db postId); [|now repeat split].
  destruct (blank _ || blank _); [now repeat split|].
  destruct (if JS.truthy_opt (Submission.parent_id r) then _ else None)
    as [[parent|]|]; try (now repeat split);
    (destruct (3 <=? _)%nat; [now repeat split|]);
    (destruct (existsb _ (comments db)); [now repeat split|]);
    simpl; repeat split; intros post; unfold approved_comments; simpl;
    rewrite List.filter_app; simpl; rewrite andb_false_r; apply app_nil_r.
Qed.

(** X9. A comment submission, whatever its answer, changes the text of no
    page: the comment it may store is unapproved, and the page queries
    count and list approved comments only. The regeneration the handler
    schedules therefore writes the page that a regeneration just before the
    submission would have written. *)
Theorem submission_changes_no_page (now : Z) (db : DB) (pages : R2)
    (postId : jsstring) (r : Submission.t) (commentId : jsstring) (t : Z)
    (post : Post.t) :
  html now (db_after (post_comments db pages postId r commentId t)) post
  = html now db post.
Proof.
  destruct (post_comments_posts db pages postId r commentId t)
    as (Hposts & Hsettings & Hviews & _ & Hcomments).
  apply htmlContent_ext; auto.
Qed.

Lemma join_infix (x : jsstring) (parts : list jsstring) :
  x ∈ parts -> exists pre suf, JS.join [] parts = pre ++ x ++ suf.
Proof.
  induction parts as [|y parts IH]; intros Hx; [inversion Hx|].
  assert (Hj : JS.join [] (y :: parts) = y ++ JS.join [] parts).
  { destruct parts; simpl; [now rewrite app_nil_r|reflexivity]. }
  rewrite Hj. apply elem_of_cons in Hx as [->|Hx].
  - exists [], (JS.join [] parts). reflexivity.
  - destruct (IH Hx) as (pre & suf & ->). exists (y ++ pre), suf.
    now rewrite <- app_assoc.
Qed.

Lemma insert_by_created_at_elem (c d : Comment.t) (l : list Comment.t) :
  d ∈ insert_by_created_at c l <-> d = c \/ d ∈ l.
Proof.
  induction l as [|e l IH]; simpl.
  - rewrite list_elem_of_singleton, elem_of_nil. tauto.
  - destruct (Comment.created_at c <? Comment.created_at e).
    + rewrite !elem_of_cons. tauto.
    + rewrite !elem_of_cons, IH. tauto.
Qed.

Lemma order_by_created_at_elem (d : Comment.t) (l : list Comment.t) :
  d ∈ order_by_created_at l <-> d ∈ l.
Proof.
  unfold order_by_created_at.
  rewrite <- (rev_involutive l) at 2.
  generalize (rev l). intros k. induction k as [|c k IH]; simpl.
  - reflexivity.
  - rewrite insert_by_created_at_elem, IH, elem_of_app,
      list_elem_of_singleton. tauto.
Qed.

Lemma infix_skip (a t x : jsstring) :
  (exists pre suf, t = pre ++ x ++ suf) ->
  exists pre suf, a ++ t = pre ++ x ++ suf.
Proof.
  intros (pre & suf & ->). exists (a ++ pre), suf. now rewrite <- app_assoc.
Qed.

Lemma infix_head (h t x : jsstring) :
  (exists pre suf, h = pre ++ x ++ suf) ->
  exists pre suf, h ++ t = pre ++ x ++ suf.
Proof.
  intros (pre & suf & ->). exists pre, (suf ++ t).
  now rewrite <- !app_assoc.
Qed.

Lemma infix_self (x : jsstring) : exists pre suf, x = pre ++ x ++ suf.
Proof. exists [], []. now rewrite app_nil_r. Qed.

Ltac find_infix H :=
  repeat first [ apply infix_head; exact H | apply infix_skip ].

(** X10. The page of a post carries the author and the content of each of
    its approved comments as they are stored, unit for unit: the template
    interpolates them without escaping. *)
Theorem approved_comment_verbatim (now : Z) (db : DB) (post : Post.t)
    (c : Comment.t) :
  c ∈ comments db ->
  Comment.post_id c = Post.id post ->
  Comment.is_approved c = 1 ->
  (exists pre suf, html now db post = pre ++ Comment.author c ++ suf)
  /\ (exists pre suf, html now db post = pre ++ Comment.content c ++ suf).
Proof.
  intros Hc Hpost Happroved.
  assert (Hin : c ∈ order_by_created_at (approved_comments db (Post.id post))).
  { apply order_by_created_at_elem. unfold approved_comments.
    apply list_elem_of_In, filter_In. split; [now apply list_elem_of_In|].
    rewrite (bool_decide_eq_true_2 _ Hpost). simpl. lia. }
  assert (Hpart : commentHtml toLocaleString tpl c
            ∈ map (commentHtml toLocaleString tpl)
                (order_by_created_at (approved_comments db (Post.id post)))).
  { apply list_elem_of_In, in_map. now apply list_elem_of_In. }
  apply join_infix in Hpart.
  assert (Hpage : exists pre suf,
            html now db post = pre ++ commentHtml toLocaleString tpl c ++ suf).
  { destruct (commentHtml toLocaleString tpl c) as [|x w] eqn:E.
    - exists [], (html now db post). reflexivity.
    - unfold htmlContent. cbv zeta.
      generalize dependent
        (JS.join [] (map (commentHtml toLocaleString tpl)
           (order_by_created_at (approved_comments db (Post.id post))))).
      intros joined Hpart.
      assert (JS.truthy joined = true) as ->.
      { destruct Hpart as (pre & suf & ->). destruct pre; reflexivity. }
      find_infix Hpart. }
  destruct Hpage as (pre & suf & ->). split; apply infix_skip, infix_head.
  - unfold commentHtml.
    repeat first [ apply infix_head; apply infix_self | apply infix_skip ].
  - unfold commentHtml.
    repeat first [ apply infix_head; apply infix_self | apply infix_skip ].
Qed.

End CommentPages.

(** ** Comment moderation *)

Lemma filter_map_same {A} (P : A -> bool) (h : A -> A) (l : list A) :
  (forall e, e ∈ l -> h e = e \/ (P (h e) = false /\ P e = false)) ->
  List.filter P (map h l) = List.filter P l.
Proof.
  induction l as [|a l IH]; intros H; simpl; [reflexivity|].
  rewrite IH by (intros e He; apply H; now right).
  destruct (H a) as [->|[-> ->]]; [now left|reflexivity|reflexivity].
Qed.

Lemma filter_filter_same {A} (P keep : A -> bool) (l : list A) :
  (forall e, e ∈ l -> keep e = true \/ P e = false) ->
  List.filter P (List.filter keep l) = List.filter P l.
Proof.
  induction l as [|a l IH]; intros H; simpl; [reflexivity|].
  specialize (IH (fun e He => H e (proj2 (elem_of_cons _ _ _) (or_intror He)))).
  destruct (H a) as [Hk|Hp]; [now left| |].
  - rewrite Hk. simpl. now rewrite IH.
  - destruct (keep a); simpl; rewrite Hp; exact IH.
Qed.

Lemma comment_by_id_elem (db : DB) (i : jsstring) (c : Comment.t) :
  comment_by_id db i = Some c -> c ∈ comments db /\ Comment.id c = i.
Proof.
  unfold comment_by_id, first_where. intros H.
  apply find_some in H as [Hin Hid].
  split; [now apply list_elem_of_In|now apply bool_decide_eq_true in Hid].
Qed.

Section Moderation.

Variable marked_parse : jsstring -> jsstring.
Variable toLocaleDateString : Z -> jsstring.
Variable toLocaleString : Z -> jsstring.
Variable JSON_parse : jsstring -> list jsstring.
Variable getFullYear : Z -> nat.
Variable tpl : Fragment -> jsstring.

Local Abbreviation html :=
  (htmlContent marked_parse toLocaleDateString toLocaleString JSON_parse
     getFullYear tpl).

(** X11. Setting the approval flag of a stored comment (comment ids being
    unique) is answered with 200, rewrites that comment alone, and its task
    generates the page of the owning post and no other; that is enough,
    for the text of every other post's page is what it was. With the flag
    set to 1 the comment is among the approved comments of its post. *)
Theorem approval_touches_one_page (db : DB) (pages : R2) (id : jsstring)
    (v : Z) (c : Comment.t) :
  NoDup (map Comment.id (comments db)) ->
  comment_by_id db id = Some c ->
  status (put_comments_id db pages id v) = 200%nat
  /\ posts (db_after (put_comments_id db pages id v)) = posts db
  /\ pages_after (put_comments_id db pages id v) = pages
  /\ background (put_comments_id db pages id v)
     = owner_page db (Comment.post_id c)
  /\ (forall d, d ∈ comments (db_after (put_comments_id db pages id v)) <->
        d = set_is_approved v c \/ (d ∈ comments db /\ Comment.id d <> id))
  /\ (v = 1 ->
      set_is_approved v c
      ∈ approved_comments (db_after (put_comments_id db pages id v))
          (Comment.post_id c))
  /\ (forall now post, Post.id post <> Comment.post_id c ->
        html now (db_after (put_comments_id db pages id v)) post
        = html now db post).
Proof.
  intros Hnd Hc. destruct (comment_by_id_elem _ _ _ Hc) as [Hin Hid].
  unfold put_comments_id. rewrite Hc. cbv zeta. simpl.
  set (h := fun e => if bool_decide (Comment.id e = id)
                     then set_is_approved v e else e).
  assert (Hsame : forall e, e ∈ comments db -> Comment.id e = id -> e = c).
  { intros e He Heq. apply (NoDup_map_inj Comment.id (comments db)); auto.
    congruence. }
  assert (Hmem : forall d, d ∈ map h (comments db) <->
            d = set_is_approved v c \/ (d ∈ comments db /\ Comment.id d <> id)).
  { intros d. rewrite list_elem_of_In, in_map_iff. split.
    - intros (e & <- & He). apply list_elem_of_In in He. unfold h.
      destruct (bool_decide_reflect (Comment.id e = id)) as [Heq|Hne].
      + left. now rewrite (Hsame e He Heq).
      + right. split; assumption.
    - intros [->|[Hd Hne]].
      + exists c. split; [|now apply list_elem_of_In].
        unfold h. now rewrite (bool_decide_eq_true_2 _ Hid).
      + exists d. split; [|now apply list_elem_of_In].
        unfold h. now rewrite (bool_decide_eq_false_2 _ Hne). }
  repeat split.
  - apply Hmem.
  - apply Hmem.
  - intros ->. unfold approved_comments. simpl.
    apply list_elem_of_In, filter_In. split.
    + apply list_elem_of_In, Hmem. now left.
    + simpl. now rewrite (bool_decide_eq_true_2 _ eq_refl).
  - intros now post Hpost. apply htmlContent_ext; try reflexivity.
    unfold approved_comments. simpl. apply filter_map_same.
    intros e He. unfold h.
    destruct (bool_decide_reflect (Comment.id e = id)) as [Heq|Hne];
      [right|now left].
    rewrite (Hsame e He Heq). simpl.
    assert (bool_decide (Comment.post_id c = Post.id post) = false) as ->
      by (apply bool_decide_eq_false; congruence).
    split; reflexivity.
Qed.

(** X12. Deleting a stored comment (comment ids being unique) is answered
    with 200, removes that comment and no other, not even the replies that
    name it as their parent, and its task generates the page of the owning
    post alone; the text of every other post's page is what it was. *)
Theorem comment_deletion_touches_one_page (db : DB) (pages : R2)
    (id : jsstring) (c : Comment.t) :
  NoDup (map Comment.id (comments db)) ->
  comment_by_id db id = Some c ->
  status (delete_comments_id db pages id) = 200%nat
  /\ posts (db_after (delete_comments_id db pages id)) = posts db
  /\ pages_after (delete_comments_id db pages id) = pages
  /\ background (delete_comments_id db pages id)
     = owner_page db (Comment.post_id c)
  /\ (forall d, d ∈ comments (db_after (delete_comments_id db pages id)) <->
        d ∈ comments db /\ d <> c)
  /\ comment_by_id (db_after (delete_comments_id db pages id)) id = None
  /\ (forall now post, Post.id post <> Comment.post_id c ->
        html now (db_after (delete_comments_id db pages id)) post
        = html now db post).
Proof.
  intros Hnd Hc. destruct (comment_by_id_elem _ _ _ Hc) as [Hin Hid].
  unfold delete_comments_id. rewrite Hc. cbv zeta. simpl.
  assert (Hsame : forall e, e ∈ comments db -> Comment.id e = id -> e = c).
  { intros e He Heq. apply (NoDup_map_inj Comment.id (comments db)); auto.
    congruence. }
  repeat split.
  - apply list_elem_of_In in H. now apply filter_In in H as [H _];
      apply list_elem_of_In.
  - intros ->. apply list_elem_of_In, filter_In in H as [_ H].
    now rewrite (bool_decide_eq_true_2 _ Hid) in H.
  - intros [Hd Hne]. apply list_elem_of_In, filter_In.
    split; [now apply list_elem_of_In|].
    apply negb_true_iff, bool_decide_eq_false. intros Heq.
    apply Hne. now apply Hsame.
  - unfold comment_by_id, first_where. simpl.
    destruct (List.find _ _) as [e|] eqn:Hfind; [exfalso|reflexivity].
    apply find_some in Hfind as [He Heq]. apply filter_In in He as [_ He].
    now rewrite Heq in He.
  - intros now post Hpost. apply htmlContent_ext; try reflexivity.
    unfold approved_comments. simpl. apply filter_filter_same.
    intros e He.
    destruct (bool_decide_reflect (Comment.id e = id)) as [Heq|Hne];
      [right|now left].
    rewrite (Hsame e He Heq).
    assert (bool_decide (Comment.post_id c = Post.id post) = false) as ->
      by (apply bool_decide_eq_false; congruence).
    reflexivity.
Qed.

End Moderation.

(** ** The constraints of the schema are kept *)

Lemma recategorise_ids (db : DB) (from to : jsstring) :
  map Post.id (posts (recategorise db from to)) = map Post.id (posts db)
  /\ map Post.slug (posts (recategorise db from to)) = map Post.slug (posts db).
Proof.
  unfold recategorise. simpl. rewrite !map_map.
  split; apply map_ext; intros p; now destruct (bool_decide _).
Qed.

Lemma recategorise_wf (db : DB) (from to : jsstring) :
  posts_wf db -> posts_wf (recategorise db from to).
Proof.
  intros (Hid & Hslug & Hne).
  destruct (recategorise_ids db from to) as [Eid Eslug].
  unfold posts_wf. rewrite Eid, Eslug. repeat split; try assumption.
  unfold recategorise. simpl. apply List.Forall_forall.
  intros q Hq. apply in_map_iff in Hq as (p & <- & Hp).
  rewrite List.Forall_forall in Hne. specialize (Hne p Hp).
  now destruct (bool_decide _).
Qed.

Section Integrity.

Variable toLowerCase : jsstring -> jsstring.
Variable JSON_stringify : list jsstring -> jsstring.

Lemma post_posts_frame (db : DB) (pages : R2) (body : Body.t) (id : jsstring)
    (now : Z) (out : Outcome) :
  post_posts toLowerCase JSON_stringify db pages body id now = Some out ->
  comments (db_after out) = comments db
  /\ post_views (db_after out) = post_views db
  /\ settings (db_after out) = settings db
  /\ (forall i, i ∈ map Post.id (posts db) ->
        i ∈ map Post.id (posts (db_after out))).
Proof.
  unfold post_posts.
  destruct (negb _); [intros [= <-]; now repeat split|].
  destruct (generateUniqueSlug _ _ _ _ _) as [slug|]; [|discriminate].
  cbv zeta. unfold insert_post.
  destruct (existsb _ _); intros [= <-]; simpl; repeat split; auto.
  intros i Hi. rewrite map_app. apply elem_of_app. now left.
Qed.

Lemma put_posts_id_frame (db : DB) (pages : R2) (id : jsstring)
    (body : Body.t) (out : Outcome) :
  put_posts_id toLowerCase JSON_stringify db pages id body = Some out ->
  comments (db_after out) = comments db
  /\ post_views (db_after out) = post_views db
  /\ settings (db_after out) = settings db
  /\ map Post.id (posts (db_after out)) = map Post.id (posts db).
Proof.
  unfold put_posts_id.
  destruct (post_by_id db id) as [p|]; [|intros [= <-]; now repeat split].
  cbv zeta.
  match goal with
  | |- match ?s with _ => _ end = _ -> _ => destruct s as [new_slug|]
  end; [|discriminate].
  unfold update_post.
  destruct (existsb _ _); intros [= <-]; simpl; repeat split; auto.
  rewrite map_map. apply map_ext. intros q. now destruct (bool_decide _).
Qed.

(** X13. Every write request keeps the constraints of the schema: post ids
    and slugs stay unique, comment ids stay unique, every comment belongs
    to a stored post and every view counter to a stored post. *)
Theorem store_wf_preserved (db : DB) (pages : R2) (req : Request)
    (out : Outcome) :
  store_wf db -> fresh_ids req ->
  serve toLowerCase JSON_stringify db pages req = Some out ->
  store_wf (db_after out).
Proof.
  intros Hwf Hfresh Hserve. pose proof Hwf as (Hp & Hc & Hfk & Hv).
  destruct req; simpl in Hserve, Hfresh.
  - (* create *)
    destruct (post_posts_frame _ _ _ _ _ _ Hserve) as (Ec & Ev & _ & Hsub).
    split; [eapply post_posts_wf; eauto|].
    rewrite Ec, Ev. repeat split; auto.
  - (* update *)
    destruct (put_posts_id_frame _ _ _ _ _ Hserve) as (Ec & Ev & _ & Eid).
    split; [eapply put_posts_id_wf; eauto|].
    rewrite Ec, Ev, Eid. repeat split; auto.
  - (* delete *)
    injection Hserve as <-.
    split; [now apply delete_posts_id_wf|].
    unfold delete_posts_id.
    destruct (post_by_id db id) as [p|]; simpl; [|exact (proj2 Hwf)].
    assert (Hkeep : forall i, i ∈ map Post.id (posts db) -> i <> id ->
              i ∈ map Post.id
                    (List.filter (fun p => negb (bool_decide (Post.id p = id)))
                       (posts db))).
    { intros i Hi Hne. apply list_elem_of_In, in_map_iff in Hi as (q & <- & Hq).
      apply list_elem_of_In, in_map_iff. exists q. split; [reflexivity|].
      apply filter_In. split; [exact Hq|].
      now apply negb_true_iff, bool_decide_eq_false. }
    repeat split.
    + apply NoDup_ListNoDup. apply NoDup_ListNoDup in Hc.
      revert Hc. generalize (comments db). intros l.
      induction l as [|c l IH]; simpl; intros Hl; [constructor|].
      inversion Hl as [|? ? Hnot Hl']; subst.
      destruct (negb _); simpl; [|now apply IH].
      constructor; [|now apply IH].
      intros Hin. apply Hnot. apply in_map_iff in Hin as (d & Hd & Hin).
      apply filter_In in Hin as [Hin _]. apply in_map_iff. now exists d.
    + intros c Hin. apply list_elem_of_In, filter_In in Hin as [Hin Hne].
      apply negb_true_iff, bool_decide_eq_false in Hne.
      apply Hkeep; [|exact Hne]. now apply Hfk, list_elem_of_In.
    + intros k Hk. destruct (decide (k = id)) as [->|Hne].
      * rewrite lookup_delete_eq in Hk. now destruct Hk.
      * rewrite lookup_delete_ne in Hk by congruence. now apply Hkeep; auto.
  - (* rebuild *)
    injection Hserve as <-. exact Hwf.
  - (* comment submission *)
    injection Hserve as <-.
    pose proof (post_comments_posts db pages postId r commentId now) as Hposts.
    cbv zeta in Hposts. destruct Hposts as (Eposts & _ & Eviews & _).
    unfold store_wf, posts_wf. rewrite Eposts, Eviews.
    split; [exact Hp|]. split; [|split; [|exact Hv]].
    + unfold post_comments.
      repeat match goal with
      | |- context [if ?b then _ else _] => destruct b eqn:?; simpl; auto
      | |- context [match post_by_id ?d ?i with _ => _ end] =>
          destruct (post_by_id d i) eqn:?; simpl; auto
      | |- context [match first_where ?f ?l with _ => _ end] =>
          destruct (first_where f l) eqn:?; simpl; auto
      end;
      rewrite map_app; simpl; apply NoDup_app; (split; [exact Hc|]);
      (split; [|apply NoDup_singleton]);
      intros i Hi Hi'; apply list_elem_of_singleton in Hi'; subst i;
      apply list_elem_of_In, in_map_iff in Hi as (d & Hd & Hin);
      match goal with
      | H : existsb _ _ = false |- _ =>
          apply not_true_iff_false in H; apply H; apply existsb_exists;
          exists d; split; [exact Hin|now apply bool_decide_eq_true]
      end.
    + unfold post_comments.
      repeat match goal with
      | |- context [if ?b then _ else _] => destruct b eqn:?; simpl; auto
      | |- context [match post_by_id ?d ?i with _ => _ end] =>
          destruct (post_by_id d i) eqn:?; simpl; auto
      | |- context [match first_where ?f ?l with _ => _ end] =>
          destruct (first_where f l) eqn:?; simpl; auto
      end;
      intros c Hin; apply elem_of_app in Hin as [Hin|Hin]; auto;
      apply list_elem_of_singleton in Hin; subst c; simpl;
      match goal with
      | H : post_by_id _ _ = Some ?p |- _ =>
          apply post_by_id_elem in H as [Hel Heq];
          apply list_elem_of_In, in_map_iff; exists p;
          split; [exact Heq|now apply list_elem_of_In]
      end.
  - (* moderation *)
    injection Hserve as <-. unfold put_comments_id.
    destruct (comment_by_id db id) as [c|]; simpl; [|exact Hwf].
    unfold store_wf, with_comments; simpl.
    split; [exact Hp|]. split; [|split; [|exact Hv]].
    + rewrite map_map.
      erewrite map_ext; [exact Hc|].
      intros d. now destruct (bool_decide _).
    + intros d Hd. apply list_elem_of_In, in_map_iff in Hd as (e & <- & He).
      apply list_elem_of_In, Hfk in He. now destruct (bool_decide _).
  - (* comment deletion *)
    injection Hserve as <-. unfold delete_comments_id.
    destruct (comment_by_id db id) as [c|]; simpl; [|exact Hwf].
    unfold store_wf, with_comments; simpl.
    split; [exact Hp|]. split; [|split; [|exact Hv]].
    + apply NoDup_ListNoDup. apply NoDup_ListNoDup in Hc.
      revert Hc. generalize (comments db). intros l.
      induction l as [|e l IH]; simpl; intros Hl; [constructor|].
      inversion Hl as [|? ? Hnot Hl']; subst.
      destruct (negb _); simpl; [|now apply IH].
      constructor; [|now apply IH].
      intros Hin. apply Hnot. apply in_map_iff in Hin as (d & Hd & Hin).
      apply filter_In in Hin as [Hin _]. apply in_map_iff. now exists d.
    + intros d Hd. apply list_elem_of_In, filter_In in Hd as [Hd _].
      now apply Hfk, list_elem_of_In.
  - (* category renaming *)
    injection Hserve as <-. unfold put_categories_rename.
    destruct (_ || _); cbn [db_after]; [exact Hwf|].
    split; [now apply recategorise_wf|].
    destruct (recategorise_ids db (default [] oldName) (default [] newName))
      as [Eid _].
    rewrite Eid. exact (proj2 Hwf).
  - (* category deletion *)
    injection Hserve as <-. unfold delete_categories_name. cbn [db_after].
    split; [now apply recategorise_wf|].
    destruct (recategorise_ids db name []) as [Eid _].
    rewrite Eid. exact (proj2 Hwf).
  - (* settings *)
    injection Hserve as <-. exact Hwf.
  - (* view counter *)
    injection Hserve as <-. unfold get_posts_views.
    destruct (post_by_id db postId) as [p|] eqn:Hpost; cbn [db_after];
      [|exact Hwf].
    unfold store_wf, with_post_views. cbn [posts comments post_views].
    split; [exact Hp|]. split; [exact Hc|]. split; [exact Hfk|].
    intros k Hk. destruct (decide (k = postId)) as [->|Hne].
    + apply post_by_id_elem in Hpost as [Hel Heq].
      apply list_elem_of_In, in_map_iff. exists p.
      split; [exact Heq|now apply list_elem_of_In].
    + rewrite lookup_insert_ne in Hk by congruence. now apply Hv.
Qed.

End Integrity.

(** ** The page of a new post and the row of a new post *)

Section CreatedPage.

Variable toLowerCase : jsstring -> jsstring.
Variable JSON_stringify : list jsstring -> jsstring.
Variable marked_parse : jsstring -> jsstring.
Variable toLocaleDateString : Z -> jsstring.
Variable toLocaleString : Z -> jsstring.
Variable JSON_parse : jsstring -> list jsstring.
Variable getFullYear : Z -> nat.
Variable tpl : Fragment -> jsstring.

Local Abbreviation html :=
  (htmlContent marked_parse toLocaleDateString toLocaleString JSON_parse
     getFullYear tpl).

(** The object [newPost] is the inserted row but for its category: the row
    holds [body.category || 'Uncategorized'], the object [body.category]. *)
Lemma post_posts_rows (db : DB) (pages : R2) (body : Body.t) (id : jsstring)
    (now : Z) (out : Outcome) :
  post_posts toLowerCase JSON_stringify db pages body id now = Some out ->
  status out = 201%nat ->
  exists row,
    posts (db_after out) = posts db ++ [row]
    /\ Post.id row = id
    /\ (forall q, q ∈ posts db -> Post.id q <> id)
    /\ Post.category row
       = Some (JS.or_else (Body.category body) (JS.lit "Uncategorized"))
    /\ head (background out) = Some (set_category (Body.category body) row).
Proof.
  unfold post_posts.
  destruct (negb _); [intros [= <-]; discriminate|].
  destruct (generateUniqueSlug _ _ _ _ _) as [slug|]; [|discriminate].
  cbv zeta. unfold insert_post.
  destruct (existsb _ _) eqn:Hex; intros [= <-]; [discriminate|]. intros _.
  eexists. split; [reflexivity|]. simpl. repeat split.
  intros q Hq Hid. apply not_true_iff_false in Hex. apply Hex.
  apply existsb_exists. exists q. split; [now apply list_elem_of_In|].
  simpl. now rewrite (bool_decide_eq_true_2 _ Hid).
Qed.

(** X14. The page the creation task generates for the new post is the page
    a generation from the stored row gives, on the same store at the same
    instant, exactly when the request names a non-empty category. Without
    one the row holds the category Uncategorized while the object the task
    renders has none, and the two page texts differ on every store at
    every instant. *)
Theorem created_page_and_stored_row (db : DB) (pages : R2) (body : Body.t)
    (id : jsstring) (now : Z) (out : Outcome) :
  post_posts toLowerCase JSON_stringify db pages body id now = Some out ->
  status out = 201%nat ->
  exists newPost row,
    head (background out) = Some newPost
    /\ post_by_id (db_after out) id = Some row
    /\ (JS.truthy_opt (Body.category body) = true ->
        forall t store, html t store newPost = html t store row)
    /\ (JS.truthy_opt (Body.category body) = false ->
        forall t store, html t store newPost <> html t store row).
Proof.
  intros H Hst.
  destruct (post_posts_rows db pages body id now out H Hst)
    as (row & Hposts & Hid & Hfresh & Hcat & Hhead).
  exists (set_category (Body.category body) row), row.
  split; [exact Hhead|]. split.
  { unfold post_by_id, first_where. rewrite Hposts.
    assert (Hnone : List.find (fun p => bool_decide (Post.id p = id)) (posts db)
                    = None).
    { destruct (List.find _ _) as [q|] eqn:Hq; [exfalso|reflexivity].
      apply find_some in Hq as [Hq Hqid].
      apply bool_decide_eq_true in Hqid.
      now apply (Hfresh q); [apply list_elem_of_In|]. }
    revert Hnone. generalize (posts db). intros l.
    induction l as [|q l IH]; simpl; intros Hnone.
    - now rewrite (bool_decide_eq_true_2 _ Hid).
    - destruct (bool_decide (Post.id q = id)); [discriminate|now apply IH]. }
  split.
  - intros Htruthy t store.
    assert (Heq : set_category (Body.category body) row = row).
    { destruct row. unfold set_category.
      cbn [Post.id Post.title Post.slug Post.content Post.category Post.tags
           Post.feature_image Post.published_at Post.is_published
           Post.is_draft Post.is_pinned] in *.
      f_equal. rewrite Hcat. unfold JS.or_else.
      destruct (Body.category body) as [c|]; [|discriminate].
      unfold JS.truthy_opt in Htruthy. now rewrite Htruthy. }
    now rewrite Heq.
  - intros Hfalsy t store Heq.
    unfold htmlContent in Heq. cbv zeta in Heq.
    unfold set_category in Heq. cbn [Post.id Post.title Post.slug Post.content
      Post.category Post.tags Post.feature_image Post.published_at] in Heq.
    repeat apply app_inv_head in Heq.
    assert (Hor : JS.or_else (Body.category body) (JS.lit "Uncategorized")
                  = JS.lit "Uncategorized").
    { unfold JS.or_else. destruct (Body.category body) as [c|]; [|reflexivity].
      unfold JS.truthy_opt in Hfalsy. now rewrite Hfalsy. }
    rewrite Hcat, Hor in Heq.
    assert (Hnone : match Body.category body with
                    | Some c => if JS.truthy c
                                then tpl category_open ++ c
                                     ++ tpl category_mid ++ c
                                     ++ tpl category_close
                                else []
                    | None => []
                    end = []).
    { destruct (Body.category body) as [c|]; [|reflexivity].
      unfold JS.truthy_opt in Hfalsy. now rewrite Hfalsy. }
    rewrite Hnone in Heq. apply (f_equal length) in Heq.
    change (JS.truthy (JS.lit "Uncategorized")) with true in Heq.
    cbv iota in Heq. cbn [app] in Heq. rewrite !length_app in Heq.
    change (length (JS.lit "Uncategorized")) with 13%nat in Heq.
    lia.
Qed.

End CreatedPage.

(** ** Categories *)

Lemma map_fixed {A} (f : A -> A) (l : list A) :
  (forall x, x ∈ l -> f x = x) -> map f l = l.
Proof.
  induction l as [|a l IH]; intros H; simpl; [reflexivity|].
  rewrite H by now left. rewrite IH; [reflexivity|].
  intros x Hx. apply H. now right.
Qed.

(** X15. Renaming a category to a name no post carries yet moves every post
    of the old category and nothing else, leaves bucket and task list
    alone, and is undone by the opposite renaming. (When posts carry the
    new name already the two categories merge, and the opposite renaming
    would move them all.) *)
Theorem category_rename_round_trip (db : DB) (pages : R2) (a b : jsstring) :
  JS.truthy a = true -> JS.truthy b = true ->
  (forall p, p ∈ posts db -> Post.category p <> Some b) ->
  status (put_categories_rename db pages (Some a) (Some b)) = 200%nat
  /\ pages_after (put_categories_rename db pages (Some a) (Some b)) = pages
  /\ background (put_categories_rename db pages (Some a) (Some b)) = []
  /\ (a <> b ->
      forall p,
        p ∈ posts (db_after (put_categories_rename db pages (Some a) (Some b)))
        -> Post.category p <> Some a)
  /\ db_after
       (put_categories_rename
          (db_after (put_categories_rename db pages (Some a) (Some b)))
          pages (Some b) (Some a))
     = db.
Proof.
  intros Ha Hb Hfree. unfold put_categories_rename.
  cbn [JS.truthy_opt]. rewrite Ha, Hb.
  change (default [] (Some a)) with a. change (default [] (Some b)) with b.
  cbn [negb orb status pages_after background db_after].
  repeat split.
  - intros Hne p Hp. unfold recategorise in Hp. cbn [posts with_posts] in Hp.
    apply list_elem_of_In, in_map_iff in Hp as (q & <- & Hq).
    destruct (bool_decide_reflect (Post.category q = Some a)) as [Hc|Hc].
    + unfold set_category. cbn [Post.category]. congruence.
    + exact Hc.
  - unfold recategorise. destruct db as [ps cs st pv bl].
    cbn [posts with_posts comments settings post_views ip_blacklist].
    unfold with_posts. cbn [posts comments settings post_views ip_blacklist].
    f_equal. rewrite map_map. apply map_fixed. intros p Hp.
    destruct (bool_decide_reflect (Post.category p = Some a)) as [Hc|Hc].
    + unfold set_category at 2. cbn [Post.category].
      rewrite (bool_decide_eq_true_2 _ eq_refl).
      destruct p. unfold set_category.
      cbn [Post.id Post.title Post.slug Post.content Post.category Post.tags
           Post.feature_image Post.published_at Post.is_published
           Post.is_draft Post.is_pinned] in Hc |- *.
      now rewrite Hc.
    + specialize (Hfree p Hp).
      now rewrite (bool_decide_eq_false_2 _ Hfree).
Qed.

(** ** Settings *)

Lemma update_settings_lookup (body : list (jsstring * jsstring))
    (st : gmap jsstring jsstring) :
  NoDup (map fst body) ->
  (forall k v, (k, v) ∈ body ->
     fold_left update_setting body st !! k = (fun _ => v) <$> st !! k)
  /\ (forall k, k ∉ map fst body ->
        fold_left update_setting body st !! k = st !! k).
Proof.
  revert st. induction body as [|[k1 v1] body IH]; intros st Hnd.
  - split; [intros k v Hin; inversion Hin|reflexivity].
  - simpl in Hnd. apply NoDup_cons in Hnd as [Hk1 Hnd].
    assert (Hst : forall k,
              update_setting st (k1, v1) !! k
              = if decide (k = k1) then (fun _ => v1) <$> st !! k
                else st !! k).
    { intros k. unfold update_setting. cbn [fst snd].
      destruct (decide (k = k1)) as [->|Hne].
      - destruct (st !! k1) eqn:E; [now rewrite lookup_insert_eq|now rewrite E].
      - destruct (st !! k1); [now rewrite lookup_insert_ne|reflexivity]. }
    destruct (IH (update_setting st (k1, v1)) Hnd) as [IH1 IH2].
    split.
    + intros k v Hin. cbn [fold_left]. apply elem_of_cons in Hin as [Heq|Hin].
      * injection Heq as -> ->. rewrite IH2 by exact Hk1. rewrite Hst.
        now destruct (decide (k1 = k1)).
      * rewrite (IH1 k v Hin), Hst.
        destruct (decide (k = k1)) as [->|Hne]; [|reflexivity].
        exfalso. apply Hk1. apply list_elem_of_In, in_map_iff.
        exists (k1, v). split; [reflexivity|now apply list_elem_of_In].
    + intros k Hk. cbn [fold_left]. simpl in Hk.
      apply not_elem_of_cons in Hk as [Hne Hk].
      rewrite (IH2 k Hk), Hst. now destruct (decide (k = k1)).
Qed.

(** X16. Saving settings overwrites the value of every key of the body that
    has a row and changes nothing else: a key of the body without a row is
    dropped without notice (the answer is 200 all the same), and a key
    that is not in the body keeps its value. *)
Theorem put_settings_updates_rows_only (db : DB) (pages : R2)
    (body : list (jsstring * jsstring)) :
  NoDup (map fst body) ->
  status (put_settings db pages body) = 200%nat
  /\ (forall k v, (k, v) ∈ body ->
        get_settings (db_after (put_settings db pages body)) !! k
        = (fun _ => v) <$> get_settings db !! k)
  /\ (forall k, k ∉ map fst body ->
        get_settings (db_after (put_settings db pages body)) !! k
        = get_settings db !! k)
  /\ (forall k,
        is_Some (get_settings (db_after (put_settings db pages body)) !! k)
        <-> is_Some (get_settings db !! k)).
Proof.
  intros Hnd.
  destruct (update_settings_lookup body (settings db) Hnd) as [H1 H2].
  unfold put_settings, get_settings.
  cbn [status db_after with_settings settings].
  repeat split; auto.
  - intros Hk. destruct (decide (k ∈ map fst body)) as [Hin|Hout].
    + apply list_elem_of_In, in_map_iff in Hin as ([k' v] & <- & Hin).
      apply list_elem_of_In in Hin. cbn [fst] in *.
      rewrite (H1 _ _ Hin) in Hk. destruct (settings db !! k'); [eauto|].
      destruct Hk as [x Hx]. discriminate.
    + now rewrite H2 in Hk.
  - intros Hk. destruct (decide (k ∈ map fst body)) as [Hin|Hout].
    + apply list_elem_of_In, in_map_iff in Hin as ([k' v] & <- & Hin).
      apply list_elem_of_In in Hin. cbn [fst] in *.
      rewrite (H1 _ _ Hin). destruct Hk as [x ->]. simpl. eauto.
    + now rewrite H2.
Qed.

(** ** The view counter *)

(** X17. Each request to the view route of a stored post is answered with
    200 and adds one to the counter of that post; the counters of other
    posts, the posts, the bucket and the task list stay as they are, so a
    stored page goes on showing the count of its last generation. *)
Theorem view_counter_counts (db : DB) (pages : R2) (postId : jsstring)
    (p : Post.t) (n : nat) :
  post_by_id db postId = Some p ->
  let visit := fun d => db_after (get_posts_views d pages postId) in
  post_views (Nat.iter n visit db) !! postId
  = (if n is O then post_views db !! postId
     else Some (default 0%N (post_views db !! postId) + N.of_nat n)%N)
  /\ (forall k, k <> postId ->
        post_views (Nat.iter n visit db) !! k = post_views db !! k)
  /\ posts (Nat.iter n visit db) = posts db
  /\ comments (Nat.iter n visit db) = comments db
  /\ status (get_posts_views (Nat.iter n visit db) pages postId) = 200%nat
  /\ pages_after (get_posts_views (Nat.iter n visit db) pages postId) = pages
  /\ background (get_posts_views (Nat.iter n visit db) pages postId) = [].
Proof.
  intros Hp visit.
  assert (Hstep : forall d, posts d = posts db ->
            get_posts_views d pages postId
            = mkOutcome 200
                (with_post_views d
                   (<[postId := match post_views d !! postId with
                                | Some v => (v + 1)%N
                                | None => 1%N
                                end]> (post_views d)))
                pages []).
  { intros d Hd. unfold get_posts_views.
    assert (post_by_id d postId = Some p) as ->
      by (unfold post_by_id in *; now rewrite Hd).
    reflexivity. }
  induction n as [|n (Hc & Ho & Hposts & Hcom & _)].
  - change (Nat.iter 0 visit db) with db. rewrite (Hstep db eq_refl).
    now repeat split.
  - assert (Hnext : Nat.iter (S n) visit db
                    = with_post_views (Nat.iter n visit db)
                        (<[postId := match post_views (Nat.iter n visit db)
                                             !! postId with
                                     | Some v => (v + 1)%N
                                     | None => 1%N
                                     end]> (post_views (Nat.iter n visit db)))).
    { change (Nat.iter (S n) visit db) with (visit (Nat.iter n visit db)).
      unfold visit at 1. now rewrite (Hstep _ Hposts). }
    assert (Hposts' : posts (Nat.iter (S n) visit db) = posts db)
      by (rewrite Hnext; exact Hposts).
    rewrite (Hstep _ Hposts'). cbn [status pages_after background].
    rewrite Hnext. cbn [with_post_views post_views posts comments].
    repeat split; auto.
    + rewrite lookup_insert_eq, Hc. destruct n as [|n].
      * destruct (post_views db !! postId); simpl; f_equal; lia.
      * f_equal. lia.
    + intros k Hk. rewrite lookup_insert_ne by congruence. now apply Ho.
Qed.

(** ** The rows of the settings table *)

Lemma update_settings_rows (body : list (jsstring * jsstring))
    (st : gmap jsstring jsstring) (k : jsstring) :
  is_Some (fold_left update_setting body st !! k) <-> is_Some (st !! k).
Proof.
  revert st. induction body as [|[k1 v1] body IH]; intros st; [reflexivity|].
  cbn [fold_left]. rewrite IH. unfold update_setting. cbn [fst snd].
  destruct (st !! k1) eqn:E; [|reflexivity].
  destruct (decide (k = k1)) as [->|Hne].
  - rewrite lookup_insert_eq, E. split; eauto.
  - now rewrite lookup_insert_ne by congruence.
Qed.

Section SettingsRows.

Variable toLowerCase : jsstring -> jsstring.
Variable JSON_stringify : list jsstring -> jsstring.

(** X18. No write request creates or removes a row of the settings table:
    saving settings rewrites values of rows that exist, and every other
    handler leaves the table as it is. The page queries for a key that has
    no row therefore fall back on the built-in default after any request. *)
Theorem settings_rows_fixed (db : DB) (pages : R2) (req : Request)
    (out : Outcome) (k : jsstring) :
  serve toLowerCase JSON_stringify db pages req = Some out ->
  (is_Some (settings (db_after out) !! k) <-> is_Some (settings db !! k))
  /\ (setting db k = None ->
      forall fallback,
        JS.or_else (setting (db_after out) k) fallback = fallback).
Proof.
  intros Hserve.
  assert (Hrows : forall key,
            is_Some (settings (db_after out) !! key)
            <-> is_Some (settings db !! key)).
  { intros key. destruct req; simpl in Hserve.
    - destruct (post_posts_frame _ _ _ _ _ _ _ _ Hserve) as (_ & _ & -> & _).
      reflexivity.
    - destruct (put_posts_id_frame _ _ _ _ _ _ _ Hserve) as (_ & _ & -> & _).
      reflexivity.
    - injection Hserve as <-. unfold delete_posts_id.
      now destruct (post_by_id db id).
    - now injection Hserve as <-.
    - injection Hserve as <-.
      pose proof (post_comments_posts db pages postId r commentId now) as H.
      cbv zeta in H. destruct H as (_ & -> & _). reflexivity.
    - injection Hserve as <-. unfold put_comments_id.
      now destruct (comment_by_id db id).
    - injection Hserve as <-. unfold delete_comments_id.
      now destruct (comment_by_id db id).
    - injection Hserve as <-. unfold put_categories_rename.
      now destruct (_ || _).
    - now injection Hserve as <-.
    - injection Hserve as <-. apply update_settings_rows.
    - injection Hserve as <-. unfold get_posts_views.
      now destruct (post_by_id db postId). }
  split; [apply Hrows|].
  intros Hnone fallback. unfold setting in *.
  destruct (settings (db_after out) !! k) as [v|] eqn:E; [|reflexivity].
  assert (Hsome : is_Some (settings db !! k)) by (apply Hrows; rewrite E; eauto).
  rewrite Hnone in Hsome. now destruct Hsome.
Qed.

End SettingsRows.

(** ** The admin gate *)

Lemma split_on_nonempty (sep : N) (s : jsstring) : split_on sep s <> [].
Proof.
  destruct s as [|c s]; simpl; [discriminate|].
  destruct (c =? sep)%N; [discriminate|].
  now destruct (split_on sep s).
Qed.

Lemma split_on_pieces (sep : N) (s piece : jsstring) :
  piece ∈ split_on sep s -> sep ∉ piece.
Proof.
  revert piece. induction s as [|c s IH]; simpl; intros piece Hin.
  - apply list_elem_of_singleton in Hin as ->. apply not_elem_of_nil.
  - destruct (N.eqb_spec c sep) as [->|Hne].
    + apply elem_of_cons in Hin as [->|Hin]; [apply not_elem_of_nil|auto].
    + destruct (split_on sep s) as [|x xs].
      * apply list_elem_of_singleton in Hin as ->.
        apply not_elem_of_cons. split; [congruence|apply not_elem_of_nil].
      * apply elem_of_cons in Hin as [->|Hin].
        -- apply not_elem_of_cons. split; [congruence|].
           apply IH. now left.
        -- apply IH. now right.
Qed.

Lemma split_on_clean (sep : N) (s : jsstring) :
  sep ∉ s -> split_on sep s = [s].
Proof.
  induction s as [|c s IH]; simpl; intros Hs; [reflexivity|].
  apply not_elem_of_cons in Hs as [Hne Hs].
  destruct (N.eqb_spec c sep) as [->|_]; [congruence|].
  now rewrite IH.
Qed.

Lemma split_on_app (sep : N) (a b : jsstring) :
  sep ∉ a -> split_on sep (a ++ sep :: b) = a :: split_on sep b.
Proof.
  induction a as [|c a IH]; simpl; intros Ha.
  - now rewrite N.eqb_refl.
  - apply not_elem_of_cons in Ha as [Hne Ha].
    destruct (N.eqb_spec c sep) as [->|_]; [congruence|].
    now rewrite IH.
Qed.

Section Gate.

Variable atob : jsstring -> option jsstring.

(** X19. The gate never lets a request other than OPTIONS through when the
    user name secret is unset or a secret holds a colon: the credentials
    are split at every colon and only the first two pieces are compared,
    so no piece equals such a secret, whatever the header decodes to. *)
Theorem BasicAuth_colon_locks_out (method : jsstring)
    (authorization ADMIN_USERNAME ADMIN_PASSWORD : option jsstring) :
  method <> JS.lit "OPTIONS" ->
  ADMIN_USERNAME = None
  \/ (exists u, ADMIN_USERNAME = Some u /\ 58%N ∈ u)
  \/ (exists p, ADMIN_PASSWORD = Some p /\ 58%N ∈ p) ->
  BasicAuth atob method authorization ADMIN_USERNAME ADMIN_PASSWORD <> Next.
Proof.
  intros Hm Hsecret. unfold BasicAuth.
  rewrite (bool_decide_eq_false_2 _ Hm).
  destruct (negb (JS.truthy_opt authorization)); [discriminate|].
  cbv zeta. destruct (_ || _); [discriminate|].
  destruct (atob _) as [decoded|]; [|discriminate].
  pose proof (split_on_nonempty 58 decoded) as Hne.
  pose proof (split_on_pieces 58 decoded) as Hpieces.
  destruct (split_on 58 decoded) as [|username rest]; [contradiction|].
  cbn [lookup list_lookup].
  assert (Hfalse : bool_decide (Some username = ADMIN_USERNAME)
                   && bool_decide (rest !! O = ADMIN_PASSWORD) = false).
  { destruct Hsecret as [->|[(u & -> & Hu)|(p & -> & Hp)]].
    - reflexivity.
    - rewrite bool_decide_eq_false_2; [reflexivity|].
      intros [= <-]. apply (Hpieces username); [now left|exact Hu].
    - apply andb_false_iff. right. apply bool_decide_eq_false.
      destruct rest as [|password rest]; [discriminate|].
      intros [= <-]. apply (Hpieces password); [right; now left|exact Hp]. }
  change (rest !! O) with (rest !! 0%nat) in Hfalse.
  destruct rest; simpl in *; rewrite Hfalse; discriminate.
Qed.

(** X20. The gate lets a request through whose header is the word Basic, one
    space and a non-empty word without spaces that decodes to the user
    name secret, a colon and the password secret, both free of colons; with
    the password secret unset, the user name alone, without a colon, is
    let through. *)
Theorem BasicAuth_accepts (method encoded u : jsstring)
    (ADMIN_PASSWORD : option jsstring) :
  encoded <> [] -> 32%N ∉ encoded ->
  58%N ∉ u ->
  (forall p, ADMIN_PASSWORD = Some p -> 58%N ∉ p) ->
  atob encoded
  = Some (u ++ match ADMIN_PASSWORD with Some p => 58%N :: p | None => [] end) ->
  BasicAuth atob method (Some (JS.lit "Basic " ++ encoded)) (Some u)
    ADMIN_PASSWORD
  = Next.
Proof.
  intros Hne Hsp Hu Hp Hatob. unfold BasicAuth.
  destruct (bool_decide _); [reflexivity|].
  assert (Hparts : split_on 32 (JS.lit "Basic " ++ encoded)
                   = [JS.lit "Basic"; encoded]).
  { change (JS.lit "Basic " ++ encoded)
      with (JS.lit "Basic" ++ 32%N :: encoded).
    rewrite split_on_app; [now rewrite split_on_clean|].
    intros H. apply list_elem_of_In in H. vm_compute in H.
    intuition discriminate. }
  cbv zeta. change (default [] (Some (JS.lit "Basic " ++ encoded)))
    with (JS.lit "Basic " ++ encoded).
  rewrite Hparts. cbn [lookup list_lookup].
  rewrite (bool_decide_eq_true_2 _ eq_refl).
  assert (Ht : JS.truthy encoded = true) by now destruct encoded.
  cbn [JS.truthy_opt negb orb]. rewrite Ht. cbn [negb].
  change (default [] (Some encoded)) with encoded. rewrite Hatob.
  destruct ADMIN_PASSWORD as [p|].
  - rewrite split_on_app by exact Hu.
    rewrite split_on_clean by now apply Hp.
    cbn [lookup list_lookup]. now rewrite !(bool_decide_eq_true_2 _ eq_refl).
  - rewrite app_nil_r, split_on_clean by exact Hu.
    cbn [lookup list_lookup]. now rewrite !(bool_decide_eq_true_2 _ eq_refl).
Qed.

End Gate.

(** ** [escapeXml] *)

Lemma replace_unit_app (c : N) (by_ a b : jsstring) :
  replace_unit c by_ (a ++ b) = replace_unit c by_ a ++ replace_unit c by_ b.
Proof. unfold replace_unit. apply flat_map_app. Qed.

Lemma escapeXml_app (a b : jsstring) :
  escapeXml (a ++ b) = escapeXml a ++ escapeXml b.
Proof. unfold escapeXml. now rewrite !replace_unit_app. Qed.

Lemma escapeXml_unit (c : N) : escapeXml [c] = escape_unit c.
Proof.
  unfold escape_unit.
  destruct (N.eqb_spec c 38) as [->|H1]; [reflexivity|].
  destruct (N.eqb_spec c 60) as [->|H2]; [reflexivity|].
  destruct (N.eqb_spec c 62) as [->|H3]; [reflexivity|].
  destruct (N.eqb_spec c 34) as [->|H4]; [reflexivity|].
  destruct (N.eqb_spec c 39) as [->|H5]; [reflexivity|].
  apply N.eqb_neq in H1, H2, H3, H4, H5.
  unfold escapeXml, replace_unit. cbn [flat_map app].
  rewrite H1. cbn [flat_map app]. rewrite H2. cbn [flat_map app].
  rewrite H3. cbn [flat_map app]. rewrite H4. cbn [flat_map app].
  now rewrite H5.
Qed.

Lemma escape_unit_clean (c : N) :
  Forall (fun x => x <> 60 /\ x <> 62 /\ x <> 34 /\ x <> 39)%N (escape_unit c).
Proof.
  unfold escape_unit.
  destruct (N.eqb_spec c 38) as [->|H1];
    [vm_compute; repeat constructor; discriminate|].
  destruct (N.eqb_spec c 60) as [->|H2];
    [vm_compute; repeat constructor; discriminate|].
  destruct (N.eqb_spec c 62) as [->|H3];
    [vm_compute; repeat constructor; discriminate|].
  destruct (N.eqb_spec c 34) as [->|H4];
    [vm_compute; repeat constructor; discriminate|].
  destruct (N.eqb_spec c 39) as [->|H5];
    [vm_compute; repeat constructor; discriminate|].
  repeat constructor; assumption.
Qed.

(** X21. The five global replacements of [escapeXml], made one after the
    other with the ampersand first, amount to one pass that replaces each
    of the five characters by its entity: the ampersand of an entity is
    never escaped again. The result holds none of the characters less-than,
    greater-than, quotation mark and apostrophe, and a string free of the
    five characters is returned as it is. *)
Theorem escapeXml_one_pass (str : jsstring) :
  escapeXml str = flat_map escape_unit str
  /\ Forall (fun x => x <> 60 /\ x <> 62 /\ x <> 34 /\ x <> 39)%N
       (escapeXml str)
  /\ (Forall (fun x => x <> 38 /\ x <> 60 /\ x <> 62 /\ x <> 34 /\ x <> 39)%N
        str -> escapeXml str = str).
Proof.
  assert (Hpass : forall s, escapeXml s = flat_map escape_unit s).
  { induction s as [|c s IH]; [reflexivity|].
    change (c :: s) with ([c] ++ s).
    rewrite escapeXml_app, escapeXml_unit, IH. reflexivity. }
  split; [apply Hpass|]. rewrite Hpass. split.
  - induction str as [|c s IH]; [constructor|].
    cbn [flat_map]. apply Forall_app. split; [apply escape_unit_clean|exact IH].
  - induction 1 as [|c s (H1 & H2 & H3 & H4 & H5) _ IH]; [reflexivity|].
    cbn [flat_map]. rewrite IH. unfold escape_unit.
    apply N.eqb_neq in H1, H2, H3, H4, H5.
    now rewrite H1, H2, H3, H4, H5.
Qed.

(** ** Listings *)

Lemma stamp_lt_asym (a b : option Z) :
  stamp_lt a b = true -> stamp_lt b a = false.
Proof. destruct a, b; simpl; try discriminate; try reflexivity; lia. Qed.

Lemma stamp_lt_trans (a b c : option Z) :
  stamp_lt a b = true -> stamp_lt b c = true -> stamp_lt a c = true.
Proof. destruct a, b, c; simpl; try discriminate; try reflexivity; lia. Qed.

Lemma listed_before_asym (p q : Post.t) :
  listed_before p q = true -> listed_before q p = false.
Proof.
  unfold listed_before. intros H.
  apply orb_true_iff in H as [H|H].
  - apply orb_false_iff. split; [lia|].
    apply andb_false_iff. left. lia.
  - apply andb_true_iff in H as [He Hs].
    apply orb_false_iff. split; [lia|].
    apply andb_false_iff. right. now apply stamp_lt_asym.
Qed.

Lemma listed_before_trans (p q r : Post.t) :
  listed_before p q = true -> listed_before q r = true ->
  listed_before p r = true.
Proof.
  unfold listed_before. intros H1 H2.
  apply orb_true_iff in H1 as [H1|H1]; apply orb_true_iff in H2 as [H2|H2];
    try apply andb_true_iff in H1 as [He1 Hs1];
    try apply andb_true_iff in H2 as [He2 Hs2];
    apply orb_true_iff; try (left; lia).
  right. apply andb_true_iff. split; [lia|].
  exact (stamp_lt_trans _ _ _ Hs2 Hs1).
Qed.

Lemma insert_listed_Permutation (p : Post.t) (l : list Post.t) :
  Permutation (insert_listed p l) (p :: l).
Proof.
  induction l as [|q l IH]; simpl; [reflexivity|].
  destruct (listed_before p q); [reflexivity|].
  rewrite IH. apply perm_swap.
Qed.

Lemma order_listed_Permutation (rows : list Post.t) :
  Permutation (order_listed rows) rows.
Proof.
  unfold order_listed. rewrite <- (rev_involutive rows) at 2.
  generalize (rev rows). intros l.
  induction l as [|p l IH]; simpl; [reflexivity|].
  rewrite insert_listed_Permutation, IH.
  rewrite <- Permutation_cons_append. reflexivity.
Qed.

Lemma insert_listed_sorted (p : Post.t) (l : list Post.t) :
  StronglySorted (fun a b => listed_before b a = false) l ->
  StronglySorted (fun a b => listed_before b a = false) (insert_listed p l).
Proof.
  induction 1 as [|q l Hl IH Hq]; simpl; [repeat constructor|].
  destruct (listed_before p q) eqn:Hpq.
  - constructor; [now constructor|].
    constructor; [now apply listed_before_asym|].
    rewrite List.Forall_forall in Hq |- *. intros r Hr.
    destruct (listed_before r p) eqn:Hrp; [|reflexivity].
    rewrite <- (Hq r Hr). symmetry.
    exact (listed_before_trans _ _ _ Hrp Hpq).
  - constructor; [exact IH|].
    rewrite List.Forall_forall in Hq |- *. intros r Hr.
    apply (Permutation_in _ (insert_listed_Permutation p l)) in Hr.
    destruct Hr as [<-|Hr]; [exact Hpq|now apply Hq].
Qed.

Lemma order_listed_sorted (rows : list Post.t) :
  StronglySorted (fun a b => listed_before b a = false) (order_listed rows).
Proof.
  unfold order_listed. generalize (rev rows). intros l.
  induction l as [|p l IH]; simpl; [constructor|].
  now apply insert_listed_sorted.
Qed.

Lemma take_add_drop {A} (a b : nat) (l : list A) :
  take (a + b) l = take a l ++ take b (drop a l).
Proof.
  revert l. induction a as [|a IH]; intros l; [reflexivity|].
  destruct l as [|x l]; simpl; [now destruct b|].
  now rewrite IH.
Qed.

Lemma pages_concat {A} (n ps : nat) (l : list A) :
  concat (map (fun k => take ps (drop (k * ps) l)) (seq 0 n))
  = take (n * ps) l.
Proof.
  induction n as [|n IH]; [reflexivity|].
  rewrite seq_S, map_app, concat_app, IH. cbn [map concat Nat.add].
  rewrite app_nil_r. replace (S n * ps)%nat with (n * ps + ps)%nat by lia.
  symmetry. apply take_add_drop.
Qed.

Lemma limit_offset_page {A} (ps : Z) (k : nat) (l : list A) :
  0 < ps ->
  limit_offset ps ((Z.of_nat (S k) - 1) * ps) l
  = take (Z.to_nat ps) (drop (k * Z.to_nat ps) l).
Proof.
  intros Hps. unfold limit_offset.
  assert ((ps <? 0) = false) as -> by lia.
  do 2 f_equal. lia.
Qed.

Lemma ceil_div_covers (total ps : Z) :
  0 <= total -> 0 < ps ->
  0 <= (total + ps - 1) / ps /\ total <= (total + ps - 1) / ps * ps.
Proof.
  intros Ht Hps. split; [apply Z.div_pos; lia|].
  pose proof (Z.mul_succ_div_gt (total + ps - 1) ps Hps). lia.
Qed.

(** X22. The admin listing holds every post of the table exactly once,
    pinned posts first and later publish timestamps before earlier ones.
    Asked in pages of a positive size, the pages 1 to [totalPages] put one
    after the other are that listing, [totalPages] is the least number of
    pages that hold the table, and every page after it is empty. *)
Theorem get_posts_pages (db : DB) (pageSize : Z) :
  0 < pageSize ->
  Permutation (listing_rows (get_posts db None None)) (posts db)
  /\ StronglySorted (fun p q => listed_before q p = false)
       (listing_rows (get_posts db None None))
  /\ exists n : nat,
       (forall page,
          listing_totalPages (get_posts db (Some page) (Some pageSize))
          = Some (Z.of_nat n))
       /\ concat
            (map (fun k => listing_rows
                             (get_posts db (Some (Z.of_nat (S k)))
                                (Some pageSize)))
               (seq 0 n))
          = listing_rows (get_posts db None None)
       /\ (length (posts db) <= n * Z.to_nat pageSize
           < length (posts db) + Z.to_nat pageSize)%nat
       /\ forall page, Z.of_nat n < page ->
            listing_rows (get_posts db (Some page) (Some pageSize)) = [].
Proof.
  intros Hps.
  split; [apply order_listed_Permutation|].
  split; [apply order_listed_sorted|].
  set (total := Z.of_nat (length (posts db))).
  destruct (ceil_div_covers total pageSize ltac:(lia) Hps) as [Hn0 Hn].
  pose proof (Z.mul_div_le (total + pageSize - 1) pageSize Hps) as Hle.
  exists (Z.to_nat ((total + pageSize - 1) / pageSize)).
  assert (Hlen : length (order_listed (posts db)) = length (posts db))
    by apply Permutation_length, order_listed_Permutation.
  split; [|split; [|split]].
  - intros page. simpl. unfold ceil_div. fold total.
    assert ((0 <? pageSize) = true) as -> by lia. f_equal. lia.
  - erewrite map_ext; [|intros k; simpl; apply limit_offset_page; exact Hps].
    rewrite pages_concat. simpl. apply take_ge. rewrite Hlen. nia.
  - nia.
  - intros page Hpage. simpl. unfold limit_offset.
    assert ((pageSize <? 0) = false) as -> by lia.
    rewrite drop_ge; [now destruct (Z.to_nat pageSize)|]. rewrite Hlen. nia.
Qed.

Lemma In_take {A} (n : nat) (l : list A) (x : A) :
  In x (take n l) -> In x l.
Proof.
  revert l. induction n as [|n IH]; intros [|y l]; simpl; try tauto.
  intros [->|H]; [now left|right; now apply IH].
Qed.

Lemma In_drop {A} (n : nat) (l : list A) (x : A) :
  In x (drop n l) -> In x l.
Proof.
  revert l. induction n as [|n IH]; intros [|y l]; simpl; try tauto.
  intros H. right. now apply IH.
Qed.

Lemma limit_offset_In {A} (limit offset : Z) (l : list A) (x : A) :
  In x (limit_offset limit offset l) -> In x l.
Proof.
  unfold limit_offset. destruct (limit <? 0); intros H.
  - now apply In_drop in H.
  - now apply In_take, In_drop in H.
Qed.

(** X23. The home page shows published posts that are no drafts, and only
    rows of the table; its pages 1 to [totalPages], five rows each, put one
    after the other are the public posts, pinned first and newer first,
    each exactly once; a request without a page parameter gets page 1. *)
Theorem get_home_pages (db : DB) :
  (forall page q, q ∈ (get_home db page).1 ->
     q ∈ posts db /\ Post.is_published q = true /\ Post.is_draft q = 0)
  /\ get_home db None = get_home db (Some 1)
  /\ exists n : nat,
       (forall page, (get_home db page).2 = Z.of_nat n)
       /\ concat (map (fun k => (get_home db (Some (Z.of_nat (S k)))).1)
                    (seq 0 n))
          = order_listed (public_posts db)
       /\ Permutation (order_listed (public_posts db)) (public_posts db)
       /\ forall page, Z.of_nat n < page -> (get_home db (Some page)).1 = [].
Proof.
  split; [|split; [reflexivity|]].
  - intros page q Hq. unfold get_home in Hq. cbn [fst] in Hq.
    apply list_elem_of_In, limit_offset_In in Hq.
    apply (Permutation_in _ (order_listed_Permutation (public_posts db))) in Hq.
    apply filter_In in Hq as [Hq Hpub].
    apply andb_true_iff in Hpub as [Hpub Hdraft].
    split; [now apply list_elem_of_In|]. split; [exact Hpub|lia].
  - set (total := Z.of_nat (length (public_posts db))).
    destruct (ceil_div_covers total 5 ltac:(lia) ltac:(lia)) as [Hn0 Hn].
    pose proof (Z.mul_div_le (total + 5 - 1) 5 ltac:(lia)) as Hle.
    exists (Z.to_nat ((total + 5 - 1) / 5)).
    assert (Hlen : length (order_listed (public_posts db))
                   = length (public_posts db))
      by apply Permutation_length, order_listed_Permutation.
    split; [|split; [|split]].
    + intros page. unfold get_home. cbn [snd]. fold total. lia.
    + erewrite map_ext;
        [|intros k; unfold get_home; cbn [fst];
          change (default 1 (Some (Z.of_nat (S k)))) with (Z.of_nat (S k));
          apply limit_offset_page; lia].
      rewrite pages_concat. apply take_ge. rewrite Hlen. nia.
    + apply order_listed_Permutation.
    + intros page Hpage. unfold get_home, limit_offset. cbn [fst].
      change (default 1 (Some page)) with page.
      assert ((5 <? 0) = false) as -> by reflexivity.
      rewrite drop_ge; [reflexivity|]. rewrite Hlen. nia.
Qed.

(** ** The links of the sitemap after a rebuild *)

Lemma lookup_map {A B} (f : A -> B) (l : list A) (i : nat) (x : A) :
  l !! i = Some x -> map f l !! i = Some (f x).
Proof.
  revert i. induction l as [|y l IH]; intros [|i]; simpl; try discriminate.
  - now intros [= ->].
  - apply IH.
Qed.

Section Sitemap.

Variable marked_parse : jsstring -> jsstring.
Variable toLocaleDateString : Z -> jsstring.
Variable toLocaleString : Z -> jsstring.
Variable JSON_parse : jsstring -> list jsstring.
Variable getFullYear : Z -> nat.
Variable tpl : Fragment -> jsstring.

Local Abbreviation html :=
  (htmlContent marked_parse toLocaleDateString toLocaleString JSON_parse
     getFullYear tpl).
Local Abbreviation full_rebuild :=
  (rebuild marked_parse toLocaleDateString toLocaleString JSON_parse
     getFullYear tpl).

(** X24. On a store that satisfies its constraints, the sitemap lists the
    site root and one address per public post, and once a full rebuild is
    through, the blog route answers each listed post that has a slug with
    200 and the page generated for that very post. *)
Theorem sitemap_links_served_after_rebuild (clock : nat -> Z) (db : DB)
    (pages : R2) :
  posts_wf db ->
  length (sitemap_locs db) = S (length (public_posts db))
  /\ forall i q, public_posts db !! i = Some q ->
       sitemap_locs db !! S i
       = Some (escapeXml
                 (JS.or_else (settings db !! JS.lit "site_url") default_site_url
                  ++ JS.lit "/blog/" ++ Post.slug q))
       /\ (JS.truthy (Post.slug q) = true ->
           exists k,
             get_blog_slug (full_rebuild clock db pages) (Post.slug q)
             = (200%nat, Some (html (clock k) db q))).
Proof.
  intros Hwf. split.
  { unfold sitemap_locs. cbv zeta. cbn [length]. now rewrite length_map. }
  intros i q Hi. split.
  { unfold sitemap_locs. cbv zeta.
    match goal with
    | |- (?x :: map ?f ?l) !! S i = _ => change (map f l !! i = Some (f q))
    end.
    now apply lookup_map. }
  intros Hslug.
  assert (Hq : q ∈ public_posts db) by (eapply list_elem_of_lookup_2; eauto).
  apply list_elem_of_In, filter_In in Hq as [Hq Hpub].
  apply andb_true_iff in Hpub as [Hpub _].
  assert (Hcall : q ∈ background (post_rebuild_all db pages)).
  { unfold post_rebuild_all. cbn [background].
    apply list_elem_of_In, filter_In. split; [|exact Hslug].
    apply filter_In. split; assumption. }
  assert (Hkey : Post.slug q ∈ map Post.slug (background (post_rebuild_all db pages))).
  { apply list_elem_of_In, in_map. now apply list_elem_of_In. }
  destruct (regenerate_all_written marked_parse toLocaleDateString
              toLocaleString JSON_parse getFullYear tpl clock db _ pages _ Hkey)
    as (k & p & Hp & Heq & Hlook).
  exists k. unfold get_blog_slug, rebuild, run_background.
  change (db_after (post_rebuild_all db pages)) with db.
  change (pages_after (post_rebuild_all db pages)) with pages.
  rewrite Hlook.
  assert (p = q) as ->; [|reflexivity].
  destruct Hwf as (_ & Hnd & _).
  apply (NoDup_map_inj Post.slug (posts db)); auto.
  - unfold post_rebuild_all in Hp. cbn [background] in Hp.
    apply list_elem_of_In, filter_In in Hp as [Hp _].
    apply filter_In in Hp as [Hp _]. now apply list_elem_of_In.
  - now apply list_elem_of_In.
Qed.

End Sitemap.

(** ** Every request is answered *)

Section Answers.

Variable toLowerCase : jsstring -> jsstring.
Variable JSON_stringify : list jsstring -> jsstring.

(** X4. Every write request gets its answer: the slug loop of the create
    and update handlers, the only loop of the handlers, breaks within the
    iterations its store allows, whatever the store and the title. *)
Theorem serve_returns (db : DB) (pages : R2) (req : Request) :
  exists out, serve toLowerCase JSON_stringify db pages req = Some out.
Proof.
  destruct req; simpl; eauto.
  - apply post_posts_returns.
  - apply put_posts_id_returns.
Qed.

End Answers.

(** ** The row of an accepted comment *)

Lemma or_else_truthy (a : option jsstring) (b : jsstring) :
  JS.truthy b = true -> JS.truthy (JS.or_else a b) = true.
Proof.
  intros Hb. unfold JS.or_else. destruct a as [s|]; [|exact Hb].
  destruct (JS.truthy s) eqn:E; [exact E|exact Hb].
Qed.

Lemma truthy_or_null_truthy (s : option jsstring) :
  truthy_or_null s = None
  \/ exists v, truthy_or_null s = Some v /\ JS.truthy v = true.
Proof.
  unfold truthy_or_null. destruct (JS.truthy_opt s) eqn:E; [|now left].
  destruct s as [v|]; [|discriminate]. right. eauto.
Qed.

(** X25. A submission answered with 201 appends one row: author and content
    are the trimmed fields of the body and not empty, the IP is not empty
    (at the least the word unknown), an e-mail is stored only when
    something is left of it after trimming, and a reply names the author
    of its parent, a stored comment of whichever post, in place of the
    name the body gave. *)
Theorem accepted_comment_row (db : DB) (pages : R2) (postId : jsstring)
    (r : Submission.t) (commentId : jsstring) (now : Z) :
  status (post_comments db pages postId r commentId now) = 201%nat ->
  exists row,
    comments (db_after (post_comments db pages postId r commentId now))
    = comments db ++ [row]
    /\ Comment.author row = JS.trim (default [] (Submission.author r))
    /\ Comment.content row = JS.trim (default [] (Submission.content r))
    /\ JS.truthy (Comment.author row) = true
    /\ JS.truthy (Comment.content row) = true
    /\ JS.truthy (Comment.ip_address row) = true
    /\ (Comment.email row = None
        \/ exists e, Comment.email row = Some e /\ JS.truthy e = true)
    /\ match Comment.parent_id row with
       | None => Comment.reply_to row = truthy_or_null (Submission.reply_to r)
       | Some parent_id =>
           Submission.parent_id r = Some parent_id
           /\ exists parent,
                parent ∈ comments db /\ Comment.id parent = parent_id
                /\ Comment.reply_to row
                   = truthy_or_null (Some (Comment.author parent))
       end.
Proof.
  unfold post_comments. cbv zeta.
  destruct (isIpBlacklisted db (userIp r)); [discriminate|].
  destruct (post_by_id db postId) as [post|]; [|discriminate].
  destruct (blank (Submission.author r) || blank (Submission.content r))
    eqn:Hblank; [discriminate|].
  apply orb_false_iff in Hblank as [Ha Hc].
  unfold blank in Ha, Hc.
  apply orb_false_iff in Ha as [_ Ha]. apply negb_false_iff in Ha.
  apply orb_false_iff in Hc as [_ Hc]. apply negb_false_iff in Hc.
  assert (Hip : JS.truthy (userIp r) = true).
  { unfold userIp. apply or_else_truthy, or_else_truthy. reflexivity. }
  destruct (JS.truthy_opt (Submission.parent_id r)) eqn:Hparent.
  - destruct (first_where _ (comments db)) as [parent|] eqn:Hfind;
      [|discriminate].
    destruct (3 <=? recentComments db (userIp r) (now - 60 * 1000))%nat;
      [discriminate|].
    destruct (existsb _ (comments db)); [discriminate|]. intros _.
    eexists. split; [reflexivity|].
    cbn [Comment.author Comment.content Comment.ip_address Comment.email
         Comment.parent_id Comment.reply_to].
    repeat split; auto; [apply truthy_or_null_truthy|].
    unfold truthy_or_null at 1. rewrite Hparent.
    destruct (Submission.parent_id r) as [pid|] eqn:Hpid; [|discriminate].
    split; [reflexivity|]. exists parent.
    unfold first_where in Hfind. apply find_some in Hfind as [Hin Hid].
    apply bool_decide_eq_true in Hid. injection Hid as Hid.
    repeat split; [now apply list_elem_of_In|exact Hid].
  - destruct (3 <=? recentComments db (userIp r) (now - 60 * 1000))%nat;
      [discriminate|].
    destruct (existsb _ (comments db)); [discriminate|]. intros _.
    eexists. split; [reflexivity|].
    cbn [Comment.author Comment.content Comment.ip_address Comment.email
         Comment.parent_id Comment.reply_to].
    repeat split; auto; [apply truthy_or_null_truthy|].
    unfold truthy_or_null at 1. now rewrite Hparent.
Qed.

(** * The properties at sample inputs *)

Lemma three_posts_wf : posts_wf three_posts.
Proof. apply (bool_decide_unpack _). vm_compute. exact I. Defined.

Lemma moderated_db_ids : NoDup (map Comment.id (comments moderated_db)).
Proof. apply (bool_decide_unpack _). vm_compute. exact I. Defined.

(** Post [p] of [three_posts] is deleted from a freshly rebuilt bucket. *)
Lemma deleted_page_not_served_witness :
  posts_wf three_posts
  /\ get_blog_slug
       (settled (delete_posts_id three_posts (rebuilt three_posts) (JS.lit "p")))
       (JS.lit "p")
     = (404%nat, None).
Proof.
  split; [exact three_posts_wf|].
  exact (deleted_page_not_served plain_text day_number day_number no_tags
           year_number bars (fun _ => 5000) three_posts (rebuilt three_posts)
           (JS.lit "p") (sample_post "p" 3000 true 0) three_posts_wf eq_refl).
Defined.

(** The post "World" is created next to the post [hello]. *)
Lemma created_page_served_witness :
  exists out newPost,
    post_posts ascii_lower stringify_tags
      (sample_db [sample_post "hello" 1000 true 0]) ∅
      (sample_body "World") (JS.lit "id-2") 2000 = Some out
    /\ status out = 201%nat
    /\ head (background out) = Some newPost
    /\ Post.id newPost = JS.lit "id-2"
    /\ post_by_id (db_after out) (JS.lit "id-2") <> None
    /\ get_blog_slug (settled out) (Post.slug newPost)
       = (200%nat, Some (fresh_page (db_after out) newPost)).
Proof.
  assert (H : exists out,
            post_posts ascii_lower stringify_tags
              (sample_db [sample_post "hello" 1000 true 0]) ∅
              (sample_body "World") (JS.lit "id-2") 2000 = Some out
            /\ status out = 201%nat)
    by (eexists; split; reflexivity).
  destruct H as (out & Hout & Hst).
  destruct (created_page_served ascii_lower stringify_tags plain_text
              day_number day_number no_tags year_number bars (fun _ => 5000)
              _ _ _ _ _ out Hout Hst) as (newPost & H1 & H2 & H3 & H4).
  exists out, newPost.
  exact (conj Hout (conj Hst (conj H1 (conj H2 (conj H3 H4))))).
Defined.

(** The post [hello] is re-titled "Other". *)
Lemma updated_page_served_witness :
  exists out p row updatedPost,
    posts_wf (sample_db [sample_post "hello" 1000 true 0])
    /\ put_posts_id ascii_lower stringify_tags
         (sample_db [sample_post "hello" 1000 true 0]) ∅ (JS.lit "hello")
         (sample_body "Other") = Some out
    /\ status out = 200%nat
    /\ post_by_id (sample_db [sample_post "hello" 1000 true 0]) (JS.lit "hello")
       = Some p
    /\ post_by_id (db_after out) (JS.lit "hello") = Some row
    /\ head (background out) = Some updatedPost
    /\ Post.slug updatedPost = Post.slug row
    /\ get_blog_slug (settled out) (Post.slug row)
       = (200%nat, Some (fresh_page (db_after out) updatedPost))
    /\ (Post.slug row <> Post.slug p ->
        settled out !! Post.slug p = (∅ : R2) !! Post.slug p).
Proof.
  assert (Hwf : posts_wf (sample_db [sample_post "hello" 1000 true 0]))
    by (apply (bool_decide_unpack _); vm_compute; exact I).
  assert (H : exists out,
            put_posts_id ascii_lower stringify_tags
              (sample_db [sample_post "hello" 1000 true 0]) ∅ (JS.lit "hello")
              (sample_body "Other") = Some out
            /\ status out = 200%nat)
    by (eexists; split; reflexivity).
  destruct H as (out & Hout & Hst).
  destruct (updated_page_served ascii_lower stringify_tags plain_text
              day_number day_number no_tags year_number bars (fun _ => 5000)
              _ _ _ _ out Hwf Hout Hst)
    as (p & row & updatedPost & H1 & H2 & H3 & H4 & H5 & H6 & H7).
  exists out, p, row, updatedPost.
  exact (conj Hwf (conj Hout (conj Hst (conj H1 (conj H2 (conj H3
           (conj H4 (conj H6 H7)))))))).
Defined.

(** The page of [p1] with one approved comment by ann. *)
Lemma approved_comment_verbatim_witness :
  approved_comment ∈ comments (comment_db [approved_comment] [])
  /\ (exists pre suf,
        fresh_page (comment_db [approved_comment] [])
          (sample_post "p1" 1000 true 0)
        = pre ++ JS.lit "ann" ++ suf)
  /\ (exists pre suf,
        fresh_page (comment_db [approved_comment] [])
          (sample_post "p1" 1000 true 0)
        = pre ++ JS.lit "hi" ++ suf).
Proof.
  assert (Hin : approved_comment ∈ comments (comment_db [approved_comment] []))
    by constructor.
  split; [exact Hin|].
  exact (approved_comment_verbatim plain_text day_number day_number no_tags
           year_number bars 5000 (comment_db [approved_comment] [])
           (sample_post "p1" 1000 true 0) approved_comment Hin eq_refl eq_refl).
Defined.

(** Comment [c1] of [moderated_db] is approved. *)
Lemma approval_touches_one_page_witness :
  NoDup (map Comment.id (comments moderated_db))
  /\ status (put_comments_id moderated_db ∅ (JS.lit "c1") 1) = 200%nat
  /\ background (put_comments_id moderated_db ∅ (JS.lit "c1") 1)
     = [sample_post "p1" 1000 true 0]
  /\ set_is_approved 1 (sample_comment "c1" "1.2.3.4" 500)
     ∈ approved_comments
         (db_after (put_comments_id moderated_db ∅ (JS.lit "c1") 1))
         (JS.lit "p1")
  /\ forall now post, Post.id post <> JS.lit "p1" ->
       htmlContent plain_text day_number day_number no_tags year_number bars
         now (db_after (put_comments_id moderated_db ∅ (JS.lit "c1") 1)) post
       = htmlContent plain_text day_number day_number no_tags year_number bars
           now moderated_db post.
Proof.
  destruct (approval_touches_one_page plain_text day_number day_number no_tags
              year_number bars moderated_db ∅ (JS.lit "c1") 1
              (sample_comment "c1" "1.2.3.4" 500) moderated_db_ids eq_refl)
    as (H1 & _ & _ & H4 & _ & H6 & H7).
  split; [exact moderated_db_ids|]. split; [exact H1|]. split; [exact H4|].
  split; [exact (H6 eq_refl)|exact H7].
Defined.

(** Comment [c1] of [moderated_db] is deleted. *)
Lemma comment_deletion_touches_one_page_witness :
  NoDup (map Comment.id (comments moderated_db))
  /\ status (delete_comments_id moderated_db ∅ (JS.lit "c1")) = 200%nat
  /\ background (delete_comments_id moderated_db ∅ (JS.lit "c1"))
     = [sample_post "p1" 1000 true 0]
  /\ comments (db_after (delete_comments_id moderated_db ∅ (JS.lit "c1")))
     = [sample_comment "c2" "1.2.3.4" 600]
  /\ comment_by_id (db_after (delete_comments_id moderated_db ∅ (JS.lit "c1")))
       (JS.lit "c1") = None.
Proof.
  destruct (comment_deletion_touches_one_page plain_text day_number day_number
              no_tags year_number bars moderated_db ∅ (JS.lit "c1")
              (sample_comment "c1" "1.2.3.4" 500) moderated_db_ids eq_refl)
    as (H1 & _ & _ & H4 & _ & H6 & _).
  split; [exact moderated_db_ids|]. split; [exact H1|]. split; [exact H4|].
  split; [reflexivity|exact H6].
Defined.

Lemma moderated_db_wf : store_wf moderated_db.
Proof.
  split; [apply (bool_decide_unpack _); vm_compute; exact I|].
  split; [exact moderated_db_ids|]. split.
  - intros c Hc. apply list_elem_of_In in Hc.
    destruct Hc as [<-|[<-|[]]]; apply (bool_decide_unpack _); vm_compute;
      exact I.
  - intros k [v Hv]. discriminate Hv.
Defined.

(** A comment is submitted to [p1] of [moderated_db]. *)
Lemma store_wf_preserved_witness :
  store_wf moderated_db
  /\ fresh_ids (SubmitComment (JS.lit "p1") (sample_submission "5.6.7.8" "bob")
                  (JS.lit "c3") 700)
  /\ store_wf
       (db_after
          (post_comments moderated_db ∅ (JS.lit "p1")
             (sample_submission "5.6.7.8" "bob") (JS.lit "c3") 700)).
Proof.
  split; [exact moderated_db_wf|]. split; [exact I|].
  exact (store_wf_preserved ascii_lower stringify_tags moderated_db ∅
           (SubmitComment (JS.lit "p1") (sample_submission "5.6.7.8" "bob")
              (JS.lit "c3") 700)
           _ moderated_db_wf I eq_refl).
Defined.

(** The post "World" is created without a category. *)
Lemma created_page_and_stored_row_witness :
  exists out newPost row,
    post_posts ascii_lower stringify_tags
      (sample_db [sample_post "hello" 1000 true 0]) ∅
      (sample_body "World") (JS.lit "id-2") 2000 = Some out
    /\ status out = 201%nat
    /\ head (background out) = Some newPost
    /\ post_by_id (db_after out) (JS.lit "id-2") = Some row
    /\ JS.truthy_opt (Body.category (sample_body "World")) = false
    /\ forall t store,
         htmlContent plain_text day_number day_number no_tags year_number
           bars t store newPost
         <> htmlContent plain_text day_number day_number no_tags
              year_number bars t store row.
Proof.
  assert (H : exists out,
            post_posts ascii_lower stringify_tags
              (sample_db [sample_post "hello" 1000 true 0]) ∅
              (sample_body "World") (JS.lit "id-2") 2000 = Some out
            /\ status out = 201%nat)
    by (eexists; split; reflexivity).
  destruct H as (out & Hout & Hst).
  destruct (created_page_and_stored_row ascii_lower stringify_tags plain_text
              day_number day_number no_tags year_number bars
              _ _ _ _ _ out Hout Hst) as (newPost & row & H1 & H2 & _ & H4).
  exists out, newPost, row.
  exact (conj Hout (conj Hst (conj H1 (conj H2 (conj eq_refl (H4 eq_refl)))))).
Defined.

(** The category tech of [two_categories] is renamed to code and back. *)
Lemma category_rename_round_trip_witness :
  (forall p, p ∈ posts two_categories -> Post.category p <> Some (JS.lit "code"))
  /\ status (put_categories_rename two_categories ∅ (Some (JS.lit "tech"))
               (Some (JS.lit "code"))) = 200%nat
  /\ map Post.category
       (posts (db_after (put_categories_rename two_categories ∅
                           (Some (JS.lit "tech")) (Some (JS.lit "code")))))
     = [Some (JS.lit "code"); Some (JS.lit "news")]
  /\ db_after
       (put_categories_rename
          (db_after (put_categories_rename two_categories ∅
                       (Some (JS.lit "tech")) (Some (JS.lit "code"))))
          ∅ (Some (JS.lit "code")) (Some (JS.lit "tech")))
     = two_categories.
Proof.
  assert (Hfree : forall p, p ∈ posts two_categories ->
            Post.category p <> Some (JS.lit "code")).
  { intros p Hp. apply list_elem_of_In in Hp.
    destruct Hp as [<-|[<-|[]]]; intros H; vm_compute in H; discriminate H. }
  destruct (category_rename_round_trip two_categories ∅ (JS.lit "tech")
              (JS.lit "code") eq_refl eq_refl Hfree) as (H1 & _ & _ & _ & H5).
  split; [exact Hfree|]. split; [exact H1|]. split; [reflexivity|exact H5].
Defined.

(** Two settings are saved; only [site_url] has a row. *)
Lemma put_settings_updates_rows_only_witness :
  NoDup (map fst settings_body)
  /\ status (put_settings settings_db ∅ settings_body) = 200%nat
  /\ get_settings (db_after (put_settings settings_db ∅ settings_body))
       !! JS.lit "site_url"
     = (fun _ => JS.lit "https://example.org")
       <$> get_settings settings_db !! JS.lit "site_url"
  /\ get_settings (db_after (put_settings settings_db ∅ settings_body))
       !! JS.lit "blog_title"
     = (fun _ => JS.lit "My blog")
       <$> get_settings settings_db !! JS.lit "blog_title"
  /\ get_settings settings_db !! JS.lit "blog_title" = None.
Proof.
  assert (Hnd : NoDup (map fst settings_body))
    by (apply (bool_decide_unpack _); vm_compute; exact I).
  destruct (put_settings_updates_rows_only settings_db ∅ settings_body Hnd)
    as (H1 & H2 & _).
  split; [exact Hnd|]. split; [exact H1|]. split; [|split].
  - apply H2. constructor.
  - apply H2. constructor. constructor.
  - apply lookup_singleton_ne. intros H. vm_compute in H. discriminate H.
Defined.

(** Post [p] is viewed three times. *)
Lemma view_counter_counts_witness :
  post_by_id (sample_db [sample_post "p" 1000 true 0]) (JS.lit "p")
  = Some (sample_post "p" 1000 true 0)
  /\ post_views
       (Nat.iter 3
          (fun d => db_after (get_posts_views d ∅ (JS.lit "p")))
          (sample_db [sample_post "p" 1000 true 0]))
     !! JS.lit "p"
     = Some 3%N.
Proof.
  split; [reflexivity|].
  exact (proj1 (view_counter_counts (sample_db [sample_post "p" 1000 true 0])
                  ∅ (JS.lit "p") (sample_post "p" 1000 true 0) 3 eq_refl)).
Defined.

(** A title is saved to a settings table without a row for it. *)
Lemma settings_rows_fixed_witness :
  serve ascii_lower stringify_tags settings_db ∅ (PutSettings settings_body)
  = Some (put_settings settings_db ∅ settings_body)
  /\ setting settings_db (JS.lit "blog_title") = None
  /\ forall fallback,
       JS.or_else
         (setting (db_after (put_settings settings_db ∅ settings_body))
            (JS.lit "blog_title")) fallback
       = fallback.
Proof.
  assert (Hnone : setting settings_db (JS.lit "blog_title") = None).
  { apply lookup_singleton_ne. intros H. vm_compute in H. discriminate H. }
  split; [reflexivity|]. split; [exact Hnone|].
  exact (proj2 (settings_rows_fixed ascii_lower stringify_tags settings_db ∅
                  (PutSettings settings_body) _ (JS.lit "blog_title") eq_refl)
           Hnone).
Defined.

(** The password secret holds a colon; the request carries that very
    password. *)
Lemma BasicAuth_colon_locks_out_witness :
  JS.lit "GET" <> JS.lit "OPTIONS"
  /\ 58%N ∈ JS.lit "se:cret"
  /\ BasicAuth (decodes_to "admin:se:cret") (JS.lit "GET")
       (Some (JS.lit "Basic YWRtaW46c2U6Y3JldA==")) (Some (JS.lit "admin"))
       (Some (JS.lit "se:cret"))
     <> Next.
Proof.
  assert (Hm : JS.lit "GET" <> JS.lit "OPTIONS")
    by (intros H; vm_compute in H; discriminate H).
  assert (Hc : 58%N ∈ JS.lit "se:cret")
    by (apply (bool_decide_unpack _); vm_compute; exact I).
  split; [exact Hm|]. split; [exact Hc|].
  apply (BasicAuth_colon_locks_out (decodes_to "admin:se:cret") (JS.lit "GET")
           (Some (JS.lit "Basic YWRtaW46c2U6Y3JldA==")) (Some (JS.lit "admin"))
           (Some (JS.lit "se:cret")) Hm).
  right. right. exists (JS.lit "se:cret"). split; [reflexivity|exact Hc].
Defined.

(** The request carries the two secrets, neither with a colon. *)
Lemma BasicAuth_accepts_witness :
  decodes_to "admin:secret" (JS.lit "YWRtaW46c2VjcmV0")
  = Some (JS.lit "admin" ++ 58%N :: JS.lit "secret")
  /\ BasicAuth (decodes_to "admin:secret") (JS.lit "GET")
       (Some (JS.lit "Basic " ++ JS.lit "YWRtaW46c2VjcmV0"))
       (Some (JS.lit "admin")) (Some (JS.lit "secret"))
     = Next.
Proof.
  split; [reflexivity|].
  apply (BasicAuth_accepts (decodes_to "admin:secret") (JS.lit "GET")
           (JS.lit "YWRtaW46c2VjcmV0") (JS.lit "admin")
           (Some (JS.lit "secret"))).
  - intros H. vm_compute in H. discriminate H.
  - apply (bool_decide_unpack _). vm_compute. exact I.
  - apply (bool_decide_unpack _). vm_compute. exact I.
  - intros p [= <-]. apply (bool_decide_unpack _). vm_compute. exact I.
  - reflexivity.
Defined.

(** The three posts in pages of two. *)
Lemma get_posts_pages_witness :
  0 < 2
  /\ Permutation (listing_rows (get_posts three_posts None None))
       (posts three_posts)
  /\ exists n : nat,
       listing_totalPages (get_posts three_posts (Some 1) (Some 2))
       = Some (Z.of_nat n)
       /\ concat
            (map (fun k => listing_rows
                             (get_posts three_posts (Some (Z.of_nat (S k)))
                                (Some 2)))
               (seq 0 n))
          = listing_rows (get_posts three_posts None None).
Proof.
  assert (Hps : 0 < 2) by reflexivity.
  destruct (get_posts_pages three_posts 2 Hps) as (H1 & _ & n & H3 & H4 & _).
  split; [exact Hps|]. split; [exact H1|].
  exists n. split; [apply H3|exact H4].
Defined.

(** Post [a] of [three_posts] is the first post of the sitemap. *)
Lemma sitemap_links_served_after_rebuild_witness :
  posts_wf three_posts
  /\ public_posts three_posts !! O = Some (sample_post "a" 1000 true 0)
  /\ JS.truthy (Post.slug (sample_post "a" 1000 true 0)) = true
  /\ get_blog_slug (rebuilt three_posts) (JS.lit "a")
     = (200%nat, Some (fresh_page three_posts (sample_post "a" 1000 true 0))).
Proof.
  split; [exact three_posts_wf|]. split; [reflexivity|].
  split; [reflexivity|].
  destruct (proj2 (proj2 (sitemap_links_served_after_rebuild plain_text
                            day_number day_number no_tags year_number bars
                            (fun _ => 5000) three_posts ∅ three_posts_wf)
                     O (sample_post "a" 1000 true 0) eq_refl) eq_refl)
    as [k Hk].
  exact Hk.
Defined.

(** The post "World" is created under an unused id. *)
Lemma post_posts_succeeds_witness :
  JS.truthy_opt (Body.title (sample_body "World")) = true
  /\ exists out,
       post_posts ascii_lower stringify_tags
         (sample_db [sample_post "hello" 1000 true 0]) ∅
         (sample_body "World") (JS.lit "id-2") 2000 = Some out
       /\ status out = 201%nat.
Proof.
  split; [reflexivity|].
  apply (post_posts_succeeds ascii_lower stringify_tags
           (sample_db [sample_post "hello" 1000 true 0]) ∅
           (sample_body "World") (JS.lit "id-2") 2000 eq_refl eq_refl).
  intros p Hp. apply list_elem_of_singleton in Hp. subst p.
  intros H. vm_compute in H. discriminate H.
Defined.

(** Post [p] of [three_posts] is re-titled. *)
Lemma put_posts_id_cascade_witness :
  exists out p row updatedPost rest,
    posts_wf three_posts
    /\ put_posts_id ascii_lower stringify_tags three_posts ∅ (JS.lit "p")
         (sample_body "Renamed") = Some out
    /\ status out = 200%nat
    /\ post_by_id three_posts (JS.lit "p") = Some p
    /\ post_by_id (db_after out) (JS.lit "p") = Some row
    /\ background out = updatedPost :: rest
    /\ NoDup (map Post.id (background out)).
Proof.
  assert (H : exists out,
            put_posts_id ascii_lower stringify_tags three_posts ∅ (JS.lit "p")
              (sample_body "Renamed") = Some out
            /\ status out = 200%nat)
    by (eexists; split; reflexivity).
  destruct H as (out & Hout & Hst).
  destruct (put_posts_id_cascade ascii_lower stringify_tags three_posts ∅
              (JS.lit "p") (sample_body "Renamed") out three_posts_wf Hout Hst)
    as (p & row & updatedPost & rest & H1 & H2 & _ & H4 & _ & H6 & _).
  exists out, p, row, updatedPost, rest.
  exact (conj three_posts_wf (conj Hout (conj Hst (conj H1 (conj H2
           (conj H4 H6)))))).
Defined.

(** The later of two published posts with distinct timestamps is
    deleted. *)
Lemma delete_cascade_all_published_witness :
  (forall q,
     q ∈ posts (sample_db [sample_post "a" 1000 true 0;
                           sample_post "p" 3000 true 0]) ->
     Post.is_published q = true)
  /\ (forall q r,
        q ∈ posts (sample_db [sample_post "a" 1000 true 0;
                              sample_post "p" 3000 true 0]) ->
        r ∈ posts (sample_db [sample_post "a" 1000 true 0;
                              sample_post "p" 3000 true 0]) ->
        Post.published_at q = Post.published_at r -> q = r)
  /\ background
       (delete_posts_id
          (sample_db [sample_post "a" 1000 true 0; sample_post "p" 3000 true 0])
          ∅ (JS.lit "p"))
     = [sample_post "a" 1000 true 0].
Proof.
  assert (Hall : forall q,
            q ∈ posts (sample_db [sample_post "a" 1000 true 0;
                                  sample_post "p" 3000 true 0]) ->
            Post.is_published q = true).
  { intros q Hq. apply list_elem_of_In in Hq.
    destruct Hq as [<-|[<-|[]]]; reflexivity. }
  assert (Hdistinct : forall q r,
            q ∈ posts (sample_db [sample_post "a" 1000 true 0;
                                  sample_post "p" 3000 true 0]) ->
            r ∈ posts (sample_db [sample_post "a" 1000 true 0;
                                  sample_post "p" 3000 true 0]) ->
            Post.published_at q = Post.published_at r -> q = r).
  { intros q r Hq Hr. apply list_elem_of_In in Hq, Hr.
    destruct Hq as [<-|[<-|[]]], Hr as [<-|[<-|[]]];
      intros H; try reflexivity; discriminate H. }
  split; [exact Hall|]. split; [exact Hdistinct|].
  exact (proj1 (delete_cascade_all_published
                  (sample_db [sample_post "a" 1000 true 0;
                              sample_post "p" 3000 true 0])
                  ∅ (JS.lit "p") (sample_post "p" 3000 true 0) Hall Hdistinct
                  eq_refl)).
Defined.

(** A reply to comment [c1] of [moderated_db] is accepted. *)
Lemma accepted_comment_row_witness :
  status (post_comments moderated_db ∅ (JS.lit "p1") sample_reply
            (JS.lit "c3") 700) = 201%nat
  /\ exists row,
       comments (db_after (post_comments moderated_db ∅ (JS.lit "p1")
                             sample_reply (JS.lit "c3") 700))
       = comments moderated_db ++ [row]
       /\ Comment.author row = JS.lit "bob"
       /\ Comment.email row = None
       /\ Comment.reply_to row = Some (JS.lit "ann")
       /\ JS.truthy (Comment.ip_address row) = true.
Proof.
  split; [reflexivity|].
  destruct (accepted_comment_row moderated_db ∅ (JS.lit "p1") sample_reply
              (JS.lit "c3") 700 eq_refl)
    as (row & Hrow & _ & _ & _ & _ & Hip & _).
  exists row. split; [exact Hrow|].
  apply app_inj_tail in Hrow as [_ <-].
  split; [reflexivity|]. split; [reflexivity|]. split; [reflexivity|exact Hip].
Defined.
